(** * Accessibility-Tester: the rule engine of [src/app/api/accessibility-test/route.ts]

    A shallow embedding of the colour parser, the DOM queries the rules use,
    the fuller and the reduced [runAccessibilityChecks], the handler [POST]
    with the calls it makes, and the computations of the page that shows a
    report, followed by the properties proved about them.

    Conventions of the embedding:
    - a JavaScript string is a [string] whose characters are code units
      below 256 (ASCII and Latin-1);
    - an integer produced by [parseInt] is a [Z] ([None] stands for NaN);
      the values are exact, JavaScript rounds those of 2^53 and above to
      the nearest double;
    - [null] and [undefined] are [None];
    - [getLuminance] and [getContrastRatio] take the arithmetic of numbers
      from a [Host]; [Binary64.host] is the host of the IEEE-754 doubles,
      built on the specification of binary64 in the Standard Library, with
      [Math.pow], [toFixed] and the selector parser as its parameters;
    - what [POST] reads from its request, from the network and from the
      clock comes from an [Environment]; [console.log] is not embedded. *)

From Stdlib Require Import ZArith List String Ascii Bool Lia Decimal DecimalNat DecimalString.
From Stdlib Require Import SpecFloat.
From stdpp Require Import base option list strings gmap.

Set Warnings "-register-all".

Local Open Scope string_scope.

(** ** JavaScript strings *)

Module Js.

Definition code (c : ascii) : nat := nat_of_ascii c.

Definition between (lo hi : nat) (c : ascii) : bool :=
  (lo <=? code c)%nat && (code c <=? hi)%nat.

(** [\d] *)
Definition isDigit (c : ascii) : bool := between 48 57 c.

(** [[a-f\d]] under the [i] flag *)
Definition isHexDigit (c : ascii) : bool :=
  isDigit c || between 97 102 c || between 65 70 c.

(** White space and line terminators below 256: TAB, LF, VT, FF, CR,
    SPACE and NO-BREAK SPACE. It is the set of [\s] and of [trim]. *)
Definition isWhiteSpace (c : ascii) : bool :=
  between 9 13 c || (code c =? 32)%nat || (code c =? 160)%nat.

Definition lowerChar (c : ascii) : ascii :=
  if between 65 90 c || (between 192 222 c && negb (code c =? 215)%nat)
  then ascii_of_nat (code c + 32) else c.

Definition asciiUpperChar (c : ascii) : ascii :=
  if between 97 122 c then ascii_of_nat (code c - 32) else c.

Fixpoint mapChars (f : ascii -> ascii) (s : string) : string :=
  match s with
  | EmptyString => EmptyString
  | String c t => String (f c) (mapChars f t)
  end.

(** [s.toLowerCase()] *)
Definition toLowerCase (s : string) : string := mapChars lowerChar s.

(** ASCII upper-casing, which the DOM applies to build [tagName]. *)
Definition asciiUpper (s : string) : string := mapChars asciiUpperChar s.

Fixpoint trimStart (s : string) : string :=
  match s with
  | EmptyString => EmptyString
  | String c t => if isWhiteSpace c then trimStart t else s
  end.

Fixpoint trimEnd (s : string) : string :=
  match s with
  | EmptyString => EmptyString
  | String c t =>
      match trimEnd t with
      | EmptyString => if isWhiteSpace c then EmptyString else String c EmptyString
      | t' => String c t'
      end
  end.

(** [s.trim()] *)
Definition trim (s : string) : string := trimEnd (trimStart s).

(** [s.startsWith(p)] *)
Definition startsWith (s p : string) : bool := String.prefix p s.

(** [s.includes(sub)] *)
Fixpoint includes (s sub : string) : bool :=
  String.prefix sub s ||
  match s with
  | EmptyString => false
  | String _ t => includes t sub
  end.

(** [s.charAt(i)] *)
Definition charAt (s : string) (i : nat) : string :=
  match String.get i s with
  | Some c => String c EmptyString
  | None => EmptyString
  end.

(** [s.substring(0, n)] *)
Definition substring0 (s : string) (n : nat) : string := String.substring 0 n s.

(** [s.split(sep)[0]] for a one-character separator *)
Fixpoint splitHead (s : string) (sep : ascii) : string :=
  match s with
  | EmptyString => EmptyString
  | String c t => if Ascii.eqb c sep then EmptyString else String c (splitHead t sep)
  end.

(** A truthy string is a non-empty one. *)
Definition truthy (s : string) : bool :=
  match s with EmptyString => false | _ => true end.

(** [o] where [o : string | null] is used as a condition *)
Definition truthyOpt (o : option string) : bool :=
  match o with Some s => truthy s | None => false end.

(** An object or [null] used as a condition *)
Definition present {A} (o : option A) : bool :=
  match o with Some _ => true | None => false end.

(** [a || b] on values that are strings, [null] or [undefined] *)
Definition orElse (a b : option string) : option string :=
  if truthyOpt a then a else b.

(** [arr.includes(x)] on an array of strings *)
Definition arrayIncludes (arr : list string) (x : string) : bool :=
  existsb (String.eqb x) arr.

(** The decimal rendering of a natural number in a template string *)
Definition showNat (n : nat) : string := NilZero.string_of_uint (Nat.to_uint n).

Definition digitValue (c : ascii) : option Z :=
  if isDigit c then Some (Z.of_nat (code c) - 48)%Z
  else if between 97 122 c then Some (Z.of_nat (code c) - 87)%Z
  else if between 65 90 c then Some (Z.of_nat (code c) - 55)%Z
  else None.

(** The value of the longest prefix of [s] made of digits of radix [R];
    [acc] is the value read so far, [None] when no digit was read. *)
Fixpoint parseDigits (R : Z) (s : string) (acc : option Z) : option Z :=
  match s with
  | EmptyString => acc
  | String c t =>
      match digitValue c with
      | Some d =>
          if (d <? R)%Z
          then parseDigits R t (Some (match acc with Some a => a * R + d | None => d end)%Z)
          else acc
      | None => acc
      end
  end.

Definition stripSign (s : string) : Z * string :=
  match s with
  | String "-" t => ((-1)%Z, t)
  | String "+" t => (1%Z, t)
  | _ => (1%Z, s)
  end.

Definition stripHexPrefix (s : string) : option string :=
  match s with
  | String "0" (String "x" t) => Some t
  | String "0" (String "X" t) => Some t
  | _ => None
  end.

(** [parseInt(s, radix)]; [radix = None] is a call with one argument.
    [None] is NaN. *)
Definition parseInt (s : string) (radix : option Z) : option Z :=
  let '(sign, body) := stripSign (trimStart s) in
  let R := match radix with Some R => R | None => 0%Z end in
  if negb (R =? 0)%Z && ((R <? 2)%Z || (36 <? R)%Z) then None
  else
    let '(R, body) :=
      if (R =? 0)%Z || (R =? 16)%Z then
        match stripHexPrefix body with
        | Some t => (16%Z, t)
        | None => ((if (R =? 0)%Z then 10 else R)%Z, body)
        end
      else (R, body) in
    Z.mul sign <$> parseDigits R body None.

(** The longest prefix of [s] whose characters satisfy [p], and the rest:
    a greedy [p*]. *)
Fixpoint span (p : ascii -> bool) (s : string) : string * string :=
  match s with
  | EmptyString => (EmptyString, EmptyString)
  | String c t =>
      if p c then let '(a, rest) := span p t in (String c a, rest)
      else (EmptyString, s)
  end.

(** [s] without its prefix [lit], when it has it: a literal in a pattern. *)
Fixpoint literal (lit s : string) : option string :=
  match lit, s with
  | EmptyString, _ => Some s
  | String a lit', String c t => if Ascii.eqb a c then literal lit' t else None
  | String _ _, EmptyString => None
  end.

(** A non-empty greedy run: [p+] followed by something no [p] matches. *)
Definition span1 (p : ascii -> bool) (s : string) : option (string * string) :=
  match span p s with
  | (EmptyString, _) => None
  | r => Some r
  end.

(** The value stored under [key] in a list of named entries (the own
    properties of an object literal, the attributes of an element). *)
Fixpoint assoc {A} (key : string) (l : list (string * A)) : option A :=
  match l with
  | [] => None
  | (k, v) :: l' => if String.eqb k key then Some v else assoc key l'
  end.

(** The leftmost position of [s] where the anchored matcher [m] succeeds:
    an unanchored pattern. *)
Fixpoint leftmost {A} (m : string -> option A) (s : string) : option A :=
  match m s with
  | Some a => Some a
  | None =>
      match s with
      | EmptyString => None
      | String _ t => leftmost m t
      end
  end.

End Js.

(** ** Colour model (route.ts, lines 35-95) *)

Record RGB := mkRGB { r : Z; g : Z; b : Z }.

(** What [parseColor] can return besides [null]: an object with the three
    channels, or, because [namedColors[key]] also finds the members that an
    object literal inherits, a member of [Object.prototype] (an object or a
    function without channels). *)
Inductive ColorValue :=
| Channels (c : RGB)
| Inherited (key : string).

Module Color.

Definition hexPair (a b : ascii) : string := String a (String b EmptyString).

(** [/^#?([a-f\d]{2})([a-f\d]{2})([a-f\d]{2})$/i.exec(hex)], then
    [parseInt(result[k], 16)] on the three groups. *)
Definition hexToRgb (hex : string) : option RGB :=
  let body := match hex with String "#" t => t | _ => hex end in
  match body with
  | String a (String b (String c (String d (String e (String f EmptyString))))) =>
      if forallb Js.isHexDigit [a; b; c; d; e; f] then
        r ← Js.parseInt (hexPair a b) (Some 16%Z);
        g ← Js.parseInt (hexPair c d) (Some 16%Z);
        b ← Js.parseInt (hexPair e f) (Some 16%Z);
        Some (mkRGB r g b)
      else None
  | _ => None
  end.

(** [/rgb\((\d+),\s*(\d+),\s*(\d+)\)/] tried at the start of [s]. Each
    greedy run is followed by a character outside its class, so no
    back-tracking is involved. *)
Definition rgbPatternHere (s : string) : option (string * string * string) :=
  s ← Js.literal "rgb(" s;
  '(d1, s) ← Js.span1 Js.isDigit s;
  s ← Js.literal "," s;
  let '(_, s) := Js.span Js.isWhiteSpace s in
  '(d2, s) ← Js.span1 Js.isDigit s;
  s ← Js.literal "," s;
  let '(_, s) := Js.span Js.isWhiteSpace s in
  '(d3, s) ← Js.span1 Js.isDigit s;
  _ ← Js.literal ")" s;
  Some (d1, d2, d3).

(** [colorStr.match(/rgb\((\d+),\s*(\d+),\s*(\d+)\)/)]: the pattern has no
    anchor, the first position that matches wins. *)
Definition rgbMatch (colorStr : string) : option (string * string * string) :=
  Js.leftmost rgbPatternHere colorStr.

(** The own properties of the [namedColors] literal. *)
Definition namedColors : list (string * RGB) :=
  [ ("black", mkRGB 0 0 0);
    ("white", mkRGB 255 255 255);
    ("red", mkRGB 255 0 0);
    ("green", mkRGB 0 128 0);
    ("blue", mkRGB 0 0 255);
    ("yellow", mkRGB 255 255 0);
    ("gray", mkRGB 128 128 128);
    ("grey", mkRGB 128 128 128) ].

(** The property names every object literal inherits from
    [Object.prototype]; each one holds a function or an object. *)
Definition objectPrototypeKeys : list string :=
  [ "constructor"; "hasOwnProperty"; "isPrototypeOf"; "propertyIsEnumerable";
    "toLocaleString"; "toString"; "valueOf"; "__defineGetter__";
    "__defineSetter__"; "__lookupGetter__"; "__lookupSetter__"; "__proto__" ].

(** [namedColors[key]] *)
Definition namedColorsGet (key : string) : option ColorValue :=
  match Js.assoc key namedColors with
  | Some c => Some (Channels c)
  | None =>
      if Js.arrayIncludes objectPrototypeKeys key then Some (Inherited key) else None
  end.

Definition parseColor (colorStr : string) : option ColorValue :=
  if Js.startsWith colorStr "#" then Channels <$> hexToRgb colorStr
  else
    let fromRgb :=
      if Js.startsWith colorStr "rgb" then
        match rgbMatch colorStr with
        | Some (m1, m2, m3) =>
            r ← Js.parseInt m1 None;
            g ← Js.parseInt m2 None;
            b ← Js.parseInt m3 None;
            Some (Channels (mkRGB r g b))
        | None => None
        end
      else None in
    match fromRgb with
    | Some c => Some c
    | None => namedColorsGet (Js.toLowerCase colorStr)
    end.

End Color.

(** ** The document tree *)

(** A node of the parsed document. [localName] is the name as the HTML
    parser stores it (lower case for HTML elements); the attribute names
    are unique. *)
Inductive Node :=
| Text (data : string)
| Comment (data : string)
| Element (localName : string) (attributes : list (string * string)) (childNodes : list Node).

(** [document.documentElement] is [null] for a document without a root. *)
Record Document := { documentElement : option Node }.

Module Dom.

Definition localName (n : Node) : string :=
  match n with Element name _ _ => name | _ => EmptyString end.

(** [element.tagName] *)
Definition tagName (n : Node) : string := Js.asciiUpper (localName n).

(** [element.getAttribute(name)] *)
Definition getAttribute (n : Node) (name : string) : option string :=
  match n with Element _ attrs _ => Js.assoc name attrs | _ => None end.

(** [element.hasAttribute(name)] *)
Definition hasAttribute (n : Node) (name : string) : bool :=
  match getAttribute n name with Some _ => true | None => false end.

(** [node.textContent] *)
Fixpoint textContent (n : Node) : string :=
  match n with
  | Text d => d
  | Comment _ => EmptyString
  | Element _ _ children => String.concat EmptyString (map textContent children)
  end.

(** The elements of the subtree of [n] in document order (depth first,
    pre-order), [n] included when it is an element. *)
Fixpoint elements (n : Node) : list Node :=
  match n with
  | Element _ _ children => n :: List.flat_map elements children
  | _ => []
  end.

(** The elements strictly below [n]: the scope of [n.querySelectorAll]. *)
Definition descendants (n : Node) : list Node :=
  match n with
  | Element _ _ children => List.flat_map elements children
  | _ => []
  end.

(** The scope of [document.querySelectorAll]. *)
Definition allElements (d : Document) : list Node :=
  match documentElement d with Some root => elements root | None => [] end.

(** Selectors are embedded as predicates on elements. *)
Definition Selector := Node -> bool.

Definition querySelectorAll (d : Document) (sel : Selector) : list Node :=
  List.filter sel (allElements d).

Definition querySelector (d : Document) (sel : Selector) : option Node :=
  head (querySelectorAll d sel).

Definition querySelectorAllIn (n : Node) (sel : Selector) : list Node :=
  List.filter sel (descendants n).

Definition querySelectorIn (n : Node) (sel : Selector) : option Node :=
  head (querySelectorAllIn n sel).

(** A type selector, or a list of them: [img], [h1, h2, h3]. *)
Definition tag (names : list string) : Selector :=
  fun n => Js.arrayIncludes names (localName n).

(** [[name]] *)
Definition attrPresent (name : string) : Selector := fun n => hasAttribute n name.

(** [[name="value"]] for an attribute whose values compare case-sensitively *)
Definition attrIs (name value : string) : Selector :=
  fun n => match getAttribute n name with Some v => String.eqb v value | None => false end.

(** [[type="value"]]: HTML compares the values of [type] without regard
    to ASCII case. *)
Definition typeIs (value : string) : Selector :=
  fun n =>
    match getAttribute n "type" with
    | Some v => String.eqb (Js.asciiUpper v) (Js.asciiUpper value)
    | None => false
    end.

Definition both (a b : Selector) : Selector := fun n => a n && b n.
Definition either (a b : Selector) : Selector := fun n => a n || b n.

(** *** Serialisation ([outerHTML]) *)

Definition quote : string := String (ascii_of_nat 34) EmptyString.

Fixpoint escape (inAttribute : bool) (s : string) : string :=
  match s with
  | EmptyString => EmptyString
  | String c t =>
      let rest := escape inAttribute t in
      if Ascii.eqb c "&" then "&amp;" +:+ rest
      else if (Js.code c =? 160)%nat then "&nbsp;" +:+ rest
      else if inAttribute && (Js.code c =? 34)%nat then "&quot;" +:+ rest
      else if negb inAttribute && Ascii.eqb c "<" then "&lt;" +:+ rest
      else if negb inAttribute && Ascii.eqb c ">" then "&gt;" +:+ rest
      else String c rest
  end.

Definition voidElements : list string :=
  [ "area"; "base"; "basefont"; "bgsound"; "br"; "col"; "embed"; "frame"; "hr";
    "img"; "input"; "keygen"; "link"; "meta"; "param"; "source"; "track"; "wbr" ].

Definition rawTextElements : list string :=
  [ "style"; "script"; "xmp"; "iframe"; "noembed"; "noframes"; "plaintext" ].

Definition serializeAttribute (a : string * string) : string :=
  " " +:+ fst a +:+ "=" +:+ quote +:+ escape true (snd a) +:+ quote.

Fixpoint serialize (raw : bool) (n : Node) : string :=
  match n with
  | Text d => if raw then d else escape false d
  | Comment d => "<!--" +:+ d +:+ "-->"
  | Element name attrs children =>
      "<" +:+ name +:+ String.concat EmptyString (map serializeAttribute attrs) +:+ ">" +:+
      (if Js.arrayIncludes voidElements name then EmptyString
       else String.concat EmptyString
              (map (serialize (Js.arrayIncludes rawTextElements name)) children)
            +:+ "</" +:+ name +:+ ">")
  end.

(** [element.outerHTML] *)
Definition outerHTML (n : Node) : string := serialize false n.

End Dom.

(** ** Results (route.ts, lines 5-32) *)

Record AccessibilityNode := mkNode {
  html : string;
  target : list string;
  failureSummary : string
}.

Record AccessibilityViolation := mkViolation {
  v_id : string;
  v_impact : string;
  v_description : string;
  v_help : string;
  v_helpUrl : string;
  v_tags : list string;
  v_nodes : list AccessibilityNode
}.

Record AccessibilityPass := mkPass {
  p_id : string;
  p_description : string;
  p_help : string
}.

Record AccessibilityResult := mkResult {
  violations : list AccessibilityViolation;
  passes : list AccessibilityPass;
  incomplete : list AccessibilityViolation
}.

(** ** Exceptions *)

(** A thrown [Error] object. *)
Record JsError := mkError { name : string; message : string }.

Inductive Outcome (A : Type) :=
| Returns (a : A)
| Throws (e : JsError).
Arguments Returns {A} a.
Arguments Throws {A} e.

#[global] Instance Outcome_ret : MRet Outcome := @Returns.
#[global] Instance Outcome_bind : MBind Outcome :=
  fun A B f m => match m with Returns a => f a | Throws e => Throws e end.

(** What the runtime throws on [htmlElement.getAttribute(...)] when
    [htmlElement] is [null]. *)
Definition nullGetAttribute : JsError :=
  mkError "TypeError" "Cannot read properties of null (reading 'getAttribute')".

(** ** What the engine takes from its host *)

(** - [number] and the operations on it: the doubles of JavaScript, with
      [fromInteger z] the double of an integer value, [decimal m k] the
      literal of value [m / 10^k] ([decimal 3928 5] is [0.03928]), [NaN],
      [+], [*], [/], [<=], [<], [Math.pow], [Math.max], [Math.min] and
      [x.toFixed(digits)];
    - [querySelectorText]: [document.querySelector(selector)] for a
      selector given as text, which is used for the selectors that the
      engine builds from an [id] the embedding cannot read as an attribute
      selector; it throws when the text is not a selector. *)
Class Host := {
  number : Type;
  fromInteger : Z -> number;
  decimal : Z -> nat -> number;
  NaN : number;
  plus : number -> number -> number;
  times : number -> number -> number;
  divide : number -> number -> number;
  lessEq : number -> number -> bool;
  lessThan : number -> number -> bool;
  Math_pow : number -> number -> number;
  Math_max : number -> number -> number;
  Math_min : number -> number -> number;
  toFixed : number -> nat -> string;
  querySelectorText : Document -> string -> Outcome (option Node)
}.

(** ** Luminance and contrast (route.ts, lines 44-64) *)

Module Contrast.
Section Contrast.
Context `{Host}.

Definition getLuminance (r g b : number) : number :=
  let sR := divide r (fromInteger 255) in
  let sG := divide g (fromInteger 255) in
  let sB := divide b (fromInteger 255) in
  let R :=
    if lessEq sR (decimal 3928 5) then divide sR (decimal 1292 2)
    else Math_pow (divide (plus sR (decimal 55 3)) (decimal 1055 3)) (decimal 24 1) in
  let G :=
    if lessEq sG (decimal 3928 5) then divide sG (decimal 1292 2)
    else Math_pow (divide (plus sG (decimal 55 3)) (decimal 1055 3)) (decimal 24 1) in
  let B :=
    if lessEq sB (decimal 3928 5) then divide sB (decimal 1292 2)
    else Math_pow (divide (plus sB (decimal 55 3)) (decimal 1055 3)) (decimal 24 1) in
  plus (plus (times (decimal 2126 4) R) (times (decimal 7152 4) G)) (times (decimal 722 4) B).

(** [color.r], [color.g] or [color.b] as an operand: the double of the
    channel, or NaN for the [undefined] of a value without channels. *)
Definition channel (color : ColorValue) (proj : RGB -> Z) : number :=
  match color with
  | Channels c => fromInteger (proj c)
  | Inherited _ => NaN
  end.

Definition getContrastRatio (color1 color2 : ColorValue) : number :=
  let lum1 := getLuminance (channel color1 r) (channel color1 g) (channel color1 b) in
  let lum2 := getLuminance (channel color2 r) (channel color2 g) (channel color2 b) in
  let brightest := Math_max lum1 lum2 in
  let darkest := Math_min lum1 lum2 in
  divide (plus brightest (decimal 5 2)) (plus darkest (decimal 5 2)).

End Contrast.
End Contrast.

(** ** Iteration *)

(** [list.forEach((x, index) => ...)] where the callback updates the
    variables [S] it closes over. *)
Fixpoint forEachFrom {S A} (f : S -> A -> nat -> S) (l : list A) (index : nat) (s : S) : S :=
  match l with
  | [] => s
  | x :: l' => forEachFrom f l' (Datatypes.S index) (f s x index)
  end.

Definition forEach {S A} (f : S -> A -> nat -> S) (l : list A) (s : S) : S :=
  forEachFrom f l 0 s.

(** The same with a callback that can throw. *)
Fixpoint forEachFromM {S A} (f : S -> A -> nat -> Outcome S) (l : list A) (index : nat) (s : S)
  : Outcome S :=
  match l with
  | [] => Returns s
  | x :: l' => s' ← f s x index; forEachFromM f l' (Datatypes.S index) s'
  end.

Definition forEachM {S A} (f : S -> A -> nat -> Outcome S) (l : list A) (s : S) : Outcome S :=
  forEachFromM f l 0 s.

(** [arr.push(x)] *)
Definition push {A} (arr : list A) (x : A) : list A := (arr ++ [x])%list.

(** [`${tag}:nth-child(${index + 1})`] *)
Definition nthChild (tag : string) (index : nat) : string :=
  tag +:+ ":nth-child(" +:+ Js.showNat (index + 1) +:+ ")".

(** ** The fuller engine (route.ts, lines 97-603) *)

Module Full.
Section Engine.
Context `{Host}.

(** *** Check 1: images without alt text (lines 103-137) *)

Record ImageState := mkImageState {
  imagesWithoutAlt : list AccessibilityNode;
  decorativeImages : list AccessibilityNode
}.

Definition imageStep (st : ImageState) (img : Node) (index : nat) : ImageState :=
  let alt := Dom.getAttribute img "alt" in
  let role := Dom.getAttribute img "role" in
  match alt with
  | None =>
      mkImageState
        (push (imagesWithoutAlt st)
           (mkNode (Dom.outerHTML img) [nthChild "img" index]
              "Image does not have an alt attribute"))
        (decorativeImages st)
  | Some a =>
      if String.eqb a EmptyString && negb (bool_decide (role = Some "presentation")) then
        mkImageState (imagesWithoutAlt st)
          (push (decorativeImages st)
             (mkNode (Dom.outerHTML img) [nthChild "img" index]
                ("Image appears to be decorative but lacks role=" +:+ Dom.quote
                 +:+ "presentation" +:+ Dom.quote)))
      else st
  end.

Definition checkImages (images : list Node) : ImageState :=
  forEach imageStep images (mkImageState [] []).

(** *** Check 2: form elements (lines 139-216) *)

Record FormState := mkFormState {
  elementsWithoutLabels : list AccessibilityNode;
  elementsWithoutRequiredIndicator : list AccessibilityNode;
  elementsWithPoorLabels : list AccessibilityNode
}.

(** The characters that end or escape a CSS string, or that the CSS
    preprocessing rewrites: NUL, LF, FF, CR, the double quote and the
    backslash. Without them, [label[for="id"]] compares [for] with [id]. *)
Definition selectorSafeChar (c : ascii) : bool :=
  negb (Js.arrayIncludes
          (map (fun n => String (ascii_of_nat n) EmptyString) [0; 10; 12; 13; 34; 92])
          (String c EmptyString)).

Fixpoint selectorSafe (s : string) : bool :=
  match s with
  | EmptyString => true
  | String c t => selectorSafeChar c && selectorSafe t
  end.

(** [document.querySelector(`label[for="${id}"]`)] *)
Definition labelFor (document : Document) (id : string) : Outcome (option Node) :=
  if selectorSafe id then
    Returns (Dom.querySelector document (Dom.both (Dom.tag ["label"]) (Dom.attrIs "for" id)))
  else
    querySelectorText document ("label[for=" +:+ Dom.quote +:+ id +:+ Dom.quote +:+ "]").

Definition excludedTypes : list string := ["hidden"; "submit"; "button"; "reset"; "image"].

(** [element.getAttribute('type') || 'text'] *)
Definition inputType (element : Node) : string :=
  default "text" (Js.orElse (Dom.getAttribute element "type") (Some "text")).

(** The input types that the check skips (lines 149-152). *)
Definition needsNoLabel (element : Node) : bool :=
  Js.arrayIncludes excludedTypes (inputType element).

Definition formStep (document : Document) (st : FormState) (element : Node) (index : nat)
  : Outcome FormState :=
  let tagName := Js.toLowerCase (Dom.tagName element) in
  if needsNoLabel element then Returns st
  else
    let id := Dom.getAttribute element "id" in
    hasLabel ← (match id with
                | Some i => if Js.truthy i then labelFor document i else Returns None
                | None => Returns None
                end);
    let hasAriaLabel := Dom.getAttribute element "aria-label" in
    let hasAriaLabelledby := Dom.getAttribute element "aria-labelledby" in
    let placeholder := Dom.getAttribute element "placeholder" in
    let required := Dom.hasAttribute element "required" in
    let unlabelled :=
      negb (Js.present hasLabel) && negb (Js.truthyOpt hasAriaLabel)
      && negb (Js.truthyOpt hasAriaLabelledby) in
    let without :=
      if unlabelled then
        push (elementsWithoutLabels st)
          (mkNode (Dom.outerHTML element) [nthChild tagName index]
             (tagName +:+ " element does not have an accessible label"))
      else elementsWithoutLabels st in
    let poor :=
      if Js.truthyOpt placeholder && unlabelled then
        push (elementsWithPoorLabels st)
          (mkNode (Dom.outerHTML element) [nthChild tagName index]
             "Form element relies only on placeholder text for labeling")
      else elementsWithPoorLabels st in
    if required then
      label ← (match hasLabel, id with
               | Some _, Some i => labelFor document i
               | _, _ => Returns None
               end);
      let labelText :=
        default EmptyString
          (Js.orElse (Js.orElse (Dom.textContent <$> label) hasAriaLabel) (Some EmptyString)) in
      let indicator :=
        if negb (Js.includes labelText "*")
           && negb (Js.includes (Js.toLowerCase labelText) "required") then
          push (elementsWithoutRequiredIndicator st)
            (mkNode (Dom.outerHTML element) [nthChild tagName index]
               "Required form field lacks clear required indicator")
        else elementsWithoutRequiredIndicator st in
      Returns (mkFormState without indicator poor)
    else Returns (mkFormState without (elementsWithoutRequiredIndicator st) poor).

Definition checkForms (document : Document) (formElements : list Node) : Outcome FormState :=
  forEachM (formStep document) formElements (mkFormState [] [] []).

(** *** Check 3: buttons (lines 218-270) *)

Record ButtonState := mkButtonState {
  buttonsWithoutText : list AccessibilityNode;
  buttonsWithPoorText : list AccessibilityNode
}.

Definition poorButtonPhrases : list string := ["click"; "here"; "more"; "link"; "button"].

Definition buttonStep (st : ButtonState) (button : Node) (index : nat) : ButtonState :=
  let text := Some (Js.trim (Dom.textContent button)) in
  let value := Js.trim <$> Dom.getAttribute button "value" in
  let ariaLabel := Dom.getAttribute button "aria-label" in
  let title := Dom.getAttribute button "title" in
  let accessibleText := Js.orElse (Js.orElse (Js.orElse text value) ariaLabel) title in
  match accessibleText with
  | Some (String _ _ as accessibleText) =>
      if Js.arrayIncludes poorButtonPhrases (Js.toLowerCase accessibleText) then
        mkButtonState (buttonsWithoutText st)
          (push (buttonsWithPoorText st)
             (mkNode (Dom.outerHTML button) [nthChild "button" index]
                ("Button text " +:+ Dom.quote +:+ accessibleText +:+ Dom.quote
                 +:+ " is not descriptive")))
      else st
  | _ =>
      mkButtonState
        (push (buttonsWithoutText st)
           (mkNode (Dom.outerHTML button) [nthChild "button" index]
              "Button does not have accessible text"))
        (buttonsWithPoorText st)
  end.

Definition checkButtons (buttons : list Node) : ButtonState :=
  forEach buttonStep buttons (mkButtonState [] []).

(** *** Check 4: links (lines 272-344) *)

Record LinkState := mkLinkState {
  linksWithoutText : list AccessibilityNode;
  linksWithPoorText : list AccessibilityNode;
  linksWithSameText : list AccessibilityNode;
  linkTexts : gmap string (option string)
}.

Definition poorLinkPhrases : list string :=
  ["click here"; "here"; "more"; "read more"; "link"; "continue"].

Definition sameTextNode (link : Node) (index : nat) (accessibleText : string)
  : AccessibilityNode :=
  mkNode (Dom.outerHTML link) [nthChild "a" index]
    ("Multiple links with same text " +:+ Dom.quote +:+ accessibleText +:+ Dom.quote
     +:+ " lead to different destinations").

Definition linkStep (st : LinkState) (link : Node) (index : nat) : LinkState :=
  let text := Some (Js.trim (Dom.textContent link)) in
  let ariaLabel := Dom.getAttribute link "aria-label" in
  let title := Dom.getAttribute link "title" in
  let href := Dom.getAttribute link "href" in
  let accessibleText := Js.orElse (Js.orElse text ariaLabel) title in
  match accessibleText with
  | Some (String _ _ as accessibleText) =>
      let poor :=
        if Js.arrayIncludes poorLinkPhrases (Js.toLowerCase accessibleText) then
          push (linksWithPoorText st)
            (mkNode (Dom.outerHTML link) [nthChild "a" index]
               ("Link text " +:+ Dom.quote +:+ accessibleText +:+ Dom.quote
                +:+ " is not descriptive"))
        else linksWithPoorText st in
      match linkTexts st !! accessibleText with
      | Some existingHref =>
          if bool_decide (existingHref = href) then
            mkLinkState (linksWithoutText st) poor (linksWithSameText st) (linkTexts st)
          else
            mkLinkState (linksWithoutText st) poor
              (push (linksWithSameText st) (sameTextNode link index accessibleText))
              (linkTexts st)
      | None =>
          mkLinkState (linksWithoutText st) poor (linksWithSameText st)
            (<[accessibleText := href]> (linkTexts st))
      end
  | _ =>
      mkLinkState
        (push (linksWithoutText st)
           (mkNode (Dom.outerHTML link) [nthChild "a" index]
              "Link does not have accessible text"))
        (linksWithPoorText st) (linksWithSameText st) (linkTexts st)
  end.

Definition checkLinks (links : list Node) : LinkState :=
  forEach linkStep links (mkLinkState [] [] [] ∅).

(** *** Check 5: colour contrast of inline styles (lines 346-393) *)

Fixpoint lastChar (s : string) : option ascii :=
  match s with
  | EmptyString => None
  | String c EmptyString => Some c
  | String _ t => lastChar t
  end.

(** The group of [/property:\s*([^;]+)/] tried at the start of [s]. When
    nothing but [;] or the end follows the white space, the white space
    gives its last character back and the group is that character. *)
Definition declarationHere (property s : string) : option string :=
  s ← Js.literal (property +:+ ":") s;
  let '(ws, rest) := Js.span Js.isWhiteSpace s in
  match Js.span1 (fun c => negb (Ascii.eqb c ";")) rest with
  | Some (value, _) => Some value
  | None => (fun c => String c EmptyString) <$> lastChar ws
  end.

(** [style.match(/property:\s*([^;]+)/)[1]] *)
Definition declaration (property style : string) : option string :=
  Js.leftmost (declarationHere property) style.

(** The group of [/font-size:\s*(\d+)px/] tried at the start of [s]. *)
Definition fontSizeHere (s : string) : option string :=
  s ← Js.literal "font-size:" s;
  let '(_, s) := Js.span Js.isWhiteSpace s in
  '(digits, s) ← Js.span1 Js.isDigit s;
  _ ← Js.literal "px" s;
  Some digits.

Definition textSelector : Dom.Selector :=
  Dom.tag ["p"; "h1"; "h2"; "h3"; "h4"; "h5"; "h6"; "span"; "div"; "a"; "button"; "label"; "li"].

(** [element.getAttribute('style') || ''] *)
Definition inlineStyle (element : Node) : string :=
  default EmptyString (Js.orElse (Dom.getAttribute element "style") (Some EmptyString)).

Definition contrastStep (contrastIssues : list AccessibilityNode) (element : Node) (index : nat)
  : list AccessibilityNode :=
  let style := Dom.getAttribute element "style" in
  let computedStyle := inlineStyle element in
  let text := Js.trim (Dom.textContent element) in
  if negb (Js.truthy text) then contrastIssues
  else
    match declaration "color" computedStyle, declaration "background-color" computedStyle with
    | Some colorMatch, Some bgColorMatch =>
        match Color.parseColor (Js.trim colorMatch), Color.parseColor (Js.trim bgColorMatch) with
        | Some textColor, Some bgColor =>
            let contrast := Contrast.getContrastRatio textColor bgColor in
            let fontSize := default "14" (style ≫= Js.leftmost fontSizeHere) in
            let size :=
              match Js.parseInt fontSize None with
              | Some 0%Z | None => 14%Z
              | Some n => n
              end in
            let isLargeText :=
              (18 <=? size)%Z
              || ((14 <=? size)%Z && Js.includes computedStyle "font-weight: bold") in
            let minContrast := if isLargeText then fromInteger 3 else decimal 45 1 in
            let shownMinContrast := if isLargeText then "3" else "4.5" in
            if lessThan contrast minContrast then
              push contrastIssues
                (mkNode (Dom.outerHTML element)
                   [nthChild (Js.toLowerCase (Dom.tagName element)) index]
                   ("Text has insufficient color contrast (" +:+ toFixed contrast 2
                    +:+ ":1, requires " +:+ shownMinContrast +:+ ":1)"))
            else contrastIssues
        | _, _ => contrastIssues
        end
    | _, _ => contrastIssues
    end.

Definition checkContrast (textElements : list Node) : list AccessibilityNode :=
  forEach contrastStep textElements [].

(** *** Check 7: heading hierarchy (lines 481-535) *)

Record HeadingState := mkHeadingState {
  headingLevels : list (option Z);
  skippedHeadings : list AccessibilityNode;
  emptyHeadings : list AccessibilityNode
}.

(** A number in a template string *)
Definition showNumber (n : option Z) : string :=
  match n with
  | Some z => NilZero.string_of_int (Z.to_int z)
  | None => "NaN"
  end.

(** [level > previous + 1]; a comparison with NaN is false. *)
Definition skipsFrom (previous level : option Z) : bool :=
  match previous, level with
  | Some p, Some l => (p + 1 <? l)%Z
  | _, _ => false
  end.

Definition headingSelector : Dom.Selector := Dom.tag ["h1"; "h2"; "h3"; "h4"; "h5"; "h6"].

Definition headingLevel (heading : Node) : option Z :=
  Js.parseInt (Js.charAt (Dom.tagName heading) 1) None.

Definition skipNode (heading : Node) (previous level : option Z) : AccessibilityNode :=
  mkNode (Dom.outerHTML heading) [Js.toLowerCase (Dom.tagName heading)]
    ("Heading level skips from h" +:+ showNumber previous +:+ " to h" +:+ showNumber level).

Definition headingStep (st : HeadingState) (heading : Node) (index : nat) : HeadingState :=
  let level := headingLevel heading in
  let text := Js.trim (Dom.textContent heading) in
  let empty :=
    if negb (Js.truthy text) then
      push (emptyHeadings st)
        (mkNode (Dom.outerHTML heading) [Js.toLowerCase (Dom.tagName heading)]
           "Heading is empty")
    else emptyHeadings st in
  let levels := push (headingLevels st) level in
  if (0 <? index)%nat then
    let previous := mjoin (levels !! (index - 1)%nat) in
    if skipsFrom previous level then
      mkHeadingState levels (push (skippedHeadings st) (skipNode heading previous level)) empty
    else mkHeadingState levels (skippedHeadings st) empty
  else mkHeadingState levels (skippedHeadings st) empty.

Definition checkHeadings (headings : list Node) : HeadingState :=
  forEach headingStep headings (mkHeadingState [] [] []).

(** *** Check 8: tables (lines 537-573) *)

Record TableState := mkTableState {
  tablesWithoutHeaders : list AccessibilityNode;
  tablesWithoutCaption : list AccessibilityNode
}.

Definition tableStep (st : TableState) (table : Node) (index : nat) : TableState :=
  let headers := Dom.querySelectorAllIn table (Dom.tag ["th"]) in
  let caption := Dom.querySelectorIn table (Dom.tag ["caption"]) in
  let excerpt := Js.substring0 (Dom.outerHTML table) 200 +:+ "..." in
  mkTableState
    (if (length headers =? 0)%nat then
       push (tablesWithoutHeaders st)
         (mkNode excerpt [nthChild "table" index] "Data table does not have header cells")
     else tablesWithoutHeaders st)
    (if negb (Js.present caption) then
       push (tablesWithoutCaption st)
         (mkNode excerpt [nthChild "table" index] "Data table does not have a caption")
     else tablesWithoutCaption st).

Definition checkTables (tables : list Node) : TableState :=
  forEach tableStep tables (mkTableState [] []).

(** *** The violation entries *)

(** [if (nodes.length > 0) violations.push(entry)] *)
Definition whenAny (nodes : list AccessibilityNode)
    (entry : list AccessibilityNode -> AccessibilityViolation) : list AccessibilityViolation :=
  match nodes with
  | [] => []
  | _ => [entry nodes]
  end.

Definition imageAlt :=
  mkViolation "image-alt" "critical" "Images must have alternative text"
    "Images must have alternate text" "https://webaim.org/techniques/alttext/"
    ["wcag2a"; "wcag111"; "cat.text-alternatives"].

Definition label :=
  mkViolation "label" "critical" "Form elements must have labels"
    "Form elements must have labels" "https://webaim.org/techniques/forms/controls"
    ["wcag2a"; "wcag412"; "wcag131"; "cat.forms"].

Definition placeholderAsLabel :=
  mkViolation "placeholder-as-label" "serious"
    "Placeholder text should not be used as the only form of labeling"
    "Placeholder text cannot replace proper labels"
    "https://webaim.org/techniques/forms/advanced#placeholder"
    ["wcag2a"; "wcag131"; "cat.forms"].

Definition buttonName :=
  mkViolation "button-name" "critical" "Buttons must have discernible text"
    "Buttons must have discernible text" "https://webaim.org/techniques/forms/controls#button"
    ["wcag2a"; "wcag412"; "cat.name-role-value"].

Definition buttonTextQuality :=
  mkViolation "button-text-quality" "moderate" "Button text should be descriptive"
    "Button text should clearly describe the button's function"
    "https://webaim.org/techniques/hypertext/hypertext_links#link_text"
    ["wcag2a"; "wcag244"; "cat.name-role-value"].

Definition linkName :=
  mkViolation "link-name" "serious" "Links must have discernible text"
    "Links must have discernible text"
    "https://webaim.org/techniques/hypertext/hypertext_links#link_text"
    ["wcag2a"; "wcag244"; "wcag412"; "cat.name-role-value"].

Definition linkTextQuality :=
  mkViolation "link-text-quality" "moderate" "Link text should be descriptive"
    "Link text should clearly describe the link's destination or function"
    "https://webaim.org/techniques/hypertext/hypertext_links#link_text"
    ["wcag2a"; "wcag244"; "cat.name-role-value"].

Definition colorContrast :=
  mkViolation "color-contrast" "serious" "Text must have sufficient color contrast"
    "Text must have a contrast ratio of at least 4.5:1 (3:1 for large text)"
    "https://webaim.org/articles/contrast/" ["wcag2aa"; "wcag143"; "cat.color"].

Definition documentTitle (title : option Node) :=
  mkViolation "document-title" "serious" "Documents must have a title to aid in navigation"
    "Documents must have <title> element to aid in navigation"
    "https://webaim.org/techniques/pagetitles/"
    ["wcag2a"; "wcag242"; "cat.text-alternatives"]
    [mkNode (match title with Some t => Dom.outerHTML t | None => "<title></title>" end)
       ["title"] "Document does not have a title"].

Definition pageHasHeadingOne :=
  mkViolation "page-has-heading-one" "moderate"
    "Page should have a heading structure that starts with h1"
    "Page must contain a level-one heading" "https://webaim.org/techniques/semanticstructure/"
    ["wcag2a"; "wcag131"; "cat.semantics"]
    [mkNode "<body>" ["body"] "Page does not contain a heading (h1)"].

Definition multipleH1 (h1s : list Node) :=
  mkViolation "multiple-h1" "moderate" "Page should not have more than one h1 heading"
    "Page should have only one main heading (h1)"
    "https://webaim.org/techniques/semanticstructure/"
    ["wcag2a"; "wcag131"; "cat.semantics"]
    (imap (fun index h1 =>
             mkNode (Dom.outerHTML h1)
               ["h1:nth-child(" +:+ Js.showNat (index + 2) +:+ ")"]
               "Multiple h1 headings found")
       (drop 1 h1s)).

Definition htmlHasLang (htmlElement : Node) :=
  mkViolation "html-has-lang" "serious" "The html element must have a lang attribute"
    "<html> element must have a lang attribute" "https://webaim.org/techniques/language/"
    ["wcag2a"; "wcag311"; "cat.language"]
    [mkNode (Js.splitHead (Dom.outerHTML htmlElement) ">" +:+ ">") ["html"]
       "The <html> element does not have a lang attribute"].

Definition metaViewportMissing :=
  mkViolation "meta-viewport" "moderate"
    "Viewport meta tag should be present for responsive design"
    "Viewport meta tag should be included for mobile accessibility"
    "https://webaim.org/articles/mobile/" ["wcag2a"; "cat.mobile"]
    [mkNode "<head>" ["head"] "Viewport meta tag is missing"].

Definition headingOrder :=
  mkViolation "heading-order" "moderate" "Heading levels should only increase by one"
    "Heading levels should only increase by one"
    "https://webaim.org/techniques/semanticstructure/"
    ["wcag2a"; "wcag131"; "cat.semantics"].

Definition emptyHeading :=
  mkViolation "empty-heading" "serious" "Headings must not be empty"
    "Headings must contain text" "https://webaim.org/techniques/semanticstructure/"
    ["wcag2a"; "wcag131"; "cat.semantics"].

Definition tableHeaders :=
  mkViolation "table-headers" "serious" "Data tables should have table headers"
    "Data tables should have table headers (th elements)"
    "https://webaim.org/techniques/tables/data" ["wcag2a"; "wcag131"; "cat.tables"].

(** *** Passes (lines 575-596) *)

Record PassCheck := mkPassCheck { condition : bool; pc_id : string; desc : string }.

(** [passChecks.forEach(check => { if (check.condition) passes.push(...) })] *)
Definition emitPasses (passChecks : list PassCheck) : list AccessibilityPass :=
  forEach
    (fun passes check (_ : nat) =>
       if condition check then push passes (mkPass (pc_id check) (desc check) (desc check))
       else passes)
    passChecks [].

(** [title && title.textContent?.trim()] as a condition *)
Definition hasTitle (title : option Node) : bool :=
  match title with
  | Some t => Js.truthy (Js.trim (Dom.textContent t))
  | None => false
  end.

Definition buttonSelector : Dom.Selector :=
  Dom.either (Dom.tag ["button"])
    (Dom.either (Dom.both (Dom.tag ["input"]) (Dom.typeIs "button"))
       (Dom.either (Dom.both (Dom.tag ["input"]) (Dom.typeIs "submit"))
          (Dom.both (Dom.tag ["input"]) (Dom.typeIs "reset")))).

Definition linkSelector : Dom.Selector := Dom.both (Dom.tag ["a"]) (Dom.attrPresent "href").

Definition formSelector : Dom.Selector := Dom.tag ["input"; "textarea"; "select"].

Definition viewportSelector : Dom.Selector :=
  Dom.both (Dom.tag ["meta"]) (Dom.attrIs "name" "viewport").

(** *** [runAccessibilityChecks] *)

(** The element lists and elements that the function queries. *)
Definition images (document : Document) := Dom.querySelectorAll document (Dom.tag ["img"]).
Definition formElements (document : Document) := Dom.querySelectorAll document formSelector.
Definition buttons (document : Document) := Dom.querySelectorAll document buttonSelector.
Definition links (document : Document) := Dom.querySelectorAll document linkSelector.
Definition textElements (document : Document) := Dom.querySelectorAll document textSelector.
Definition title (document : Document) := Dom.querySelector document (Dom.tag ["title"]).
Definition h1s (document : Document) := Dom.querySelectorAll document (Dom.tag ["h1"]).
Definition metaViewport (document : Document) := Dom.querySelector document viewportSelector.
Definition headings (document : Document) := Dom.querySelectorAll document headingSelector.
Definition tables (document : Document) := Dom.querySelectorAll document (Dom.tag ["table"]).

(** [if (h1s.length === 0) ... else if (h1s.length > 1) ...] (lines 419-447) *)
Definition headingOneViolations (h1s : list Node) : list AccessibilityViolation :=
  match h1s with
  | [] => [pageHasHeadingOne]
  | [_] => []
  | _ => [multipleH1 h1s]
  end.

(** The entries pushed on [violations], in the order of the pushes, once
    Check 2 has returned [formSt] and the root [htmlElement] is there. *)
Definition pushedViolations (document : Document) (formSt : FormState) (htmlElement : Node)
  : list AccessibilityViolation :=
  let imageSt := checkImages (images document) in
  let buttonSt := checkButtons (buttons document) in
  let linkSt := checkLinks (links document) in
  let contrastIssues := checkContrast (textElements document) in
  let headingSt := checkHeadings (headings document) in
  let tableSt := checkTables (tables document) in
  (whenAny (imagesWithoutAlt imageSt) imageAlt
   ++ whenAny (elementsWithoutLabels formSt) label
   ++ whenAny (elementsWithPoorLabels formSt) placeholderAsLabel
   ++ whenAny (buttonsWithoutText buttonSt) buttonName
   ++ whenAny (buttonsWithPoorText buttonSt) buttonTextQuality
   ++ whenAny (linksWithoutText linkSt) linkName
   ++ whenAny (linksWithPoorText linkSt) linkTextQuality
   ++ whenAny contrastIssues (fun issues => colorContrast (take 10 issues))
   ++ (if negb (hasTitle (title document)) then [documentTitle (title document)] else [])
   ++ headingOneViolations (h1s document)
   ++ (if negb (Js.truthyOpt (Dom.getAttribute htmlElement "lang"))
       then [htmlHasLang htmlElement] else [])
   ++ (if negb (Js.present (metaViewport document)) then [metaViewportMissing] else [])
   ++ whenAny (skippedHeadings headingSt) headingOrder
   ++ whenAny (emptyHeadings headingSt) emptyHeading
   ++ whenAny (tablesWithoutHeaders tableSt) tableHeaders)%list.

(** The [passChecks] array. *)
Definition passChecks (document : Document) (formSt : FormState) (htmlElement : Node)
  : list PassCheck :=
  [ mkPassCheck
      ((0 <? length (images document))%nat
       && (length (imagesWithoutAlt (checkImages (images document))) =? 0)%nat)
      "image-alt" "Images have alternative text";
    mkPassCheck (hasTitle (title document)) "document-title" "Document has a title";
    mkPassCheck (Js.truthyOpt (Dom.getAttribute htmlElement "lang"))
      "html-has-lang" "HTML element has lang attribute";
    mkPassCheck (length (h1s document) =? 1)%nat
      "page-has-heading-one" "Page has exactly one h1 heading";
    mkPassCheck (Js.present (metaViewport document))
      "meta-viewport" "Viewport meta tag is present";
    mkPassCheck
      ((0 <? length (formElements document))%nat
       && (length (elementsWithoutLabels formSt) =? 0)%nat)
      "form-labels" "Form elements have proper labels";
    mkPassCheck
      ((0 <? length (buttons document))%nat
       && (length (buttonsWithoutText (checkButtons (buttons document))) =? 0)%nat)
      "button-names" "Buttons have accessible names";
    mkPassCheck
      ((0 <? length (links document))%nat
       && (length (linksWithoutText (checkLinks (links document))) =? 0)%nat)
      "link-names" "Links have accessible names";
    mkPassCheck
      ((0 <? length (headings document))%nat
       && (length (skippedHeadings (checkHeadings (headings document))) =? 0)%nat)
      "heading-structure" "Heading structure is logical" ].

(** Check 2 runs before the root is read; the other checks cannot throw. *)
Definition runAccessibilityChecks (document : Document) : Outcome AccessibilityResult :=
  formSt ← checkForms document (formElements document);
  htmlElement ← (match documentElement document with
                 | Some e => Returns e
                 | None => Throws nullGetAttribute
                 end);
  Returns (mkResult (pushedViolations document formSt htmlElement)
             (emitPasses (passChecks document formSt htmlElement)) []).

End Engine.
End Full.

(** ** The reduced engine, Check 1 and its pass (route.ts, lines 767-794 and 957-963) *)

Module Reduced.

(** [!img.getAttribute('alt') && img.getAttribute('alt') !== ''] *)
Definition lacksAlt (img : Node) : bool :=
  negb (Js.truthyOpt (Dom.getAttribute img "alt"))
  && negb (bool_decide (Dom.getAttribute img "alt" = Some EmptyString)).

Definition imageStep (imagesWithoutAlt : list AccessibilityNode) (img : Node) (index : nat)
  : list AccessibilityNode :=
  if lacksAlt img then
    push imagesWithoutAlt
      (mkNode (Dom.outerHTML img) [nthChild "img" index]
         "Image does not have an alt attribute")
  else imagesWithoutAlt.

Definition imagesWithoutAlt (images : list Node) : list AccessibilityNode :=
  forEach imageStep images [].

Definition imageAlt :=
  mkViolation "image-alt" "critical" "Images must have alternative text"
    "Images must have alternate text" "https://dequeuniversity.com/rules/axe/4.10/image-alt"
    ["wcag2a"; "wcag111"; "cat.text-alternatives"].

(** The part of the reduced [runAccessibilityChecks] that concerns images. *)
Definition imageViolations (document : Document) : list AccessibilityViolation :=
  Full.whenAny (imagesWithoutAlt (Full.images document)) imageAlt.

Definition imagePasses (document : Document) : list AccessibilityPass :=
  let images := Full.images document in
  if (0 <? length images)%nat && (length (imagesWithoutAlt images) =? 0)%nat then
    [mkPass "image-alt" "Images have alternative text" "Images must have alternate text"]
  else [].

(** *** The other checks of the reduced engine (route.ts, lines 796-986) *)

Section Engine.
Context `{Host}.

(** Check 2: text inputs without labels (lines 796-824) *)

Definition typedInput (type : string) : Dom.Selector :=
  Dom.both (Dom.tag ["input"]) (Dom.typeIs type).

Definition inputSelector : Dom.Selector :=
  Dom.either (typedInput "text")
    (Dom.either (typedInput "email")
       (Dom.either (typedInput "password")
          (Dom.either (typedInput "tel")
             (Dom.either (typedInput "url") (Dom.tag ["textarea"]))))).

Definition inputStep (document : Document) (inputsWithoutLabels : list AccessibilityNode)
    (input : Node) (index : nat) : Outcome (list AccessibilityNode) :=
  let id := Dom.getAttribute input "id" in
  hasLabel ← (match id with
              | Some i => if Js.truthy i then Full.labelFor document i else Returns None
              | None => Returns None
              end);
  let hasAriaLabel := Dom.getAttribute input "aria-label" in
  let hasAriaLabelledby := Dom.getAttribute input "aria-labelledby" in
  if negb (Js.present hasLabel) && negb (Js.truthyOpt hasAriaLabel)
     && negb (Js.truthyOpt hasAriaLabelledby) then
    Returns (push inputsWithoutLabels
               (mkNode (Dom.outerHTML input) [nthChild "input" index]
                  "Form input does not have an accessible label"))
  else Returns inputsWithoutLabels.

Definition checkInputs (document : Document) (inputs : list Node)
  : Outcome (list AccessibilityNode) :=
  forEachM (inputStep document) inputs [].

Definition label :=
  mkViolation "label" "critical" "Form elements must have labels"
    "Form elements must have labels" "https://dequeuniversity.com/rules/axe/4.10/label"
    ["wcag2a"; "wcag412"; "wcag131"; "cat.forms"].

(** Check 3: page title (lines 826-842) *)

Definition documentTitle (title : option Node) :=
  mkViolation "document-title" "serious" "Documents must have a title to aid in navigation"
    "Documents must have <title> element to aid in navigation"
    "https://dequeuniversity.com/rules/axe/4.10/document-title"
    ["wcag2a"; "wcag242"; "cat.text-alternatives"]
    [mkNode (match title with Some t => Dom.outerHTML t | None => "<title></title>" end)
       ["title"] "Document does not have a title"].

(** Check 4: language of the root (lines 844-860) *)

Definition htmlHasLang (htmlElement : Node) :=
  mkViolation "html-has-lang" "serious" "The html element must have a lang attribute"
    "<html> element must have a lang attribute"
    "https://dequeuniversity.com/rules/axe/4.10/html-has-lang"
    ["wcag2a"; "wcag311"; "cat.language"]
    [mkNode (Js.splitHead (Dom.outerHTML htmlElement) ">" +:+ ">") ["html"]
       "The <html> element does not have a lang attribute"].

(** Check 5: links without accessible names (lines 862-890) *)

Definition linkStep (linksWithoutText : list AccessibilityNode) (link : Node) (index : nat)
  : list AccessibilityNode :=
  let text := Js.trim (Dom.textContent link) in
  let ariaLabel := Dom.getAttribute link "aria-label" in
  let ariaLabelledby := Dom.getAttribute link "aria-labelledby" in
  let title := Dom.getAttribute link "title" in
  if negb (Js.truthy text) && negb (Js.truthyOpt ariaLabel)
     && negb (Js.truthyOpt ariaLabelledby) && negb (Js.truthyOpt title) then
    push linksWithoutText
      (mkNode (Dom.outerHTML link) [nthChild "a" index] "Link does not have accessible text")
  else linksWithoutText.

Definition linksWithoutText (links : list Node) : list AccessibilityNode :=
  forEach linkStep links [].

Definition linkName :=
  mkViolation "link-name" "serious" "Links must have discernible text"
    "Links must have discernible text" "https://dequeuniversity.com/rules/axe/4.10/link-name"
    ["wcag2a"; "wcag244"; "wcag412"; "cat.name-role-value"].

(** Check 6: buttons without accessible names (lines 892-919) *)

Definition buttonStep (buttonsWithoutText : list AccessibilityNode) (button : Node) (index : nat)
  : list AccessibilityNode :=
  let text := Js.trim (Dom.textContent button) in
  let ariaLabel := Dom.getAttribute button "aria-label" in
  let ariaLabelledby := Dom.getAttribute button "aria-labelledby" in
  if negb (Js.truthy text) && negb (Js.truthyOpt ariaLabel)
     && negb (Js.truthyOpt ariaLabelledby) then
    push buttonsWithoutText
      (mkNode (Dom.outerHTML button) [nthChild "button" index]
         "Button does not have accessible text")
  else buttonsWithoutText.

Definition buttonsWithoutText (buttons : list Node) : list AccessibilityNode :=
  forEach buttonStep buttons [].

Definition buttonName :=
  mkViolation "button-name" "critical" "Buttons must have discernible text"
    "Buttons must have discernible text"
    "https://dequeuniversity.com/rules/axe/4.10/button-name"
    ["wcag2a"; "wcag412"; "cat.name-role-value"].

(** Check 7: headings in logical order (lines 921-954). The levels are
    collected first; a counted loop then compares [headingLevels[i]] with
    [headingLevels[i - 1]] and reads [headings[i]]. *)

Definition headingLevels (headings : list Node) : list (option Z) :=
  forEach (fun levels heading (_ : nat) => push levels (Full.headingLevel heading)) headings [].

(** [for (let i = start; i < start + count; i++) body] *)
Fixpoint forLoop {S} (body : S -> nat -> Outcome S) (i count : nat) (s : S) : Outcome S :=
  match count with
  | O => Returns s
  | Datatypes.S count' => s' ← body s i; forLoop body (Datatypes.S i) count' s'
  end.

(** What the runtime throws on [headings[i].outerHTML] when [headings[i]]
    is [undefined]. *)
Definition undefinedOuterHTML : JsError :=
  mkError "TypeError" "Cannot read properties of undefined (reading 'outerHTML')".

Definition skipStep (headings : list Node) (headingLevels : list (option Z))
    (skippedHeadings : list AccessibilityNode) (i : nat) : Outcome (list AccessibilityNode) :=
  let current := mjoin (headingLevels !! i) in
  let previous := mjoin (headingLevels !! (i - 1)%nat) in
  if Full.skipsFrom previous current then
    match headings !! i with
    | Some heading => Returns (push skippedHeadings (Full.skipNode heading previous current))
    | None => Throws undefinedOuterHTML
    end
  else Returns skippedHeadings.

Definition skippedHeadings (headings : list Node) : Outcome (list AccessibilityNode) :=
  let headingLevels := headingLevels headings in
  forLoop (skipStep headings headingLevels) 1 (length headingLevels - 1) [].

Definition headingOrder :=
  mkViolation "heading-order" "moderate" "Heading levels should only increase by one"
    "Heading levels should only increase by one"
    "https://dequeuniversity.com/rules/axe/4.10/heading-order"
    ["wcag2a"; "wcag131"; "cat.semantics"].

(** The element lists that the function queries besides the images. *)
Definition inputs (document : Document) := Dom.querySelectorAll document inputSelector.
Definition buttons (document : Document) := Dom.querySelectorAll document (Dom.tag ["button"]).

(** The entries pushed on [violations], in the order of the pushes. *)
Definition pushedViolations (document : Document) (inputsWithoutLabels : list AccessibilityNode)
    (htmlElement : Node) (skippedHeadings : list AccessibilityNode)
  : list AccessibilityViolation :=
  (imageViolations document
   ++ Full.whenAny inputsWithoutLabels label
   ++ (if negb (Full.hasTitle (Full.title document))
       then [documentTitle (Full.title document)] else [])
   ++ (if negb (Js.truthyOpt (Dom.getAttribute htmlElement "lang"))
       then [htmlHasLang htmlElement] else [])
   ++ Full.whenAny (linksWithoutText (Full.links document)) linkName
   ++ Full.whenAny (buttonsWithoutText (buttons document)) buttonName
   ++ Full.whenAny skippedHeadings headingOrder)%list.

(** The passes (lines 956-979). *)
Definition pushedPasses (document : Document) (htmlElement : Node) : list AccessibilityPass :=
  (imagePasses document
   ++ (if Full.hasTitle (Full.title document)
       then [mkPass "document-title" "Document has a title"
               "Documents must have <title> element to aid in navigation"]
       else [])
   ++ (if Js.truthyOpt (Dom.getAttribute htmlElement "lang")
       then [mkPass "html-has-lang" "The html element has a lang attribute"
               "<html> element must have a lang attribute"]
       else []))%list.

(** The reduced [runAccessibilityChecks]: Check 2 can throw on a selector,
    Check 4 on a document without a root. *)
Definition runAccessibilityChecks (document : Document) : Outcome AccessibilityResult :=
  inputsWithoutLabels ← checkInputs document (inputs document);
  htmlElement ← (match documentElement document with
                 | Some e => Returns e
                 | None => Throws nullGetAttribute
                 end);
  skippedHeadings ← skippedHeadings (Full.headings document);
  Returns (mkResult (pushedViolations document inputsWithoutLabels htmlElement skippedHeadings)
             (pushedPasses document htmlElement) []).

End Engine.

End Reduced.

(** ** The report built by [POST] (route.ts, lines 690-762) *)

Record Report := mkReport {
  url : string;
  crawlMethod : string;
  report_violations : list AccessibilityViolation;
  report_passes : list AccessibilityPass;
  report_incomplete : list AccessibilityViolation;
  timestamp : string
}.

Inductive Response :=
| Json (report : Report)
| ErrorJson (error : string) (status : nat).

(** *** What [POST] takes from its environment (route.ts, lines 605-690)

    - [requestUrl]: the value of [url] after
      [const { url } = await request.json()], for a body whose [url] is a
      string ([None] when the body has no [url]); it throws when the body
      cannot be read;
    - [validUrl url]: [new URL(url)] does not throw;
    - [FIRECRAWL_API_KEY]: [process.env.FIRECRAWL_API_KEY];
    - [scrapeUrl apiKey url]: [new FirecrawlApp({ apiKey }).scrapeUrl(url, ...)],
      with whatever the constructor or the call throws;
    - [fetch url]: [fetch(url, { headers })];
    - [jsdom html url]: the document of [new JSDOM(html, { url, ... })];
    - [now]: [new Date().toISOString()]. *)
Record ScrapeResult := mkScrapeResult { success : bool; scrapedHtml : option string }.

Record FetchResponse := mkFetchResponse {
  ok : bool;
  status : nat;
  text : Outcome string
}.

Record Environment := mkEnvironment {
  requestUrl : Outcome (option string);
  validUrl : string -> bool;
  FIRECRAWL_API_KEY : option string;
  scrapeUrl : string -> string -> Outcome ScrapeResult;
  fetch : string -> Outcome FetchResponse;
  jsdom : string -> string -> Outcome Document;
  now : string
}.

(** The calls that leave the process, in the order they are made. *)
Inductive Call :=
| ScrapeUrl (apiKey url : string)
| Fetch (url : string)
| ReadText
| Jsdom (html url : string).

(** Where a piece of the handler ends: it goes on with a value, it returns
    a response from [POST], or it throws. *)
Inductive Step (A : Type) :=
| Continue (a : A)
| Reply (response : Response)
| Raise (e : JsError).
Arguments Continue {A} a.
Arguments Reply {A} response.
Arguments Raise {A} e.

(** A piece of the handler: the calls it made and where it ended. *)
Record Action (A : Type) := mkAction { calls : list Call; step : Step A }.
Arguments mkAction {A} calls step.
Arguments calls {A} a.
Arguments step {A} a.

#[global] Instance Action_ret : MRet Action := fun A a => mkAction [] (Continue a).
#[global] Instance Action_bind : MBind Action :=
  fun A B f m =>
    match step m with
    | Continue a => mkAction (calls m ++ calls (f a))%list (step (f a))
    | Reply response => mkAction (calls m) (Reply response)
    | Raise e => mkAction (calls m) (Raise e)
    end.

(** A call that leaves the process and may throw. *)
Definition call {A} (c : Call) (result : Outcome A) : Action A :=
  mkAction [c] (match result with Returns a => Continue a | Throws e => Raise e end).

(** A computation inside the process that may throw. *)
Definition attempt {A} (result : Outcome A) : Action A :=
  mkAction [] (match result with Returns a => Continue a | Throws e => Raise e end).

(** [return NextResponse.json(...)] *)
Definition reply {A} (response : Response) : Action A := mkAction [] (Reply response).

(** [throw error] *)
Definition raise {A} (e : JsError) : Action A := mkAction [] (Raise e).

(** [try { body } catch (error) { handler }] *)
Definition tryCatch {A} (body : Action A) (handler : JsError -> Action A) : Action A :=
  match step body with
  | Raise e => mkAction (calls body ++ calls (handler e))%list (step (handler e))
  | _ => body
  end.

Module Post.
Section Post.
Context `{Host}.

Definition shapeNode (node : AccessibilityNode) : AccessibilityNode :=
  mkNode (html node) (target node)
    (default EmptyString (Js.orElse (Some (failureSummary node)) (Some EmptyString))).

(** One entry of [results.violations.map(...)]: the nodes are mapped, then
    [slice(0, 5)] keeps the first five. *)
Definition shapeViolation (violation : AccessibilityViolation) : AccessibilityViolation :=
  mkViolation (v_id violation) (v_impact violation) (v_description violation)
    (v_help violation) (v_helpUrl violation) (v_tags violation)
    (take 5 (map shapeNode (v_nodes violation))).

Definition shapePass (pass : AccessibilityPass) : AccessibilityPass :=
  mkPass (p_id pass) (p_description pass) (p_help pass).

Definition formatReport (url crawlMethod timestamp : string) (results : AccessibilityResult)
  : Report :=
  mkReport url crawlMethod
    (map shapeViolation (violations results))
    (map shapePass (passes results))
    (map shapeViolation (incomplete results))
    timestamp.

(** The [catch] block of [POST]. *)
Definition handleError (error : JsError) : Response :=
  if String.eqb (name error) "TypeError" && Js.includes (message error) "fetch" then
    ErrorJson
      "Unable to reach the specified URL. Please check if the URL is accessible and allows server requests."
      400
  else if Js.includes (message error) "timeout" then
    ErrorJson
      "The page took too long to load. Please try again or check if the URL is responsive."
      408
  else ErrorJson ("Error testing accessibility: " +:+ message error) 500.

(** [POST] from the call of [runAccessibilityChecks] on, for a document
    that was fetched and parsed; the method and the time stamp come from
    the environment. *)
Definition respond (url crawlMethod timestamp : string) (document : Document) : Response :=
  match Full.runAccessibilityChecks document with
  | Returns results => Json (formatReport url crawlMethod timestamp results)
  | Throws error => handleError error
  end.

(** The first [try] block of the fetching (lines 631-651): the page as
    Firecrawl renders it, when a key is configured. *)
Definition scrape (env : Environment) (url : string) : Action string :=
  match FIRECRAWL_API_KEY env with
  | Some (String _ _ as apiKey) =>
      scrapeResult ← call (ScrapeUrl apiKey url) (scrapeUrl env apiKey url);
      match scrapedHtml scrapeResult with
      | Some (String _ _ as html) =>
          if success scrapeResult then mret html
          else raise (mkError "Error" "Firecrawl failed to scrape the URL")
      | _ => raise (mkError "Error" "Firecrawl failed to scrape the URL")
      end
  | _ => raise (mkError "Error" "Firecrawl API key not configured")
  end.

(** The [catch] block of the fetching (lines 652-676): the page as the
    server sends it. *)
Definition fetchDirectly (env : Environment) (url : string) : Action string :=
  response ← call (Fetch url) (fetch env url);
  if negb (ok response) then
    reply (ErrorJson ("Unable to fetch the URL. Server responded with status: "
                      +:+ Js.showNat (status response)) 400)
  else call ReadText (text response).

(** [process.env.FIRECRAWL_API_KEY ? 'firecrawl' : 'direct-fetch'] *)
Definition crawlMethodOf (env : Environment) : string :=
  if Js.truthyOpt (FIRECRAWL_API_KEY env) then "firecrawl" else "direct-fetch".

(** The [try] block of [POST] (lines 606-732). *)
Definition handle (env : Environment) : Action Response :=
  url ← attempt (requestUrl env);
  match url with
  | Some (String _ _ as url) =>
      if negb (validUrl env url) then reply (ErrorJson "Invalid URL format" 400)
      else
        html ← tryCatch (scrape env url) (fun _ => fetchDirectly env url);
        document ← call (Jsdom html url) (jsdom env html url);
        results ← attempt (Full.runAccessibilityChecks document);
        mret (Json (formatReport url (crawlMethodOf env) (now env) results))
  | _ => reply (ErrorJson "URL is required" 400)
  end.

(** [POST]: the response, and the calls made on the way to it. *)
Definition POST (env : Environment) : Response * list Call :=
  let handled := handle env in
  (match step handled with
   | Continue response => response
   | Reply response => response
   | Raise error => handleError error
   end,
   calls handled).

End Post.
End Post.

(** ** The report as the page shows it (route.ts, lines 1307-1324 and 1440-1500) *)

Module View.

(** [report.violations.length] *)
Definition totalIssues (report : Report) : nat := length (report_violations report).

(** [report.violations.filter(v => v.impact === impact).length] *)
Definition issues (impact : string) (report : Report) : nat :=
  length (List.filter (fun v => String.eqb (v_impact v) impact) (report_violations report)).

Definition criticalIssues := issues "critical".
Definition seriousIssues := issues "serious".
Definition moderateIssues := issues "moderate".
Definition minorIssues := issues "minor".

Definition getWcagLevel (tags : list string) : string :=
  if Js.arrayIncludes tags "wcag2aaa" then "AAA"
  else if Js.arrayIncludes tags "wcag2aa" then "AA"
  else if Js.arrayIncludes tags "wcag2a" then "A"
  else "N/A".

(** [/wcag\d+/] tried at the start of [s] *)
Definition wcagPatternHere (s : string) : option (string * string) :=
  s ← Js.literal "wcag" s;
  Js.span1 Js.isDigit s.

(** [tag.match(/wcag\d+/)] as a condition *)
Definition matchesWcag (tag : string) : bool :=
  Js.present (Js.leftmost wcagPatternHere tag).

(** [s.replace(pattern, replacement)] for a pattern given as a string and
    a replacement without [$]: the first occurrence is replaced. *)
Fixpoint replaceString (pattern replacement s : string) : string :=
  match Js.literal pattern s with
  | Some rest => replacement +:+ rest
  | None =>
      match s with
      | EmptyString => EmptyString
      | String c t => String c (replaceString pattern replacement t)
      end
  end.

(** [s.replace(/(\d)(\d)(\d)/, '$1.$2.$3')]: the first three digits in
    a row get dots between them. *)
Fixpoint dotDigits (s : string) : string :=
  match s with
  | EmptyString => EmptyString
  | String a t =>
      match t with
      | String b (String c t') =>
          if Js.isDigit a && Js.isDigit b && Js.isDigit c then
            String a (String "." (String b (String "." (String c t'))))
          else String a (dotDigits t)
      | _ => String a (dotDigits t)
      end
  end.

Definition getWcagCriteria (tags : list string) : string :=
  let criteria := List.filter matchesWcag tags in
  String.concat ", " (map (fun c => dotDigits (replaceString "wcag" "WCAG " c)) criteria).

(** [getWcagCriteria(violation.tags) || 'Not specified'] *)
Definition criteriaLine (violation : AccessibilityViolation) : string :=
  let criteria := getWcagCriteria (v_tags violation) in
  if Js.truthy criteria then criteria else "Not specified".

(** [violation.nodes.slice(0, 3)] *)
Definition shownNodes (violation : AccessibilityViolation) : list AccessibilityNode :=
  take 3 (v_nodes violation).

(** The number in [... and N more elements], when the line is shown. *)
Definition moreElements (violation : AccessibilityViolation) : option nat :=
  if (3 <? length (v_nodes violation))%nat
  then Some (length (v_nodes violation) - 3)%nat else None.

(** [report.passes.slice(0, 10)] *)
Definition shownPasses (report : Report) : list AccessibilityPass :=
  take 10 (report_passes report).

(** The number in [... and N more passed tests], when the line is shown. *)
Definition morePasses (report : Report) : option nat :=
  if (10 <? length (report_passes report))%nat
  then Some (length (report_passes report) - 10)%nat else None.

End View.

(** ** Reading a result *)

Definition hasId (id : string) (v : AccessibilityViolation) : bool := String.eqb (v_id v) id.

Definition passHasId (id : string) (p : AccessibilityPass) : bool := String.eqb (p_id p) id.

(** The entries of [violations] with a given rule id. *)
Definition violationsWithId (id : string) (vs : list AccessibilityViolation) :=
  List.filter (hasId id) vs.

Definition passesWithId (id : string) (ps : list AccessibilityPass) :=
  List.filter (passHasId id) ps.

Definition nonEmpty {A} (l : list A) : bool :=
  match l with [] => false | _ => true end.

Definition hasViolation (id : string) (r : AccessibilityResult) : bool :=
  nonEmpty (violationsWithId id (violations r)).

Definition hasPass (id : string) (r : AccessibilityResult) : bool :=
  nonEmpty (passesWithId id (passes r)).

(** The findings a loop pushes when each element contributes [g x index],
    in the order of the elements. *)
Fixpoint collectFrom {A B} (g : A -> nat -> list B) (l : list A) (index : nat) : list B :=
  match l with
  | [] => []
  | x :: l' => (g x index ++ collectFrom g l' (S index))%list
  end.

Definition collect {A B} (g : A -> nat -> list B) (l : list A) : list B := collectFrom g l 0.

(** A host without arithmetic (one number, no comparison holds), which
    rejects every selector text: it serves to run the engine on documents
    that need neither. *)
Definition plainHost : Host :=
  {| number := unit;
     fromInteger := fun _ => tt;
     decimal := fun _ _ => tt;
     NaN := tt;
     plus := fun _ _ => tt;
     times := fun _ _ => tt;
     divide := fun _ _ => tt;
     lessEq := fun _ _ => false;
     lessThan := fun _ _ => false;
     Math_pow := fun _ _ => tt;
     Math_max := fun _ _ => tt;
     Math_min := fun _ _ => tt;
     toFixed := fun _ _ => "NaN";
     querySelectorText := fun _ selector =>
       Throws (mkError "SyntaxError" ("'" +:+ selector +:+ "' is not a valid selector")) |}.

(** What each [img] contributes to [imagesWithoutAlt]: a finding when its
    [alt] attribute is absent, nothing otherwise. *)
Definition altFinding (img : Node) (index : nat) : list AccessibilityNode :=
  match Dom.getAttribute img "alt" with
  | None =>
      [mkNode (Dom.outerHTML img) [nthChild "img" index] "Image does not have an alt attribute"]
  | Some _ => []
  end.

(** What one entry of [passChecks] contributes to [passes]. *)
Definition emitOne (check : Full.PassCheck) : list AccessibilityPass :=
  if Full.condition check
  then [mkPass (Full.pc_id check) (Full.desc check) (Full.desc check)]
  else [].

(** ** Sample documents *)

Definition samplePage (lang : list (string * string)) (head body : list Node) : Document :=
  {| documentElement :=
       Some (Element "html" lang [Element "head" [] head; Element "body" [] body]) |}.

Definition sampleHead : list Node :=
  [Element "title" [] [Text "Sample"]; Element "meta" [("name", "viewport")] []].

(** [<img src="x">] and nothing else that a rule objects to *)
Definition imageWithoutAlt : Document :=
  samplePage [("lang", "en")] sampleHead
    [Element "h1" [] [Text "Sample"]; Element "img" [("src", "x")] []].

(** An image whose [alt] is the empty string, and nothing else that a rule
    objects to *)
Definition imageWithEmptyAlt : Document :=
  samplePage [("lang", "en")] sampleHead
    [Element "h1" [] [Text "Sample"]; Element "img" [("src", "x"); ("alt", EmptyString)] []].

(** What the headings contribute to [skippedHeadings] when each heading is
    compared with the one just before it: a finding for [heading] exactly
    when its level exceeds the level of [previous] by more than one. *)
Fixpoint skipsAfter (previous : Node) (rest : list Node) : list AccessibilityNode :=
  match rest with
  | [] => []
  | heading :: rest' =>
      ((if Full.skipsFrom (Full.headingLevel previous) (Full.headingLevel heading)
        then [Full.skipNode heading (Full.headingLevel previous) (Full.headingLevel heading)]
        else [])
       ++ skipsAfter heading rest')%list
  end.

Definition consecutiveSkips (headings : list Node) : list AccessibilityNode :=
  match headings with
  | [] => []
  | first :: rest => skipsAfter first rest
  end.

(** The level of a heading as its name gives it: the digit after the [h]. *)
Definition namedLevel (heading : Node) : Z :=
  match Dom.localName heading with
  | String _ (String digit _) => Z.of_N (N_of_ascii digit) - 48
  | _ => 0
  end.

(** The findings of the rule in the words of the specification: going
    through the headings in document order, one finding for each heading
    whose level exceeds by more than one the level of the heading just
    before it; the finding holds the markup and the name of that heading and
    names the two levels. *)
Fixpoint levelSkipsAfter (previous : Node) (rest : list Node) : list AccessibilityNode :=
  match rest with
  | [] => []
  | heading :: rest' =>
      ((if (namedLevel previous + 1 <? namedLevel heading)%Z
        then [mkNode (Dom.outerHTML heading) [Dom.localName heading]
                ("Heading level skips from " +:+ Dom.localName previous
                 +:+ " to " +:+ Dom.localName heading)]
        else [])
       ++ levelSkipsAfter heading rest')%list
  end.

Definition levelSkips (headings : list Node) : list AccessibilityNode :=
  match headings with
  | [] => []
  | first :: rest => levelSkipsAfter first rest
  end.

Definition headingsPage (names : list string) : Document :=
  samplePage [("lang", "en")] sampleHead (map (fun name => Element name [] [Text name]) names).

(** The accessible text of a link (text content, else [aria-label], else
    [title]), when it has one. *)
Definition linkText (link : Node) : option string :=
  match Js.orElse
          (Js.orElse (Some (Js.trim (Dom.textContent link))) (Dom.getAttribute link "aria-label"))
          (Dom.getAttribute link "title") with
  | Some (String c t) => Some (String c t)
  | _ => None
  end.

(** The [href] of the first of the links [processed] whose accessible text
    is [text]. *)
Definition firstHref (text : string) (processed : list Node) : option (option string) :=
  (fun link => Dom.getAttribute link "href")
    <$> head (List.filter (fun link => bool_decide (linkText link = Some text)) processed).

(** What the links [rest] contribute to [linksWithSameText] after the links
    [processed]: a finding for a link exactly when an earlier link has the
    same accessible text and the first such link has another [href]. *)
Fixpoint sameTextAfter (processed rest : list Node) : list AccessibilityNode :=
  match rest with
  | [] => []
  | link :: rest' =>
      (match linkText link with
       | Some text =>
           match firstHref text processed with
           | Some first =>
               if bool_decide (first = Dom.getAttribute link "href") then []
               else [Full.sameTextNode link (length processed) text]
           | None => []
           end
       | None => []
       end
       ++ sameTextAfter (processed ++ [link]) rest')%list
  end.

Definition clickHere (href text : string) : Node :=
  Element "a" [("href", href)] [Text text].

(** Two links that read "Click here" and lead to different places *)
Definition twoLinks : Document :=
  samplePage [("lang", "en")] sampleHead
    [Element "h1" [] [Text "Sample"]; clickHere "/a" "Click here"; clickHere "/b" "Click here"].

(** A paragraph whose inline colour has a channel above 255 *)
Definition outOfRangeText : Node :=
  Element "p" [("style", "color: rgb(999, 0, 0); background-color: white")] [Text "x"].

Definition outOfRangePage : Document :=
  samplePage [("lang", "en")] sampleHead [Element "h1" [] [Text "Sample"]; outOfRangeText].

(** Twelve images without [alt] *)
Definition twelveImages : Document :=
  samplePage [("lang", "en")] sampleHead
    (Element "h1" [] [Text "Sample"] :: repeat (Element "img" [("src", "x")] []) 12).

(** A document without a root element *)
Definition nullDocument : Document := {| documentElement := None |}.

(** An error that reports an invalid document says so: its name or its
    message mentions the document. *)
Definition mentionsDocument (e : JsError) : bool :=
  Js.includes (Js.toLowerCase (name e +:+ ": " +:+ message e)) "document".

(** The colour that the inline style of [element] declares for [property],
    when there is one and [parseColor] reads it. *)
Definition declaredColor (property : string) (element : Node) : option ColorValue :=
  Full.declaration property (Full.inlineStyle element)
    ≫= (fun value => Color.parseColor (Js.trim value)).

(** The [id] of a form element can be written between the quotes of
    [label[for="..."]]. *)
Definition safeId (element : Node) : bool :=
  match Dom.getAttribute element "id" with
  | Some id => Full.selectorSafe id
  | None => true
  end.

(** An input with an accessible label and nothing that a rule objects to *)
Definition labelledInput : Document :=
  samplePage [("lang", "en")] sampleHead
    [Element "h1" [] [Text "Sample"];
     Element "input" [("type", "text"); ("aria-label", "Name")] []].

(** ** Decimal texts *)

Fixpoint allDigits (s : string) : bool :=
  match s with
  | EmptyString => true
  | String c t => Js.isDigit c && allDigits t
  end.

Definition startsWithDigit (s : string) : bool :=
  match s with String c _ => Js.isDigit c | EmptyString => false end.

(** The text [rgb(n1, n2, n3)] followed by [rest]. *)
Definition rgbTextThen (n1 n2 n3 : nat) (rest : string) : string :=
  "rgb(" +:+ Js.showNat n1 +:+ ", " +:+ Js.showNat n2 +:+ ", " +:+ Js.showNat n3
  +:+ ")" +:+ rest.

Definition rgbText (n1 n2 n3 : nat) : string := rgbTextThen n1 n2 n3 EmptyString.

(** What [hexToRgb] reads once an optional [#] is removed: six
    hexadecimal digits. *)
Definition sixHexDigits (body : string) : option RGB :=
  match body with
  | String a (String b (String c (String d (String e (String f EmptyString))))) =>
      if forallb Js.isHexDigit [a; b; c; d; e; f] then
        r ← Js.parseInt (Color.hexPair a b) (Some 16%Z);
        g ← Js.parseInt (Color.hexPair c d) (Some 16%Z);
        b ← Js.parseInt (Color.hexPair e f) (Some 16%Z);
        Some (mkRGB r g b)
      else None
  | _ => None
  end.

(** The digit of a value below 16. *)
Definition hexDigits : string := "0123456789abcdef".

Definition hexDigit (n : nat) : ascii := default "0"%char (String.get n hexDigits).

(** The two lower-case hexadecimal digits of a byte. *)
Definition hexByte (z : Z) : string :=
  let n := Z.to_nat z in
  Color.hexPair (hexDigit (n / 16)) (hexDigit (n mod 16)).

(** The text [#rrggbb] of three bytes. *)
Definition hexText (r g b : Z) : string := "#" +:+ hexByte r +:+ hexByte g +:+ hexByte b.

(** A channel between 0 and 255. *)
Definition inByte (z : Z) : bool := (0 <=? z)%Z && (z <=? 255)%Z.

Definition inBytes (c : RGB) : bool := inByte (r c) && inByte (g c) && inByte (b c).

(** The code units below 256. *)
Definition allChars : list ascii := map ascii_of_nat (seq 0 256).

(** The hexadecimal digits of either case. *)
Definition hexChars : list ascii := List.filter Js.isHexDigit allChars.

(** [s] without its first [n] characters. *)
Fixpoint dropChars (n : nat) (s : string) : string :=
  match n, s with
  | O, _ => s
  | S n', String _ t => dropChars n' t
  | S _, EmptyString => EmptyString
  end.

(** The group of [/property:\s*([^;]+)/] once [property:] has been read. *)
Definition valueAfter (s : string) : option string :=
  let '(ws, rest) := Js.span Js.isWhiteSpace s in
  match Js.span1 (fun c => negb (Ascii.eqb c ";")) rest with
  | Some (value, _) => Some value
  | None => (fun c => String c EmptyString) <$> Full.lastChar ws
  end.

(** The ids of the rules, in the order in which the engine pushes their
    entries. *)
Definition ruleIds : list string :=
  [ "image-alt"; "label"; "placeholder-as-label"; "button-name"; "button-text-quality";
    "link-name"; "link-text-quality"; "color-contrast"; "document-title";
    "page-has-heading-one"; "multiple-h1"; "html-has-lang"; "meta-viewport";
    "heading-order"; "empty-heading"; "table-headers" ].

(** The ids of the passes, in the order of [passChecks]. *)
Definition passIds : list string :=
  [ "image-alt"; "document-title"; "html-has-lang"; "page-has-heading-one"; "meta-viewport";
    "form-labels"; "button-names"; "link-names"; "heading-structure" ].

(** The selector that the [multiple-h1] entry gives for the [h1] at
    position [i] (counted from 1) among the [h1] elements. *)
Definition h1Target (i : nat) : list string := ["h1:nth-child(" +:+ Js.showNat i +:+ ")"].

(** Where a finding points: the markup and the selector of its element. *)
Definition place (n : AccessibilityNode) : string * list string := (html n, target n).

(** The nodes of the entries with a given id. *)
Definition nodesWithId (id : string) (r : AccessibilityResult) : list AccessibilityNode :=
  List.flat_map v_nodes (violationsWithId id (violations r)).

(** The document has a [label] element whose [for] is the non-empty [id]
    of [element]. *)
Definition hasLabelFor (document : Document) (element : Node) : bool :=
  match Dom.getAttribute element "id" with
  | Some id =>
      Js.truthy id
      && Js.present (Dom.querySelector document
                       (Dom.both (Dom.tag ["label"]) (Dom.attrIs "for" id)))
  | None => false
  end.

(** A form element is labelled by a [label[for]], by a non-empty
    [aria-label] or by a non-empty [aria-labelledby]. *)
Definition labelled (document : Document) (element : Node) : bool :=
  hasLabelFor document element
  || Js.truthyOpt (Dom.getAttribute element "aria-label")
  || Js.truthyOpt (Dom.getAttribute element "aria-labelledby").

(** The selector that Check 2 gives for a form element. *)
Definition formTarget (element : Node) (index : nat) : list string :=
  [nthChild (Js.toLowerCase (Dom.tagName element)) index].

(** What a form element contributes to [elementsWithoutLabels]. *)
Definition labelFinding (document : Document) (element : Node) (index : nat)
  : list AccessibilityNode :=
  if Full.needsNoLabel element || labelled document element then []
  else [mkNode (Dom.outerHTML element) (formTarget element index)
          (Js.toLowerCase (Dom.tagName element) +:+ " element does not have an accessible label")].

(** What a form element contributes to [elementsWithPoorLabels]. *)
Definition placeholderFinding (document : Document) (element : Node) (index : nat)
  : list AccessibilityNode :=
  if Full.needsNoLabel element || labelled document element
     || negb (Js.truthyOpt (Dom.getAttribute element "placeholder")) then []
  else [mkNode (Dom.outerHTML element) (formTarget element index)
          "Form element relies only on placeholder text for labeling"].

(** An input without a label that shows a placeholder *)
Definition placeholderOnly : Document :=
  samplePage [("lang", "en")] sampleHead
    [Element "h1" [] [Text "Sample"];
     Element "input" [("type", "text"); ("placeholder", "Name")] []].

(** The accessible text of a button (text content, else [value], else
    [aria-label], else [title]), when it has one. *)
Definition buttonText (button : Node) : option string :=
  match Js.orElse
          (Js.orElse
             (Js.orElse (Some (Js.trim (Dom.textContent button)))
                (Js.trim <$> Dom.getAttribute button "value"))
             (Dom.getAttribute button "aria-label"))
          (Dom.getAttribute button "title") with
  | Some (String c t) => Some (String c t)
  | _ => None
  end.

(** What a button contributes to [buttonsWithoutText]. *)
Definition namelessButton (button : Node) (index : nat) : list AccessibilityNode :=
  match buttonText button with
  | Some _ => []
  | None =>
      [mkNode (Dom.outerHTML button) [nthChild "button" index]
         "Button does not have accessible text"]
  end.

(** What a button contributes to [buttonsWithPoorText]. *)
Definition vagueButton (button : Node) (index : nat) : list AccessibilityNode :=
  match buttonText button with
  | Some text =>
      if Js.arrayIncludes Full.poorButtonPhrases (Js.toLowerCase text) then
        [mkNode (Dom.outerHTML button) [nthChild "button" index]
           ("Button text " +:+ Dom.quote +:+ text +:+ Dom.quote +:+ " is not descriptive")]
      else []
  | None => []
  end.

(** What a link contributes to [linksWithoutText]. *)
Definition namelessLink (link : Node) (index : nat) : list AccessibilityNode :=
  match linkText link with
  | Some _ => []
  | None =>
      [mkNode (Dom.outerHTML link) [nthChild "a" index] "Link does not have accessible text"]
  end.

(** What a link contributes to [linksWithPoorText]. *)
Definition vagueLink (link : Node) (index : nat) : list AccessibilityNode :=
  match linkText link with
  | Some text =>
      if Js.arrayIncludes Full.poorLinkPhrases (Js.toLowerCase text) then
        [mkNode (Dom.outerHTML link) [nthChild "a" index]
           ("Link text " +:+ Dom.quote +:+ text +:+ Dom.quote +:+ " is not descriptive")]
      else []
  | None => []
  end.

(** A submit input without a value and a button that reads "Click" *)
Definition twoButtons : Document :=
  samplePage [("lang", "en")] sampleHead
    [Element "h1" [] [Text "Sample"];
     Element "input" [("type", "submit")] [];
     Element "button" [] [Text " Click "]].

(** What a heading contributes to [emptyHeadings]. *)
Definition emptyFinding (heading : Node) (index : nat) : list AccessibilityNode :=
  if Js.truthy (Js.trim (Dom.textContent heading)) then []
  else [mkNode (Dom.outerHTML heading) [Js.toLowerCase (Dom.tagName heading)] "Heading is empty"].

(** What a table contributes to [tablesWithoutHeaders]. *)
Definition headerFinding (table : Node) (index : nat) : list AccessibilityNode :=
  if existsb (Dom.tag ["th"]) (Dom.descendants table) then []
  else [mkNode (Js.substring0 (Dom.outerHTML table) 200 +:+ "...") [nthChild "table" index]
          "Data table does not have header cells"].

(** A table without header cells *)
Definition plainTable : Document :=
  samplePage [("lang", "en")] sampleHead
    [Element "h1" [] [Text "Sample"];
     Element "table" [] [Element "tr" [] [Element "td" [] [Text "1"]]]].

(** [c] occurs in [s]. *)
Fixpoint occurs (c : ascii) (s : string) : bool :=
  match s with
  | EmptyString => false
  | String x t => Ascii.eqb x c || occurs c t
  end.

(** The start tag of an element as [outerHTML] writes it. *)
Definition startTag (n : Node) : string :=
  match n with
  | Element name attrs _ =>
      "<" +:+ name +:+ String.concat EmptyString (map Dom.serializeAttribute attrs) +:+ ">"
  | _ => EmptyString
  end.

(** No name or value of the element holds the character [>]. *)
Definition plainStartTag (n : Node) : bool :=
  match n with
  | Element name attrs _ =>
      negb (occurs ">" name)
      && forallb (fun a => negb (occurs ">" (fst a)) && negb (occurs ">" (snd a))) attrs
  | _ => false
  end.

(** A page whose root has no [lang] *)
Definition withoutLang : Document :=
  samplePage [("class", "no-js")] sampleHead [Element "h1" [] [Text "Sample"]].

(** A heading that holds an image and no text *)
Definition imageHeading : Document :=
  samplePage [("lang", "en")] sampleHead
    [Element "h1" [] [Element "img" [("src", "logo"); ("alt", "Sample")] []]].

(** The ids of the rules of the reduced engine, in the order of its pushes. *)
Definition reducedRuleIds : list string :=
  [ "image-alt"; "label"; "document-title"; "html-has-lang"; "link-name"; "button-name";
    "heading-order" ].

(** What a link contributes to [linksWithoutText] in the reduced engine. *)
Definition reducedNamelessLink (link : Node) (index : nat) : list AccessibilityNode :=
  if Js.present (linkText link) || Js.truthyOpt (Dom.getAttribute link "aria-labelledby")
  then []
  else [mkNode (Dom.outerHTML link) [nthChild "a" index] "Link does not have accessible text"].

(** A link whose only name is an [aria-labelledby] reference *)
Definition labelledbyLink : Document :=
  samplePage [("lang", "en")] sampleHead
    [Element "h1" [] [Text "Sample"];
     Element "a" [("href", "/a"); ("aria-labelledby", "x")] []].

(** The same environment with no Firecrawl key configured. *)
Definition withoutKey (env : Environment) : Environment :=
  mkEnvironment (requestUrl env) (validUrl env) None (scrapeUrl env) (fetch env) (jsdom env)
    (now env).

(** The response with another [crawlMethod] in its report. *)
Definition relabel (method : string) (response : Response) : Response :=
  match response with
  | Json report =>
      Json (mkReport (url report) method (report_violations report) (report_passes report)
              (report_incomplete report) (timestamp report))
  | ErrorJson error status => ErrorJson error status
  end.

(** Firecrawl does not deliver the page: the call throws, reports a
    failure, or returns no markup. *)
Definition scrapeFails (env : Environment) (apiKey url : string) : bool :=
  match scrapeUrl env apiKey url with
  | Returns result => negb (success result && Js.truthyOpt (scrapedHtml result))
  | Throws _ => true
  end.

(** An environment in which a key is configured, Firecrawl times out and
    the server answers the direct request with the sample page. *)
Definition fallbackEnvironment : Environment :=
  mkEnvironment (Returns (Some "https://example.com")) (fun _ => true) (Some "key")
    (fun _ _ => Throws (mkError "Error" "Request timeout"))
    (fun _ => Returns (mkFetchResponse true 200 (Returns "<html>")))
    (fun _ _ => Returns imageWithEmptyAlt)
    "2024-01-01T00:00:00.000Z".

(** An environment whose request holds no [url]. *)
Definition emptyRequest : Environment :=
  mkEnvironment (Returns None) (fun _ => true) (Some "key")
    (fun _ _ => Throws (mkError "Error" "unreachable"))
    (fun _ => Throws (mkError "TypeError" "fetch failed"))
    (fun _ _ => Returns nullDocument)
    "2024-01-01T00:00:00.000Z".

(** An environment in which the server cannot be reached. *)
Definition unreachableServer : Environment :=
  mkEnvironment (Returns (Some "https://example.com")) (fun _ => true) None
    (fun _ _ => Throws (mkError "Error" "unreachable"))
    (fun _ => Throws (mkError "TypeError" "fetch failed"))
    (fun _ _ => Returns nullDocument)
    "2024-01-01T00:00:00.000Z".

(** What the entries of a rule have in common: its id, its impact and
    its tags. *)
Definition kind (v : AccessibilityViolation) : string * string * list string :=
  (v_id v, v_impact v, v_tags v).

(** The rules of the fuller engine. *)
Definition ruleTable : list (string * string * list string) :=
  [ ("image-alt", "critical", ["wcag2a"; "wcag111"; "cat.text-alternatives"]);
    ("label", "critical", ["wcag2a"; "wcag412"; "wcag131"; "cat.forms"]);
    ("placeholder-as-label", "serious", ["wcag2a"; "wcag131"; "cat.forms"]);
    ("button-name", "critical", ["wcag2a"; "wcag412"; "cat.name-role-value"]);
    ("button-text-quality", "moderate", ["wcag2a"; "wcag244"; "cat.name-role-value"]);
    ("link-name", "serious", ["wcag2a"; "wcag244"; "wcag412"; "cat.name-role-value"]);
    ("link-text-quality", "moderate", ["wcag2a"; "wcag244"; "cat.name-role-value"]);
    ("color-contrast", "serious", ["wcag2aa"; "wcag143"; "cat.color"]);
    ("document-title", "serious", ["wcag2a"; "wcag242"; "cat.text-alternatives"]);
    ("page-has-heading-one", "moderate", ["wcag2a"; "wcag131"; "cat.semantics"]);
    ("multiple-h1", "moderate", ["wcag2a"; "wcag131"; "cat.semantics"]);
    ("html-has-lang", "serious", ["wcag2a"; "wcag311"; "cat.language"]);
    ("meta-viewport", "moderate", ["wcag2a"; "cat.mobile"]);
    ("heading-order", "moderate", ["wcag2a"; "wcag131"; "cat.semantics"]);
    ("empty-heading", "serious", ["wcag2a"; "wcag131"; "cat.semantics"]);
    ("table-headers", "serious", ["wcag2a"; "wcag131"; "cat.tables"]) ].

(** The entry carries the id, the impact and the tags of a rule. *)
Definition inTable (v : AccessibilityViolation) : bool :=
  existsb (fun row => bool_decide (row = kind v)) ruleTable.

(** The tag of a success criterion with three digits. *)
Definition criterionTag (a b c : ascii) : string :=
  String "w" (String "c" (String "a" (String "g" (String a (String b (String c EmptyString)))))).

(** The ten digits. *)
Definition digitChars : list ascii := List.filter Js.isDigit allChars.

(** ** The doubles

    IEEE-754 binary64 as the Standard Library specifies it ([SpecFloat]:
    53 bits of precision, round to nearest with ties to even), with the
    operations of JavaScript that [getLuminance] and [getContrastRatio] use.
    [Math.pow], whose result the language leaves to the implementation,
    [toFixed] and the selector parser stay parameters of the host. *)

Module Binary64.
Local Open Scope Z_scope.

Definition prec : Z := 53.
Definition emax : Z := 1024.

(** [1.0] *)
Definition one : spec_float := S754_finite false 4503599627370496 (-52).

(** The double of an integer: the nearest one, [Infinity] past the range *)
Definition ofInteger (z : Z) : spec_float := binary_normalize prec emax z 0 false.

(** The double of a decimal literal of value [m / 10^k]: the nearest one,
    which the correctly rounded quotient of the two integers is *)
Definition ofDecimal (m : Z) (k : nat) : spec_float :=
  SFdiv prec emax (ofInteger m) (ofInteger (10 ^ Z.of_nat k)).

Definition isNaN (x : spec_float) : bool :=
  match x with S754_nan => true | _ => false end.

(** [Math.max(x, y)]: NaN if one of them is, and [+0] is larger than [-0] *)
Definition max (x y : spec_float) : spec_float :=
  if isNaN x || isNaN y then S754_nan
  else if SFltb x y then y
  else if SFltb y x then x
  else match x with S754_zero true => y | _ => x end.

(** [Math.min(x, y)] *)
Definition min (x y : spec_float) : spec_float :=
  if isNaN x || isNaN y then S754_nan
  else if SFltb x y then x
  else if SFltb y x then y
  else match x with S754_zero true => x | _ => y end.

Section Host.
Variable pow : spec_float -> spec_float -> spec_float.
Variable fixed : spec_float -> nat -> string.
Variable selectorText : Document -> string -> Outcome (option Node).

Definition host : Host :=
  {| number := spec_float;
     fromInteger := ofInteger;
     decimal := ofDecimal;
     NaN := S754_nan;
     plus := SFadd prec emax;
     times := SFmul prec emax;
     divide := SFdiv prec emax;
     lessEq := SFleb;
     lessThan := SFltb;
     Math_pow := pow;
     Math_max := max;
     Math_min := min;
     toFixed := fixed;
     querySelectorText := selectorText |}.

End Host.

(** [x * x], which stands for [Math.pow(x, 2.4)] where a power is needed to
    run the code: it maps (0, 1] into [0, 1] as the power does. *)
Definition square (x _ : spec_float) : spec_float := SFmul prec emax x x.

End Binary64.

Section Rounding.
Local Open Scope Z_scope.

(** Round to nearest, ties to even, of [M / 2^n] *)
Definition rne (M n : Z) : Z :=
  let q := M / 2 ^ n in
  match 2 * (M mod 2 ^ n) ?= 2 ^ n with
  | Lt => q
  | Eq => if Z.even q then q else q + 1
  | Gt => q + 1
  end.

(** Where [M / 2^n] lies between two integers *)
Definition loc_of (M n : Z) : location :=
  if M mod 2 ^ n =? 0 then loc_Exact else loc_Inexact (2 * (M mod 2 ^ n) ?= 2 ^ n).

(** The second half of [binary_round_aux]: a rounded mantissa at the
    exponent of its grid, brought back to 53 digits if it carried. *)
Definition pack (m f : Z) : spec_float :=
  let '(mrs, e) := shr_fexp Binary64.prec Binary64.emax m f loc_Exact in
  match shr_m mrs with
  | Z0 => S754_zero false
  | Zpos m' =>
      if e <=? Binary64.emax - Binary64.prec then S754_finite false m' e
      else S754_infinity false
  | Zneg _ => S754_nan
  end.

(** A non-negative number of the format, or [+Infinity] past its range *)
Definition fin (m e : Z) : spec_float :=
  if e <=? 971 then S754_finite false (Z.to_pos m) e else S754_infinity false.

(** The exponent of the grid on which a value [M * 2^e] is rounded *)
Definition grid (M e : Z) : Z := fexp Binary64.prec Binary64.emax (Zdigits2 M + e).

(** The value [M * 2^e] in units of [2^f], rounded *)
Definition scaled (M e f : Z) : Z := rne (M * 2 ^ (e - Z.min e f)) (f - Z.min e f).

(** [M1 * 2^e1 <= M2 * 2^e2] *)
Definition le_val (M1 e1 M2 e2 : Z) : Prop :=
  M1 * 2 ^ (e1 - Z.min e1 e2) <= M2 * 2 ^ (e2 - Z.min e1 e2).

(** Zero, or a positive number of the format whose exponent is at most
    [bound] (a number below [2^(bound + 53)]) *)
Definition regular (bound : Z) (x : spec_float) : bool :=
  match x with
  | S754_zero _ => true
  | S754_finite false m e => bounded Binary64.prec Binary64.emax m e && (e <=? bound)
  | _ => false
  end.

(** An RGB colour: channels of 0 to 255 *)
Definition inGamut (c : RGB) : Prop :=
  0 <= r c <= 255 /\ 0 <= g c <= 255 /\ 0 <= b c <= 255.

(** Zero to one: a number of the format that is neither negative nor
    above one *)
Definition unitInterval (x : spec_float) : bool :=
  valid_binary Binary64.prec Binary64.emax x
  && SFleb (S754_zero false) x && SFleb x Binary64.one.

(** What is assumed of [Math.pow]: raised to the power 2.4, a number of
    (0, 1] gives a number of [0, 1]. *)
Definition powOnUnit (pow : spec_float -> spec_float -> spec_float) : Prop :=
  forall x,
    SFltb (S754_zero false) x = true -> unitInterval x = true ->
    unitInterval (pow x (Binary64.ofDecimal 24 1)) = true.

(** The linear value of a channel, as [getLuminance] computes it *)
Definition linearValue (pow : spec_float -> spec_float -> spec_float) (c : Z) : spec_float :=
  let s := SFdiv Binary64.prec Binary64.emax (Binary64.ofInteger c) (Binary64.ofInteger 255) in
  if SFleb s (Binary64.ofDecimal 3928 5)
  then SFdiv Binary64.prec Binary64.emax s (Binary64.ofDecimal 1292 2)
  else pow (SFdiv Binary64.prec Binary64.emax
              (SFadd Binary64.prec Binary64.emax s (Binary64.ofDecimal 55 3))
              (Binary64.ofDecimal 1055 3))
         (Binary64.ofDecimal 24 1).

(** The base that [getLuminance] raises to the power 2.4 for a channel *)
Definition powBase (c : Z) : spec_float :=
  SFdiv Binary64.prec Binary64.emax
    (SFadd Binary64.prec Binary64.emax
       (SFdiv Binary64.prec Binary64.emax (Binary64.ofInteger c) (Binary64.ofInteger 255))
       (Binary64.ofDecimal 55 3))
    (Binary64.ofDecimal 1055 3).

Definition channelValues : list Z := map Z.of_nat (seq 0 256).

(** What a channel of 0 to 255 gives: a linear value in [0, 1] below the
    threshold, and a base in (0, 1] above it *)
Definition channelCheck (c : Z) : bool :=
  let s := SFdiv Binary64.prec Binary64.emax (Binary64.ofInteger c) (Binary64.ofInteger 255) in
  if SFleb s (Binary64.ofDecimal 3928 5)
  then unitInterval (SFdiv Binary64.prec Binary64.emax s (Binary64.ofDecimal 1292 2))
  else SFltb (S754_zero false) (powBase c) && unitInterval (powBase c).

End Rounding.

(** * Properties *)

Local Open Scope list_scope.

(** ** The helpers on small inputs *)

Example parseInt_examples :
  Js.parseInt "ff" (Some 16%Z) = Some 255%Z
  /\ Js.parseInt "007" None = Some 7%Z
  /\ Js.parseInt "  42px" None = Some 42%Z
  /\ Js.parseInt "px" None = None
  /\ Js.parseInt "0x1F" None = Some 31%Z.
Proof. repeat split; reflexivity. Qed.

Example trim_examples :
  Js.trim "  Click here " = "Click here" /\ Js.trim "   " = EmptyString.
Proof. split; reflexivity. Qed.

Example declaration_examples :
  Full.declaration "color" "color: red; background-color: #fff" = Some "red"
  /\ Full.declaration "color" "background-color: blue" = Some "blue"
  /\ Full.declaration "color" "color: ;" = Some " "
  /\ Full.declaration "color" "color:;" = None
  /\ Js.leftmost Full.fontSizeHere "font-size: 18px" = Some "18".
Proof. repeat split; reflexivity. Qed.

Example outerHTML_example :
  Dom.outerHTML (Element "p" [("title", "a&b")] [Text "x<y"; Element "br" [] []])
  = "<p title=" +:+ Dom.quote +:+ "a&amp;b" +:+ Dom.quote +:+ ">x&lt;y<br></p>".
Proof. reflexivity. Qed.

(** ** Loops that push findings *)

Section Loops.
Context {S A B : Type}.

Lemma forEachFrom_collect (proj : S -> list B) (f : S -> A -> nat -> S)
    (g : A -> nat -> list B) :
  (forall s x i, proj (f s x i) = proj s ++ g x i) ->
  forall l i s, proj (forEachFrom f l i s) = proj s ++ collectFrom g l i.
Proof.
  intros Hf l. induction l as [|x l IH]; intros i s; simpl.
  - by rewrite app_nil_r.
  - rewrite IH, Hf. by rewrite <- app_assoc.
Qed.

Lemma forEach_collect (proj : S -> list B) (f : S -> A -> nat -> S)
    (g : A -> nat -> list B) (init : S) :
  proj init = [] ->
  (forall s x i, proj (f s x i) = proj s ++ g x i) ->
  forall l, proj (forEach f l init) = collect g l.
Proof.
  intros Hinit Hf l. unfold forEach, collect.
  by rewrite (forEachFrom_collect proj f g Hf), Hinit.
Qed.

End Loops.

(** ** Images *)

Lemma imagesWithoutAlt_collect (imgs : list Node) :
  Full.imagesWithoutAlt (Full.checkImages imgs) = collect altFinding imgs.
Proof.
  unfold Full.checkImages.
  apply (forEach_collect Full.imagesWithoutAlt); [done|].
  intros s img i. unfold Full.imageStep, altFinding, push.
  destruct (Dom.getAttribute img "alt") as [a|]; [|done].
  destruct (_ && _); simpl; by rewrite app_nil_r.
Qed.

Lemma reduced_lacksAlt (img : Node) :
  Reduced.lacksAlt img = true <-> Dom.getAttribute img "alt" = None.
Proof.
  unfold Reduced.lacksAlt.
  destruct (Dom.getAttribute img "alt") as [[|c a]|]; simpl; split; try done.
Qed.

Lemma reduced_imagesWithoutAlt_collect (imgs : list Node) :
  Reduced.imagesWithoutAlt imgs = collect altFinding imgs.
Proof.
  unfold Reduced.imagesWithoutAlt.
  apply (forEach_collect (fun l => l)); [done|].
  intros s img i. unfold Reduced.imageStep, altFinding, push.
  destruct (reduced_lacksAlt img) as [Hnull Hlacks].
  destruct (Reduced.lacksAlt img), (Dom.getAttribute img "alt") as [a|]; try done.
  - by specialize (Hnull eq_refl).
  - by rewrite app_nil_r.
  - by specialize (Hlacks eq_refl).
Qed.

(** ** The shape of a result *)

Lemma length_pos_nonEmpty {A} (l : list A) : (0 <? length l)%nat = nonEmpty l.
Proof. by destruct l. Qed.

Lemma length_zero_nonEmpty {A} (l : list A) : (length l =? 0)%nat = negb (nonEmpty l).
Proof. by destruct l. Qed.

Lemma withId_app id a b :
  violationsWithId id (a ++ b) = violationsWithId id a ++ violationsWithId id b.
Proof. apply List.filter_app. Qed.

Lemma withId_whenAny id nodes entry :
  violationsWithId id (Full.whenAny nodes entry)
  = if hasId id (entry nodes) then Full.whenAny nodes entry else [].
Proof.
  destruct nodes as [|n ns]; simpl; [by destruct (hasId _ _)|].
  unfold violationsWithId; simpl. by destruct (hasId _ _).
Qed.

Lemma withId_if id (c : bool) v :
  violationsWithId id (if c then [v] else []) = if c && hasId id v then [v] else [].
Proof. unfold violationsWithId. destruct c; simpl; [|done]. by destruct (hasId id v). Qed.

Lemma withId_headingOne id h1s :
  violationsWithId id (Full.headingOneViolations h1s)
  = (if String.eqb "page-has-heading-one" id
     then (if nonEmpty h1s then [] else [Full.pageHasHeadingOne]) else [])
    ++ (if String.eqb "multiple-h1" id
        then (if (1 <? length h1s)%nat then [Full.multipleH1 h1s] else []) else []).
Proof.
  unfold violationsWithId, hasId.
  destruct h1s as [|a [|b l]]; cbn -[String.eqb];
    destruct (String.eqb "page-has-heading-one" id), (String.eqb "multiple-h1" id); done.
Qed.

Lemma nonEmpty_whenAny nodes entry : nonEmpty (Full.whenAny nodes entry) = nonEmpty nodes.
Proof. by destruct nodes. Qed.

(** The entries of one id among the pushed ones: rewrite the filter through
    the pushes and decide the comparisons of ids. *)
Ltac violations_with_id :=
  unfold Full.pushedViolations;
  rewrite ?withId_app, ?withId_whenAny, ?withId_if, ?withId_headingOne;
  unfold hasId; simpl;
  rewrite ?andb_false_r, ?andb_true_r; simpl;
  rewrite ?app_nil_r.

Lemma emitPasses_flat_map checks : Full.emitPasses checks = List.flat_map emitOne checks.
Proof.
  unfold Full.emitPasses, forEach.
  rewrite <- (app_nil_l (List.flat_map _ _)).
  generalize (@nil AccessibilityPass) as acc. generalize 0 as i.
  induction checks as [|c checks IH]; intros i acc; simpl.
  - by rewrite app_nil_r.
  - rewrite IH. unfold emitOne at 2, push.
    destruct (Full.condition c); [by rewrite <- app_assoc | done].
Qed.

Lemma passesWithId_emit id checks :
  passesWithId id (Full.emitPasses checks)
  = Full.emitPasses (List.filter (fun c => String.eqb (Full.pc_id c) id) checks).
Proof.
  rewrite !emitPasses_flat_map. unfold passesWithId.
  induction checks as [|c checks IH]; simpl; [done|].
  rewrite List.filter_app, IH.
  unfold emitOne at 1, passHasId.
  destruct (String.eqb (Full.pc_id c) id) eqn:Hid; simpl.
  - unfold emitOne at 2. destruct (Full.condition c); simpl; [by rewrite Hid | done].
  - destruct (Full.condition c); simpl; [by rewrite Hid | done].
Qed.

Lemma emitPasses_one check : Full.emitPasses [check] = emitOne check.
Proof. rewrite emitPasses_flat_map. simpl. by rewrite app_nil_r. Qed.

Lemma nonEmpty_emitOne check : nonEmpty (emitOne check) = Full.condition check.
Proof. unfold emitOne. by destruct (Full.condition check). Qed.

Section Results.
Context `{Host}.

Lemma run_returns document r :
  Full.runAccessibilityChecks document = Returns r ->
  exists formSt htmlElement,
    Full.checkForms document (Full.formElements document) = Returns formSt
    /\ documentElement document = Some htmlElement
    /\ r = mkResult (Full.pushedViolations document formSt htmlElement)
             (Full.emitPasses (Full.passChecks document formSt htmlElement)) [].
Proof.
  unfold Full.runAccessibilityChecks.
  destruct (Full.checkForms _ _) as [formSt|e]; simpl; [|done].
  destruct (documentElement document) as [htmlElement|]; simpl; [|done].
  intros [= <-]. eauto.
Qed.

Lemma pushed_image_alt document formSt htmlElement :
  violationsWithId "image-alt" (Full.pushedViolations document formSt htmlElement)
  = Full.whenAny (Full.imagesWithoutAlt (Full.checkImages (Full.images document)))
      Full.imageAlt.
Proof. by violations_with_id. Qed.

Lemma passes_image_alt document formSt htmlElement :
  passesWithId "image-alt" (Full.emitPasses (Full.passChecks document formSt htmlElement))
  = emitOne
      (Full.mkPassCheck
         (nonEmpty (Full.images document)
          && negb (nonEmpty (Full.imagesWithoutAlt (Full.checkImages (Full.images document)))))
         "image-alt" "Images have alternative text").
Proof.
  rewrite passesWithId_emit. unfold Full.passChecks. simpl.
  by rewrite emitPasses_one, length_pos_nonEmpty, length_zero_nonEmpty.
Qed.

End Results.

(** ** The image-alt rule *)

(** C4. For every document that the engine evaluates, the nodes of the
    [image-alt] entry of the violations are one finding for each [img]
    whose [alt] attribute is absent (its markup, its position among the
    images and the summary of the rule) and for no other: an [img] with an
    [alt], be it empty, contributes nothing. There is one such entry when
    some [img] lacks [alt] and none otherwise; the [image-alt] pass is
    emitted exactly when there is an [img] and none lacks [alt]. Hence a
    document whose only [img] has no [alt] yields exactly one [image-alt]
    violation with exactly one finding, that of this [img], and no
    [image-alt] pass; and a document whose only [img] has an empty [alt]
    yields the [image-alt] pass and no [image-alt] violation. *)
Theorem image_alt_rule `{Host} (document : Document) (r : AccessibilityResult) :
  Full.runAccessibilityChecks document = Returns r ->
  let findings := collect altFinding (Full.images document) in
  (forall img index,
      altFinding img index <> [] <-> Dom.getAttribute img "alt" = None)
  /\ (forall img index,
        Dom.getAttribute img "alt" = None ->
        altFinding img index
        = [mkNode (Dom.outerHTML img) ["img:nth-child(" +:+ Js.showNat (index + 1) +:+ ")"]
             "Image does not have an alt attribute"])
  /\ violationsWithId "image-alt" (violations r) = Full.whenAny findings Full.imageAlt
  /\ map v_id (violationsWithId "image-alt" (violations r))
     = (if nonEmpty findings then ["image-alt"] else [])
  /\ map v_nodes (violationsWithId "image-alt" (violations r))
     = (if nonEmpty findings then [findings] else [])
  /\ passesWithId "image-alt" (passes r)
     = (if nonEmpty (Full.images document) && negb (nonEmpty findings)
        then [mkPass "image-alt" "Images have alternative text" "Images have alternative text"]
        else [])
  /\ (forall img,
        Full.images document = [img] -> Dom.getAttribute img "alt" = None ->
        (exists v,
            violationsWithId "image-alt" (violations r) = [v]
            /\ v_id v = "image-alt"
            /\ v_nodes v
               = [mkNode (Dom.outerHTML img) ["img:nth-child(1)"]
                    "Image does not have an alt attribute"])
        /\ passesWithId "image-alt" (passes r) = [])
  /\ (forall img,
        Full.images document = [img] -> Dom.getAttribute img "alt" = Some EmptyString ->
        violationsWithId "image-alt" (violations r) = []
        /\ passesWithId "image-alt" (passes r)
           = [mkPass "image-alt" "Images have alternative text" "Images have alternative text"]).
Proof.
  intros Hrun findings.
  destruct (run_returns _ _ Hrun) as (formSt & htmlElement & _ & _ & ->). simpl.
  rewrite pushed_image_alt, passes_image_alt, imagesWithoutAlt_collect.
  fold findings. unfold emitOne. simpl.
  split; [|split; [|split; [done|split; [|split; [|split; [done|split]]]]]].
  - intros img index. unfold altFinding.
    destruct (Dom.getAttribute img "alt"); split; done.
  - intros img index Halt. unfold altFinding. by rewrite Halt.
  - by destruct findings.
  - by destruct findings.
  - intros img Himg Halt. subst findings. rewrite Himg.
    unfold collect, altFinding. simpl. rewrite Halt. simpl.
    split; [|done]. eexists. split; [reflexivity|]. by split.
  - intros img Himg Halt. subst findings. rewrite Himg.
    unfold collect, altFinding. simpl. by rewrite Halt.
Qed.

Lemma image_alt_rule_witness :
  exists r,
    @Full.runAccessibilityChecks plainHost imageWithoutAlt = Returns r
    /\ (exists v,
           violationsWithId "image-alt" (violations r) = [v]
           /\ v_id v = "image-alt"
           /\ v_nodes v
              = [mkNode (Dom.outerHTML (Element "img" [("src", "x")] [])) ["img:nth-child(1)"]
                   "Image does not have an alt attribute"])
    /\ passesWithId "image-alt" (passes r) = [].
Proof.
  eexists. split; [vm_compute; reflexivity|].
  refine (proj1 (proj2 (proj2 (proj2 (proj2 (proj2 (proj2
            (@image_alt_rule plainHost imageWithoutAlt _ eq_refl))))))) _ eq_refl eq_refl).
Defined.

(** C9. The condition of the reduced engine ([alt] falsy and different from
    the empty string) holds for an [img] exactly when the condition of the
    fuller engine ([alt] is [null]) does; on every list of images the two
    engines build the same list of [image-alt] findings, element for
    element; and for every document that the fuller engine evaluates, the
    nodes of its [image-alt] entry are those of the reduced engine. *)
Theorem image_alt_engines_agree :
  (forall img, Reduced.lacksAlt img = true <-> Dom.getAttribute img "alt" = None)
  /\ (forall imgs,
        Reduced.imagesWithoutAlt imgs = Full.imagesWithoutAlt (Full.checkImages imgs))
  /\ (forall (H : Host) document r,
        Full.runAccessibilityChecks document = Returns r ->
        map v_nodes (violationsWithId "image-alt" (violations r))
        = map v_nodes (Reduced.imageViolations document)).
Proof.
  split; [exact reduced_lacksAlt|]. split.
  - intros imgs. by rewrite reduced_imagesWithoutAlt_collect, imagesWithoutAlt_collect.
  - intros H document r Hrun.
    destruct (run_returns _ _ Hrun) as (formSt & htmlElement & _ & _ & ->). simpl.
    rewrite pushed_image_alt. unfold Reduced.imageViolations.
    rewrite reduced_imagesWithoutAlt_collect, imagesWithoutAlt_collect.
    by destruct (collect altFinding (Full.images document)).
Qed.

Lemma image_alt_engines_agree_witness :
  exists r,
    @Full.runAccessibilityChecks plainHost imageWithoutAlt = Returns r
    /\ map v_nodes (violationsWithId "image-alt" (violations r))
       = map v_nodes (Reduced.imageViolations imageWithoutAlt).
Proof.
  eexists. split; [vm_compute; reflexivity|].
  exact (proj2 (proj2 image_alt_engines_agree) plainHost imageWithoutAlt _ eq_refl).
Defined.

(** ** The heading-order rule *)

Lemma headingLevel_selected (heading : Node) :
  Full.headingSelector heading = true ->
  exists k : Z,
    (1 <= k <= 6)%Z
    /\ Dom.localName heading = "h" +:+ Full.showNumber (Some k)
    /\ Full.headingLevel heading = Some k.
Proof.
  unfold Full.headingSelector, Dom.tag, Js.arrayIncludes, Full.headingLevel, Dom.tagName.
  simpl existsb. intros Hsel.
  repeat (apply orb_prop in Hsel as [Hsel|Hsel]); try done;
    apply String.eqb_eq in Hsel; rewrite Hsel.
  - exists 1%Z. by repeat split.
  - exists 2%Z. by repeat split.
  - exists 3%Z. by repeat split.
  - exists 4%Z. by repeat split.
  - exists 5%Z. by repeat split.
  - exists 6%Z. by repeat split.
Qed.

Lemma skippedHeadings_from (rest : list Node) :
  forall (pre : list Node) (previous : Node) (st : Full.HeadingState),
    Full.headingLevels st = map Full.headingLevel (pre ++ [previous]) ->
    Full.skippedHeadings (forEachFrom Full.headingStep rest (length (pre ++ [previous])) st)
    = Full.skippedHeadings st ++ skipsAfter previous rest.
Proof.
  induction rest as [|heading rest IH]; intros pre previous st Hlevels; simpl.
  - by rewrite app_nil_r.
  - assert (Hprev : mjoin (push (Full.headingLevels st) (Full.headingLevel heading)
                           !! (length (pre ++ [previous]) - 1)%nat)
                    = Full.headingLevel previous).
    { unfold push. rewrite Hlevels, length_app. simpl.
      replace (length pre + 1 - 1)%nat with (length pre) by lia.
      rewrite map_app. simpl. rewrite <- app_assoc. simpl.
      rewrite lookup_app_r by (by rewrite length_map).
      rewrite length_map. by replace (length pre - length pre)%nat with 0%nat by lia. }
    assert (Hpos : (0 <? length (pre ++ [previous]))%nat = true).
    { apply Nat.ltb_lt. rewrite length_app. simpl. lia. }
    replace (S (length (pre ++ [previous]))) with (length ((pre ++ [previous]) ++ [heading]))
      by (rewrite (length_app _ [heading]); simpl; lia).
    rewrite IH.
    + unfold Full.headingStep. rewrite Hpos, Hprev.
      destruct (Full.skipsFrom _ _); simpl; [|done].
      unfold push. by rewrite <- app_assoc.
    + unfold Full.headingStep. rewrite Hpos, Hprev.
      destruct (Full.skipsFrom _ _); simpl;
        unfold push; by rewrite Hlevels, (map_app _ (pre ++ [previous])).
Qed.

Lemma skippedHeadings_consecutive (headings : list Node) :
  Full.skippedHeadings (Full.checkHeadings headings) = consecutiveSkips headings.
Proof.
  unfold Full.checkHeadings, forEach.
  destruct headings as [|first rest]; simpl; [done|].
  change 1%nat with (length ([] ++ [first])).
  rewrite skippedHeadings_from; [done|].
  unfold Full.headingStep. by simpl.
Qed.

Lemma pushed_heading_order `{Host} document formSt htmlElement :
  violationsWithId "heading-order" (Full.pushedViolations document formSt htmlElement)
  = Full.whenAny (Full.skippedHeadings (Full.checkHeadings (Full.headings document)))
      Full.headingOrder.
Proof. by violations_with_id. Qed.

Lemma selected_heading_name (heading : Node) :
  Full.headingSelector heading = true ->
  In (Dom.localName heading) ["h1"; "h2"; "h3"; "h4"; "h5"; "h6"].
Proof.
  unfold Full.headingSelector, Dom.tag, Js.arrayIncludes. simpl existsb. intros Hsel.
  repeat (apply orb_prop in Hsel as [Hsel|Hsel]); try done;
    apply String.eqb_eq in Hsel; rewrite Hsel; simpl; tauto.
Qed.

Lemma in_headings `{Host} (document : Document) (heading : Node) :
  In heading (Full.headings document) -> Full.headingSelector heading = true.
Proof.
  unfold Full.headings, Dom.querySelectorAll. intros Hin.
  apply List.filter_In in Hin. tauto.
Qed.

Lemma skipsAfter_levels (rest : list Node) :
  forall previous,
    Full.headingSelector previous = true ->
    Forall (fun heading => Full.headingSelector heading = true) rest ->
    skipsAfter previous rest = levelSkipsAfter previous rest.
Proof.
  induction rest as [|heading rest IH]; intros previous Hprev Hrest; simpl; [done|].
  apply Forall_cons in Hrest as [Hhead Hrest].
  rewrite (IH heading Hhead Hrest). f_equal.
  unfold Full.skipNode, Full.headingLevel, namedLevel, Dom.tagName.
  apply selected_heading_name in Hprev, Hhead. simpl in Hprev, Hhead.
  destruct Hprev as [<-|[<-|[<-|[<-|[<-|[<-|[]]]]]]];
    destruct Hhead as [<-|[<-|[<-|[<-|[<-|[<-|[]]]]]]]; reflexivity.
Qed.

Lemma consecutiveSkips_levels (headings : list Node) :
  Forall (fun heading => Full.headingSelector heading = true) headings ->
  consecutiveSkips headings = levelSkips headings.
Proof.
  destruct headings as [|first rest]; [done|]. intros Hall.
  apply Forall_cons in Hall as [Hfirst Hrest]. by apply skipsAfter_levels.
Qed.

(** C5. For every document that the engine evaluates, the headings it scans
    are [h1] to [h6] elements whose numeric level is the digit of their name,
    and the nodes of the [heading-order] entry are, in document order, one
    finding (markup, name and the two levels) for each heading whose level
    exceeds the level of the heading just before it by more than one, and
    for no other: the first heading is never flagged, and no earlier heading
    is consulted. There is one such entry when some heading skips a level
    and none otherwise. Headings [h1, h2, h4] yield exactly one
    [heading-order] violation with exactly one finding, which is that of the
    [h4] element, and headings [h1, h2, h3] yield none. *)
Theorem heading_order_rule `{Host} (document : Document) (r : AccessibilityResult) :
  Full.runAccessibilityChecks document = Returns r ->
  let skips := levelSkips (Full.headings document) in
  (forall heading, In heading (Full.headings document) ->
     exists k : Z,
       (1 <= k <= 6)%Z
       /\ Dom.localName heading = "h" +:+ Full.showNumber (Some k)
       /\ Full.headingLevel heading = Some k
       /\ namedLevel heading = k)
  /\ violationsWithId "heading-order" (violations r)
     = Full.whenAny (consecutiveSkips (Full.headings document)) Full.headingOrder
  /\ map v_id (violationsWithId "heading-order" (violations r))
     = (if nonEmpty skips then ["heading-order"] else [])
  /\ map v_nodes (violationsWithId "heading-order" (violations r))
     = (if nonEmpty skips then [skips] else [])
  /\ (forall a b c,
        Full.headings document = [a; b; c] ->
        Dom.localName a = "h1" -> Dom.localName b = "h2" -> Dom.localName c = "h4" ->
        violationsWithId "heading-order" (violations r)
        = [Full.headingOrder
             [mkNode (Dom.outerHTML c) ["h4"] "Heading level skips from h2 to h4"]]
        /\ map v_nodes (violationsWithId "heading-order" (violations r))
           = [[mkNode (Dom.outerHTML c) ["h4"] "Heading level skips from h2 to h4"]])
  /\ (forall a b c,
        Full.headings document = [a; b; c] ->
        Dom.localName a = "h1" -> Dom.localName b = "h2" -> Dom.localName c = "h3" ->
        violationsWithId "heading-order" (violations r) = []).
Proof.
  intros Hrun skips.
  assert (Hall : Forall (fun heading => Full.headingSelector heading = true)
                   (Full.headings document)).
  { apply List.Forall_forall. intros heading Hin. by apply (in_headings document). }
  assert (Hskips : consecutiveSkips (Full.headings document) = skips).
  { by apply consecutiveSkips_levels. }
  destruct (run_returns _ _ Hrun) as (formSt & htmlElement & _ & _ & ->). simpl.
  rewrite pushed_heading_order, skippedHeadings_consecutive.
  split; [|split; [done|split; [|split; [|split]]]].
  - intros heading Hin.
    destruct (headingLevel_selected heading (in_headings _ _ Hin)) as (k & Hk & Hname & Hlevel).
    exists k. repeat split; try done; try lia.
    unfold namedLevel. rewrite Hname.
    assert (Hcases : k = 1%Z \/ k = 2%Z \/ k = 3%Z \/ k = 4%Z \/ k = 5%Z \/ k = 6%Z) by lia.
    destruct Hcases as [->|[->|[->|[->|[->| ->]]]]]; reflexivity.
  - rewrite Hskips. by destruct skips.
  - rewrite Hskips. by destruct skips.
  - intros a b c Hdoc Ha Hb Hc. rewrite Hskips. subst skips. rewrite Hdoc. simpl.
    unfold namedLevel. rewrite Ha, Hb, Hc. by split.
  - intros a b c Hdoc Ha Hb Hc. rewrite Hskips. subst skips. rewrite Hdoc. simpl.
    unfold namedLevel. by rewrite Ha, Hb, Hc.
Qed.

Lemma heading_order_rule_witness :
  exists r,
    @Full.runAccessibilityChecks plainHost (headingsPage ["h1"; "h2"; "h4"]) = Returns r
    /\ violationsWithId "heading-order" (violations r)
       = [Full.headingOrder
            [mkNode "<h4>h4</h4>" ["h4"] "Heading level skips from h2 to h4"]]
    /\ map v_nodes (violationsWithId "heading-order" (violations r))
       = [[mkNode "<h4>h4</h4>" ["h4"] "Heading level skips from h2 to h4"]].
Proof.
  eexists. split; [vm_compute; reflexivity|].
  refine (proj1 (proj2 (proj2 (proj2 (proj2
            (@heading_order_rule plainHost (headingsPage ["h1"; "h2"; "h4"]) _ eq_refl)))))
            _ _ _ eq_refl eq_refl eq_refl eq_refl).
Defined.

(** ** Links with the same text *)

Lemma head_filter_snoc {A} (P : A -> bool) (l : list A) (x : A) :
  head (List.filter P (l ++ [x]))
  = match head (List.filter P l) with
    | Some y => Some y
    | None => if P x then Some x else None
    end.
Proof.
  rewrite List.filter_app. simpl.
  destruct (List.filter P l) as [|y l'] eqn:Hl; simpl; [|done].
  by destruct (P x).
Qed.

Lemma firstHref_snoc (text : string) (processed : list Node) (link : Node) :
  firstHref text (processed ++ [link])
  = match firstHref text processed with
    | Some h => Some h
    | None =>
        if bool_decide (linkText link = Some text)
        then Some (Dom.getAttribute link "href") else None
    end.
Proof.
  unfold firstHref. rewrite head_filter_snoc.
  destruct (head (List.filter _ processed)); simpl; [done|].
  by destruct (bool_decide _).
Qed.

Lemma linkStep_cases (st : Full.LinkState) (link : Node) (index : nat) :
  match linkText link with
  | Some text =>
      match Full.linkTexts st !! text with
      | Some first =>
          Full.linkTexts (Full.linkStep st link index) = Full.linkTexts st
          /\ Full.linksWithSameText (Full.linkStep st link index)
             = Full.linksWithSameText st
               ++ (if bool_decide (first = Dom.getAttribute link "href") then []
                   else [Full.sameTextNode link index text])
      | None =>
          Full.linkTexts (Full.linkStep st link index)
          = <[text := Dom.getAttribute link "href"]> (Full.linkTexts st)
          /\ Full.linksWithSameText (Full.linkStep st link index) = Full.linksWithSameText st
      end
  | None =>
      Full.linkTexts (Full.linkStep st link index) = Full.linkTexts st
      /\ Full.linksWithSameText (Full.linkStep st link index) = Full.linksWithSameText st
  end.
Proof.
  unfold linkText, Full.linkStep.
  destruct (Js.orElse _ _) as [[|c t]|]; simpl; try done.
  destruct (Full.linkTexts st !! String c t) as [first|]; simpl; [|done].
  destruct (bool_decide _); simpl; [by rewrite app_nil_r | done].
Qed.

Lemma linksWithSameText_from (rest : list Node) :
  forall (processed : list Node) (st : Full.LinkState),
    (forall text, Full.linkTexts st !! text = firstHref text processed) ->
    Full.linksWithSameText (forEachFrom Full.linkStep rest (length processed) st)
    = Full.linksWithSameText st ++ sameTextAfter processed rest.
Proof.
  induction rest as [|link rest IH]; intros processed st Hmap; simpl.
  - by rewrite app_nil_r.
  - replace (S (length processed)) with (length (processed ++ [link]))
      by (rewrite length_app; simpl; lia).
    pose proof (linkStep_cases st link (length processed)) as Hstep.
    rewrite IH.
    + destruct (linkText link) as [text|].
      * rewrite <- Hmap.
        destruct (Full.linkTexts st !! text) as [first|];
          destruct Hstep as [_ ->]; by rewrite <- ?app_assoc.
      * by destruct Hstep as [_ ->].
    + intros text. rewrite firstHref_snoc, <- Hmap.
      destruct (linkText link) as [text0|] eqn:Htext.
      * destruct (Full.linkTexts st !! text0) as [first|] eqn:Hfirst;
          destruct Hstep as [-> _].
        -- destruct (Full.linkTexts st !! text) eqn:Hlook; [done|].
           rewrite bool_decide_eq_false_2; [done|]. intros [= ->]. congruence.
        -- destruct (decide (text0 = text)) as [->|Hne].
           ++ rewrite lookup_insert_eq, Hfirst. by rewrite bool_decide_eq_true_2.
           ++ rewrite lookup_insert_ne by done.
              destruct (Full.linkTexts st !! text); [done|].
              rewrite bool_decide_eq_false_2; [done|]. congruence.
      * destruct Hstep as [-> _]. by destruct (Full.linkTexts st !! text).
Qed.

Lemma linksWithSameText_tracked (links : list Node) :
  Full.linksWithSameText (Full.checkLinks links) = sameTextAfter [] links.
Proof.
  unfold Full.checkLinks, forEach.
  change 0%nat with (length (@nil Node)).
  rewrite linksWithSameText_from; [done|].
  intros text. simpl. by rewrite lookup_empty.
Qed.

Lemma pushed_same_text `{Host} document formSt htmlElement :
  violationsWithId "link-same-text-diff-target"
    (Full.pushedViolations document formSt htmlElement) = [].
Proof. by violations_with_id. Qed.

(** No document gets a [link-same-text-diff-target] entry: the list
    [linksWithSameText] is built and then dropped. *)
Lemma same_text_never_reported `{Host} (document : Document) (r : AccessibilityResult) :
  Full.runAccessibilityChecks document = Returns r ->
  hasViolation "link-same-text-diff-target" r = false.
Proof.
  intros Hrun.
  destruct (run_returns _ _ Hrun) as (formSt & htmlElement & _ & _ & ->).
  unfold hasViolation. simpl. by rewrite pushed_same_text.
Qed.

(** C1, at the document with two links that read "Click here" and lead to
    [/a] and [/b]: the loop over the links does build one finding for the
    second link and none for the first, the findings of every document being
    those of [sameTextAfter]; but no entry with the id
    [link-same-text-diff-target] reaches the violations of the result or of
    the report, which hold the [link-text-quality] entry only. *)
Theorem same_text_links_not_reported :
  forall H : Host,
    (forall links, Full.linksWithSameText (Full.checkLinks links) = sameTextAfter [] links)
    /\ Full.linksWithSameText (Full.checkLinks (Full.links twoLinks))
       = [Full.sameTextNode (clickHere "/b" "Click here") 1 "Click here"]
    /\ exists r,
         Full.runAccessibilityChecks twoLinks = Returns r
         /\ map v_id (violations r) = ["link-text-quality"]
         /\ hasViolation "link-same-text-diff-target" r = false
         /\ map v_id (report_violations (Post.formatReport "u" "direct-fetch" "t" r))
            = ["link-text-quality"].
Proof.
  intros H. split; [exact linksWithSameText_tracked|]. split; [by vm_compute|].
  eexists. split; [by vm_compute|]. by vm_compute.
Qed.

Lemma pushed_color_contrast `{Host} document formSt htmlElement :
  violationsWithId "color-contrast" (Full.pushedViolations document formSt htmlElement)
  = Full.whenAny (Full.checkContrast (Full.textElements document))
      (fun issues => Full.colorContrast (take 10 issues)).
Proof. by violations_with_id. Qed.

(** ** The colour parser *)

(** *** Decimal channels of any size *)

Lemma append_cons (a : ascii) (s t : string) : String a s +:+ t = String a (s +:+ t).
Proof. reflexivity. Qed.

Lemma digits_of_uint (d : uint) : allDigits (NilEmpty.string_of_uint d) = true.
Proof. induction d; simpl; auto. Qed.

Lemma showNat_digits (n : nat) :
  allDigits (Js.showNat n) = true /\ startsWithDigit (Js.showNat n) = true.
Proof.
  unfold Js.showNat, NilZero.string_of_uint.
  destruct (Nat.to_uint n) as [|d|d|d|d|d|d|d|d|d|d]; simpl; split; try reflexivity;
    apply digits_of_uint.
Qed.

Lemma span_digits (s rest : string) :
  allDigits s = true -> startsWithDigit rest = false ->
  Js.span Js.isDigit (s +:+ rest) = (s, rest).
Proof.
  intros Hs Hrest. induction s as [|c s IH].
  - change (EmptyString +:+ rest) with rest.
    destruct rest as [|c t]; [done|]. simpl in *. by rewrite Hrest.
  - rewrite append_cons. simpl in *. apply andb_prop in Hs as [Hc Hs].
    by rewrite Hc, (IH Hs).
Qed.

Lemma parseDigits_step (c : ascii) (t : string) (a d : Z) :
  Js.digitValue c = Some d -> (d < 10)%Z ->
  Js.parseDigits 10 (String c t) (Some a) = Js.parseDigits 10 t (Some (a * 10 + d)%Z).
Proof.
  intros Hc Hd. simpl. rewrite Hc.
  by destruct (Z.ltb_spec d 10); [|lia].
Qed.

Lemma parseDigits_uint (d : uint) (acc : nat) :
  Js.parseDigits 10 (NilEmpty.string_of_uint d) (Some (Z.of_nat acc))
  = Some (Z.of_nat (Nat.of_uint_acc d acc)).
Proof.
  revert acc. induction d; intros acc; [done|..];
    cbn [NilEmpty.string_of_uint Nat.of_uint_acc];
    (erewrite parseDigits_step; [|reflexivity|by vm_compute]);
    rewrite <- IHd; do 2 f_equal; rewrite Nat.tail_mul_spec; vm_compute (Js.code _); lia.
Qed.

Lemma stripHexPrefix_digits (d : uint) (c : ascii) :
  Js.isDigit c = true ->
  Js.stripHexPrefix (String c (NilEmpty.string_of_uint d)) = None.
Proof.
  intros Hc. destruct d; simpl;
    repeat match goal with
      | |- context [match ?x with _ => _ end] => destruct x; try done
      end.
Qed.

Lemma parseDigits_first (c : ascii) (t : string) (d : Z) :
  Js.digitValue c = Some d -> (d < 10)%Z ->
  Js.parseDigits 10 (String c t) None = Js.parseDigits 10 t (Some d).
Proof.
  intros Hc Hd. simpl. rewrite Hc.
  by destruct (Z.ltb_spec d 10); [|lia].
Qed.

Lemma parseDigits_uint_Z (d : uint) (a : Z) :
  (0 <= a)%Z ->
  Js.parseDigits 10 (NilEmpty.string_of_uint d) (Some a)
  = Some (Z.of_nat (Nat.of_uint_acc d (Z.to_nat a))).
Proof. intros Ha. by rewrite <- parseDigits_uint, Z2Nat.id. Qed.

Ltac evaluate_char_tests :=
  repeat match goal with
    | |- context [Js.isWhiteSpace ?c] =>
        let v := eval vm_compute in (Js.isWhiteSpace c) in
        change (Js.isWhiteSpace c) with v
    end.

Lemma parseInt_uint (d : uint) :
  Js.parseInt (NilZero.string_of_uint d) None = Some (Z.of_nat (Nat.of_uint d)).
Proof.
  destruct d as [|d|d|d|d|d|d|d|d|d|d]; [reflexivity|..];
    unfold Js.parseInt, NilZero.string_of_uint, Nat.of_uint;
    cbn [NilEmpty.string_of_uint Nat.of_uint_acc Js.trimStart Js.stripSign];
    change (Nat.tail_mul 10 0) with 0%nat;
    evaluate_char_tests; cbn [Js.stripSign];
    rewrite stripHexPrefix_digits by reflexivity;
    cbn [Z.eqb Z.ltb Z.compare negb andb orb];
    (erewrite parseDigits_first; [|reflexivity|by vm_compute]);
    (rewrite parseDigits_uint_Z by by vm_compute).
  all: simpl;
    match goal with
    | |- context [Z.to_nat ?z] =>
        let v := eval vm_compute in (Z.to_nat z) in change (Z.to_nat z) with v
    end;
    by rewrite Z.mul_1_l.
Qed.

Lemma parseInt_showNat (n : nat) : Js.parseInt (Js.showNat n) None = Some (Z.of_nat n).
Proof. unfold Js.showNat. by rewrite parseInt_uint, Unsigned.of_to. Qed.

Lemma span1_digits (s rest : string) :
  allDigits s = true -> startsWithDigit s = true -> startsWithDigit rest = false ->
  Js.span1 Js.isDigit (s +:+ rest) = Some (s, rest).
Proof.
  intros Hs Hfirst Hrest. unfold Js.span1. rewrite (span_digits s rest Hs Hrest).
  by destruct s.
Qed.

Lemma digit_not_space (c : ascii) : Js.isDigit c = true -> Js.isWhiteSpace c = false.
Proof.
  unfold Js.isDigit, Js.isWhiteSpace, Js.between. intros Hc.
  apply andb_prop in Hc as [Hlo Hhi].
  apply Nat.leb_le in Hlo. apply Nat.leb_le in Hhi.
  repeat (apply orb_false_intro); [apply andb_false_intro2| |];
    [apply Nat.leb_gt|apply Nat.eqb_neq|apply Nat.eqb_neq]; lia.
Qed.

Lemma span_space_before_digits (s : string) :
  startsWithDigit s = true -> Js.span Js.isWhiteSpace (" " +:+ s) = (" ", s).
Proof.
  intros Hs. destruct s as [|c t]; [done|].
  change (" " +:+ String c t) with (String " " (String c t)).
  cbn [Js.span]. change (Js.isWhiteSpace " ") with true. cbn iota.
  simpl in Hs. by rewrite (digit_not_space c Hs).
Qed.

Lemma startsWithDigit_append (s rest : string) :
  startsWithDigit s = true -> startsWithDigit (s +:+ rest) = true.
Proof. by destruct s. Qed.

Lemma rgbPatternHere_rgbText (n1 n2 n3 : nat) (rest : string) :
  Color.rgbPatternHere (rgbTextThen n1 n2 n3 rest)
  = Some (Js.showNat n1, Js.showNat n2, Js.showNat n3).
Proof.
  destruct (showNat_digits n1) as [H1 F1], (showNat_digits n2) as [H2 F2],
    (showNat_digits n3) as [H3 F3].
  unfold Color.rgbPatternHere, rgbTextThen.
  set (s1 := Js.showNat n1) in *. set (s2 := Js.showNat n2) in *. set (s3 := Js.showNat n3) in *.
  change (Js.literal "rgb(" ("rgb(" +:+ s1 +:+ ", " +:+ s2 +:+ ", " +:+ s3 +:+ ")" +:+ rest))
    with (Some (s1 +:+ ", " +:+ s2 +:+ ", " +:+ s3 +:+ ")" +:+ rest)).
  cbn [mbind option_bind].
  rewrite (span1_digits s1 _ H1 F1) by reflexivity. cbn [mbind option_bind].
  change (Js.literal "," (", " +:+ s2 +:+ ", " +:+ s3 +:+ ")" +:+ rest))
    with (Some (" " +:+ s2 +:+ ", " +:+ s3 +:+ ")" +:+ rest)).
  cbn [mbind option_bind].
  rewrite span_space_before_digits by (by apply startsWithDigit_append).
  rewrite (span1_digits s2 _ H2 F2) by reflexivity. cbn [mbind option_bind].
  change (Js.literal "," (", " +:+ s3 +:+ ")" +:+ rest)) with (Some (" " +:+ s3 +:+ ")" +:+ rest)).
  cbn [mbind option_bind].
  rewrite span_space_before_digits by (by apply startsWithDigit_append).
  rewrite (span1_digits s3 _ H3 F3) by reflexivity. cbn [mbind option_bind].
  reflexivity.
Qed.

Lemma leftmost_here {A} (m : string -> option A) (s : string) (a : A) :
  m s = Some a -> Js.leftmost m s = Some a.
Proof. intros Hm. destruct s; simpl; by rewrite Hm. Qed.

(** Whatever the three channels are and whatever follows the closing
    parenthesis, [parseColor] returns the channels (as exact integers, by
    the convention on [parseInt]). *)
Lemma parseColor_rgbTextThen (n1 n2 n3 : nat) (rest : string) :
  Color.parseColor (rgbTextThen n1 n2 n3 rest)
  = Some (Channels (mkRGB (Z.of_nat n1) (Z.of_nat n2) (Z.of_nat n3))).
Proof.
  unfold Color.parseColor.
  change (Js.startsWith (rgbTextThen n1 n2 n3 rest) "#") with false.
  change (Js.startsWith (rgbTextThen n1 n2 n3 rest) "rgb") with true.
  cbn iota. unfold Color.rgbMatch.
  rewrite (leftmost_here _ _ _ (rgbPatternHere_rgbText n1 n2 n3 rest)).
  by rewrite !parseInt_showNat.
Qed.

(** C6, at inputs that are none of the three accepted forms: the pattern
    for [rgb(...)] is not anchored, so any text after the closing
    parenthesis is accepted, whatever the channels are, and the look-up of a
    named colour also finds what the object literal inherits, so
    [constructor] yields a value (without channels). The three examples of
    the specification hold. *)
Theorem parseColor_accepts_other_inputs :
  Color.parseColor "#000000" = Some (Channels (mkRGB 0 0 0))
  /\ Color.parseColor "#FFFFFF" = Some (Channels (mkRGB 255 255 255))
  /\ Color.parseColor "not-a-color" = None
  /\ Color.parseColor "rgb(1,2,3)junk" = Some (Channels (mkRGB 1 2 3))
  /\ rgbTextThen 1 2 3 "junk" = "rgb(1, 2, 3)junk"
  /\ (forall (n1 n2 n3 : nat) (rest : string),
        Color.parseColor (rgbTextThen n1 n2 n3 rest)
        = Some (Channels (mkRGB (Z.of_nat n1) (Z.of_nat n2) (Z.of_nat n3))))
  /\ Color.parseColor "constructor" = Some (Inherited "constructor").
Proof.
  split; [reflexivity|]. split; [reflexivity|]. split; [reflexivity|].
  split; [reflexivity|]. split; [reflexivity|]. split; [|reflexivity].
  exact parseColor_rgbTextThen.
Qed.

(** C10. [parseColor("rgb(999, 0, 0)")] is a colour whose red channel is
    999, and [parseColor] returns the channels of [rgb(n1, n2, n3)] for all
    natural numbers: nothing checks the range of a channel. The colour reaches
    [getContrastRatio], which passes 999 to [getLuminance]: for a paragraph
    styled with it on white, whether the engine reports a [color-contrast]
    finding is decided by the ratio of that colour and white. *)
Theorem parseColor_no_range_check :
  forall H : Host,
    let red := Channels (mkRGB 999 0 0) in
    let white := Channels (mkRGB 255 255 255) in
    let ratio := Contrast.getContrastRatio red white in
    Color.parseColor "rgb(999, 0, 0)" = Some red
    /\ (255 < 999)%Z
    /\ rgbText 999 0 0 = "rgb(999, 0, 0)"
    /\ (forall n1 n2 n3 : nat,
          Color.parseColor (rgbText n1 n2 n3)
          = Some (Channels (mkRGB (Z.of_nat n1) (Z.of_nat n2) (Z.of_nat n3))))
    /\ ratio
       = (let lum1 :=
            Contrast.getLuminance (fromInteger 999) (fromInteger 0) (fromInteger 0) in
          let lum2 :=
            Contrast.getLuminance (fromInteger 255) (fromInteger 255) (fromInteger 255) in
          divide (plus (Math_max lum1 lum2) (decimal 5 2))
            (plus (Math_min lum1 lum2) (decimal 5 2)))
    /\ Full.checkContrast [outOfRangeText]
       = (if lessThan ratio (decimal 45 1)
          then [mkNode (Dom.outerHTML outOfRangeText) ["p:nth-child(1)"]
                  ("Text has insufficient color contrast ("
                   +:+ toFixed ratio 2 +:+ ":1, requires 4.5:1)")]
          else [])
    /\ exists r,
         Full.runAccessibilityChecks outOfRangePage = Returns r
         /\ hasViolation "color-contrast" r = lessThan ratio (decimal 45 1).
Proof.
  intros H red white ratio.
  split; [reflexivity|]. split; [done|]. split; [reflexivity|].
  split; [intros n1 n2 n3; apply parseColor_rgbTextThen|].
  split; [reflexivity|]. split; [reflexivity|].
  eexists. split; [reflexivity|].
  unfold hasViolation. simpl violations.
  rewrite pushed_color_contrast, nonEmpty_whenAny.
  change (Full.checkContrast (Full.textElements outOfRangePage))
    with (Full.checkContrast [Element "h1" [] [Text "Sample"]; outOfRangeText]).
  unfold Full.checkContrast, forEach. simpl forEachFrom.
  change (Full.contrastStep [] (Element "h1" [] [Text "Sample"]) 0)
    with (@nil AccessibilityNode).
  change (Full.contrastStep [] outOfRangeText 1)
    with (if lessThan ratio (decimal 45 1)
          then [mkNode (Dom.outerHTML outOfRangeText) ["p:nth-child(2)"]
                  ("Text has insufficient color contrast ("
                   +:+ toFixed ratio 2 +:+ ":1, requires 4.5:1)")]
          else []).
  by destruct (lessThan _ _).
Qed.

(** ** The caps on the findings *)

Lemma shapeNode_id (node : AccessibilityNode) : Post.shapeNode node = node.
Proof. destruct node as [h t [|c s]]; reflexivity. Qed.

Lemma shapeViolation_nodes (v : AccessibilityViolation) :
  v_nodes (Post.shapeViolation v) = take 5 (v_nodes v).
Proof.
  unfold Post.shapeViolation. simpl. f_equal.
  induction (v_nodes v) as [|n ns IH]; simpl; [done|].
  by rewrite shapeNode_id, IH.
Qed.

Lemma take_shaped (n : nat) (nodes : list AccessibilityNode) :
  take n (map Post.shapeNode nodes) = take n nodes.
Proof. f_equal. induction nodes as [|x l IH]; simpl; [done|]. by rewrite shapeNode_id, IH. Qed.

Lemma withId_shaped id (vs : list AccessibilityViolation) :
  violationsWithId id (map Post.shapeViolation vs)
  = map Post.shapeViolation (violationsWithId id vs).
Proof.
  unfold violationsWithId. induction vs as [|v vs IH]; simpl; [done|].
  change (hasId id (Post.shapeViolation v)) with (hasId id v).
  destruct (hasId id v); simpl; by rewrite IH.
Qed.

Lemma Forall2_map_l {A B} (P : B -> A -> Prop) (f : A -> B) (l : list A) :
  (forall x, P (f x) x) -> Forall2 P (map f l) l.
Proof. intros HP. induction l; simpl; constructor; auto. Qed.

(** C8. For every document that the engine evaluates, the report that
    [POST] serialises keeps the entries of the violations in their order and
    gives each of them the first five of its nodes, in their order, hence
    at most five; the [color-contrast] entry of the result holds the first
    ten of the findings of that check, hence at most ten; and an entry
    that has twelve nodes is serialised with exactly five, the first five. *)
Theorem report_caps `{Host} (url crawlMethod timestamp : string) (document : Document)
    (results : AccessibilityResult) :
  Full.runAccessibilityChecks document = Returns results ->
  let report := Post.formatReport url crawlMethod timestamp results in
  Post.respond url crawlMethod timestamp document = Json report
  /\ map v_id (report_violations report) = map v_id (violations results)
  /\ Forall2 (fun shaped v => v_nodes shaped = take 5 (v_nodes v))
       (report_violations report) (violations results)
  /\ Forall (fun shaped => length (v_nodes shaped) <= 5) (report_violations report)
  /\ violationsWithId "color-contrast" (violations results)
     = Full.whenAny (Full.checkContrast (Full.textElements document))
         (fun issues => Full.colorContrast (take 10 issues))
  /\ Forall (fun v => length (v_nodes v) <= 10)
       (violationsWithId "color-contrast" (violations results))
  /\ Forall2 (fun shaped v =>
                length (v_nodes v) = 12 ->
                length (v_nodes shaped) = 5 /\ v_nodes shaped = take 5 (v_nodes v))
       (report_violations report) (violations results)
  /\ map v_nodes (violationsWithId "image-alt" (report_violations report))
     = map (take 5)
         (map v_nodes
            (Full.whenAny (collect altFinding (Full.images document)) Full.imageAlt)).
Proof.
  intros Hrun report. subst report.
  split; [unfold Post.respond; by rewrite Hrun|].
  split; [unfold Post.formatReport; simpl; by rewrite map_map|].
  split; [apply Forall2_map_l, shapeViolation_nodes|].
  split.
  { apply List.Forall_forall. intros shaped Hin. simpl in Hin.
    apply in_map_iff in Hin as (v & <- & _).
    rewrite shapeViolation_nodes, length_take. lia. }
  destruct (run_returns _ _ Hrun) as (formSt & htmlElement & _ & _ & ->). simpl.
  rewrite pushed_color_contrast.
  split; [done|]. split.
  { destruct (Full.checkContrast _) as [|n ns]; simpl; [constructor|].
    constructor; [|constructor]. simpl. rewrite length_take. lia. }
  split.
  - apply Forall2_map_l. intros v Hlen.
    rewrite shapeViolation_nodes, length_take. split; [lia|done].
  - rewrite withId_shaped, pushed_image_alt, imagesWithoutAlt_collect.
    destruct (collect altFinding (Full.images document)); [done|].
    simpl. by rewrite shapeNode_id, take_shaped.
Qed.

Lemma report_caps_witness :
  exists results,
    @Full.runAccessibilityChecks plainHost twelveImages = Returns results
    /\ map (fun v => length (v_nodes v)) (violations results) = [12]
    /\ Forall (fun shaped => length (v_nodes shaped) <= 5)
         (report_violations (Post.formatReport "u" "direct-fetch" "t" results)).
Proof.
  eexists. split; [vm_compute; reflexivity|]. split; [reflexivity|].
  exact (proj1 (proj2 (proj2 (proj2
           (@report_caps plainHost "u" "direct-fetch" "t" twelveImages _ eq_refl))))).
Defined.

(** ** Failures of the evaluation *)

Section Failures.
Context `{Host}.

Lemma labelFor_safe document id :
  Full.selectorSafe id = true -> exists label, Full.labelFor document id = Returns label.
Proof. intros Hsafe. unfold Full.labelFor. rewrite Hsafe. eauto. Qed.

Lemma formStep_safe document st element index :
  safeId element = true -> exists st', Full.formStep document st element index = Returns st'.
Proof.
  unfold safeId, Full.formStep. intros Hsafe.
  destruct (Full.needsNoLabel element); [eauto|].
  destruct (Dom.getAttribute element "id") as [id|]; simpl.
  - destruct (Js.truthy id); simpl.
    + destruct (labelFor_safe document id Hsafe) as [label Hlabel].
      rewrite Hlabel. simpl.
      destruct (Dom.hasAttribute element "required"); [|eauto].
      destruct label; simpl; eauto.
    + destruct (Dom.hasAttribute element "required"); simpl; eauto.
  - destruct (Dom.hasAttribute element "required"); simpl; eauto.
Qed.

Lemma forEachFromM_safe document (l : list Node) :
  forallb safeId l = true ->
  forall index st, exists st', forEachFromM (Full.formStep document) l index st = Returns st'.
Proof.
  induction l as [|element l IH]; simpl; intros Hsafe index st; [eauto|].
  apply andb_prop in Hsafe as [Helement Hl].
  destruct (formStep_safe document st element index Helement) as [st' ->]. simpl.
  by apply IH.
Qed.

Lemma run_null_root document :
  documentElement document = None ->
  Full.runAccessibilityChecks document = Throws nullGetAttribute.
Proof.
  intros Hroot. unfold Full.runAccessibilityChecks, Full.formElements, Dom.querySelectorAll,
    Dom.allElements. by rewrite Hroot.
Qed.

End Failures.

Lemma contrastStep_without_color `{Host} contrastIssues element index :
  declaredColor "color" element = None \/ declaredColor "background-color" element = None ->
  Full.contrastStep contrastIssues element index = contrastIssues.
Proof.
  unfold declaredColor, Full.contrastStep. intros Hnone.
  destruct (negb (Js.truthy _)); [done|].
  destruct (Full.declaration "color" _) as [colorMatch|]; [|done].
  destruct (Full.declaration "background-color" _) as [bgColorMatch|]; [|done].
  simpl in Hnone.
  destruct (Color.parseColor (Js.trim colorMatch)) as [textColor|]; [|done].
  destruct (Color.parseColor (Js.trim bgColorMatch)) as [bgColor|]; [|done].
  by destruct Hnone.
Qed.

(** C3, as the code has it. A document without a root gets no report: the
    evaluation throws the [TypeError] of the runtime for reading
    [getAttribute] of [null], and [POST] answers with its catch-all status
    500. A document with a root, whose form elements have ids that can be
    written in the selector [label[for="id"]], gets a report: nothing
    throws, whatever attributes, colours or elements are missing; and an
    element whose text colour or background colour is not declared, or is
    declared with a text that [parseColor] does not read, adds no
    [color-contrast] finding. *)
Theorem evaluation_failures `{Host} (url crawlMethod timestamp : string) (document : Document) :
  (documentElement document = None ->
   Full.runAccessibilityChecks document = Throws nullGetAttribute
   /\ Post.respond url crawlMethod timestamp document
      = ErrorJson
          "Error testing accessibility: Cannot read properties of null (reading 'getAttribute')"
          500)
  /\ (forall root,
        documentElement document = Some root ->
        forallb safeId (Full.formElements document) = true ->
        exists r,
          Full.runAccessibilityChecks document = Returns r
          /\ Post.respond url crawlMethod timestamp document
             = Json (Post.formatReport url crawlMethod timestamp r))
  /\ (forall contrastIssues element index,
        declaredColor "color" element = None
        \/ declaredColor "background-color" element = None ->
        Full.contrastStep contrastIssues element index = contrastIssues).
Proof.
  split; [|split].
  - intros Hroot. unfold Post.respond. by rewrite (run_null_root document Hroot).
  - intros root Hroot Hsafe. unfold Post.respond, Full.runAccessibilityChecks.
    destruct (forEachFromM_safe document _ Hsafe 0 (Full.mkFormState [] [] [])) as [formSt Hforms].
    unfold Full.checkForms, forEachM. rewrite Hforms, Hroot. simpl. eauto.
  - apply contrastStep_without_color.
Qed.

Lemma evaluation_failures_witness :
  @Full.runAccessibilityChecks plainHost nullDocument = Throws nullGetAttribute
  /\ exists r, @Full.runAccessibilityChecks plainHost imageWithEmptyAlt = Returns r.
Proof.
  split.
  - exact (proj1 (proj1 (@evaluation_failures plainHost "u" "direct-fetch" "t" nullDocument)
                    eq_refl)).
  - destruct (proj1 (proj2 (@evaluation_failures plainHost "u" "direct-fetch" "t"
                              imageWithEmptyAlt))
                _ eq_refl eq_refl) as (r & Hrun & _).
    exists r. exact Hrun.
Defined.

(** The claim C3 fails at the document without a root: what is thrown is the
    generic [TypeError] of a [null] dereference, which says nothing of the
    document, and [POST] reports it as an internal error. *)
Lemma null_root_error_is_generic :
  exists e,
    @Full.runAccessibilityChecks plainHost nullDocument = Throws e
    /\ name e = "TypeError"
    /\ mentionsDocument e = false
    /\ @Post.respond plainHost "u" "direct-fetch" "t" nullDocument
       = ErrorJson ("Error testing accessibility: " +:+ message e) 500.
Proof. exists nullGetAttribute. repeat split; reflexivity. Qed.

(** ** Passes *)

Ltac passes_with_id :=
  rewrite passesWithId_emit; unfold Full.passChecks; simpl;
  rewrite ?emitPasses_one, ?length_pos_nonEmpty, ?length_zero_nonEmpty.

Lemma forEachFromM_skipped {S A} (f : S -> A -> nat -> Outcome S) (l : list A) :
  (forall s x i, In x l -> f s x i = Returns s) ->
  forall index s, forEachFromM f l index s = Returns s.
Proof.
  induction l as [|x l IH]; intros Hf index s; simpl; [done|].
  rewrite Hf by (by left). simpl. apply IH. intros s' y i Hy. apply Hf. by right.
Qed.

Section Passes.
Context `{Host}.

Lemma checkForms_skipped document (formElements : list Node) :
  forallb Full.needsNoLabel formElements = true ->
  Full.checkForms document formElements = Returns (Full.mkFormState [] [] []).
Proof.
  intros Hskip. unfold Full.checkForms, forEachM.
  apply forEachFromM_skipped. intros s element i Hin.
  unfold Full.formStep.
  rewrite forallb_forall in Hskip. by rewrite (Hskip element Hin).
Qed.

Lemma pushed_label document formSt htmlElement :
  violationsWithId "label" (Full.pushedViolations document formSt htmlElement)
  = Full.whenAny (Full.elementsWithoutLabels formSt) Full.label.
Proof. by violations_with_id. Qed.

Lemma pushed_button_name document formSt htmlElement :
  violationsWithId "button-name" (Full.pushedViolations document formSt htmlElement)
  = Full.whenAny (Full.buttonsWithoutText (Full.checkButtons (Full.buttons document)))
      Full.buttonName.
Proof. by violations_with_id. Qed.

Lemma pushed_link_name document formSt htmlElement :
  violationsWithId "link-name" (Full.pushedViolations document formSt htmlElement)
  = Full.whenAny (Full.linksWithoutText (Full.checkLinks (Full.links document))) Full.linkName.
Proof. by violations_with_id. Qed.

Lemma pushed_table_headers document formSt htmlElement :
  violationsWithId "table-headers" (Full.pushedViolations document formSt htmlElement)
  = Full.whenAny (Full.tablesWithoutHeaders (Full.checkTables (Full.tables document)))
      Full.tableHeaders.
Proof. by violations_with_id. Qed.

Lemma pushed_document_title document formSt htmlElement :
  violationsWithId "document-title" (Full.pushedViolations document formSt htmlElement)
  = if negb (Full.hasTitle (Full.title document))
    then [Full.documentTitle (Full.title document)] else [].
Proof. by violations_with_id. Qed.

Lemma pushed_html_has_lang document formSt htmlElement :
  violationsWithId "html-has-lang" (Full.pushedViolations document formSt htmlElement)
  = if negb (Js.truthyOpt (Dom.getAttribute htmlElement "lang"))
    then [Full.htmlHasLang htmlElement] else [].
Proof. by violations_with_id. Qed.

Lemma pushed_meta_viewport document formSt htmlElement :
  violationsWithId "meta-viewport" (Full.pushedViolations document formSt htmlElement)
  = if negb (Js.present (Full.metaViewport document)) then [Full.metaViewportMissing] else [].
Proof. by violations_with_id. Qed.

Lemma pushed_page_has_heading_one document formSt htmlElement :
  violationsWithId "page-has-heading-one" (Full.pushedViolations document formSt htmlElement)
  = if nonEmpty (Full.h1s document) then [] else [Full.pageHasHeadingOne].
Proof. by violations_with_id. Qed.

End Passes.

Section PassRules.
Context `{Host}.
Variables (document : Document) (formSt : Full.FormState) (htmlElement : Node).

Let emitted := Full.emitPasses (Full.passChecks document formSt htmlElement).

Lemma passes_document_title :
  nonEmpty (passesWithId "document-title" emitted) = Full.hasTitle (Full.title document).
Proof. subst emitted. passes_with_id. apply nonEmpty_emitOne. Qed.

Lemma passes_html_has_lang :
  nonEmpty (passesWithId "html-has-lang" emitted)
  = Js.truthyOpt (Dom.getAttribute htmlElement "lang").
Proof. subst emitted. passes_with_id. apply nonEmpty_emitOne. Qed.

Lemma passes_meta_viewport :
  nonEmpty (passesWithId "meta-viewport" emitted) = Js.present (Full.metaViewport document).
Proof. subst emitted. passes_with_id. apply nonEmpty_emitOne. Qed.

Lemma passes_page_has_heading_one :
  nonEmpty (passesWithId "page-has-heading-one" emitted)
  = (length (Full.h1s document) =? 1)%nat.
Proof. subst emitted. passes_with_id. apply nonEmpty_emitOne. Qed.

Lemma passes_form_labels :
  nonEmpty (passesWithId "form-labels" emitted)
  = nonEmpty (Full.formElements document)
    && negb (nonEmpty (Full.elementsWithoutLabels formSt)).
Proof. subst emitted. passes_with_id. apply nonEmpty_emitOne. Qed.

Lemma passes_button_names :
  nonEmpty (passesWithId "button-names" emitted)
  = nonEmpty (Full.buttons document)
    && negb (nonEmpty (Full.buttonsWithoutText (Full.checkButtons (Full.buttons document)))).
Proof. subst emitted. passes_with_id. apply nonEmpty_emitOne. Qed.

Lemma passes_link_names :
  nonEmpty (passesWithId "link-names" emitted)
  = nonEmpty (Full.links document)
    && negb (nonEmpty (Full.linksWithoutText (Full.checkLinks (Full.links document)))).
Proof. subst emitted. passes_with_id. apply nonEmpty_emitOne. Qed.

Lemma passes_heading_structure :
  nonEmpty (passesWithId "heading-structure" emitted)
  = nonEmpty (Full.headings document)
    && negb (nonEmpty (Full.skippedHeadings (Full.checkHeadings (Full.headings document)))).
Proof. subst emitted. passes_with_id. apply nonEmpty_emitOne. Qed.

(** The ids of four rules and of [table-headers] never identify a pass. *)
Lemma passes_not_by_rule_id :
  passesWithId "label" emitted = []
  /\ passesWithId "button-name" emitted = []
  /\ passesWithId "link-name" emitted = []
  /\ passesWithId "heading-order" emitted = []
  /\ passesWithId "table-headers" emitted = [].
Proof. subst emitted. repeat split; by passes_with_id. Qed.

End PassRules.

(** C2, as the code has it. For every document that the engine evaluates:
    - [image-alt]: the pass, under the id of the rule, is emitted exactly
      when there is an [img] and the rule has no finding;
    - [document-title], [html-has-lang], [meta-viewport]: the pass, under
      the id of the rule, is emitted exactly when the rule has no finding;
    - [page-has-heading-one]: the pass is emitted exactly when there is one
      [h1], the violation exactly when there is none;
    - [button-name], [link-name], [heading-order]: the pass is emitted
      exactly when an element is in the scope of the rule and the rule has
      no finding, under the ids [button-names], [link-names] and
      [heading-structure];
    - [label]: the pass has the id [form-labels]; it is emitted when a form
      element that needs a label exists and the rule has no finding, and it
      is not emitted when the rule has a finding;
    - no pass has the id [label], [button-name], [link-name],
      [heading-order] or [table-headers];
    - a rule with no element in its scope yields neither its violation nor
      its pass: so for no [img], no form element, no button, no link, no
      heading, and no [table-headers] violation without a [table];
    - form elements that are all of the skipped input types yield no
      [label] violation. *)
Theorem pass_emission_policy `{Host} (document : Document) (r : AccessibilityResult) :
  Full.runAccessibilityChecks document = Returns r ->
  (hasPass "image-alt" r
   = nonEmpty (Full.images document) && negb (hasViolation "image-alt" r)
   /\ hasPass "document-title" r = negb (hasViolation "document-title" r)
   /\ hasPass "html-has-lang" r = negb (hasViolation "html-has-lang" r)
   /\ hasPass "meta-viewport" r = negb (hasViolation "meta-viewport" r)
   /\ hasPass "page-has-heading-one" r = (length (Full.h1s document) =? 1)%nat
   /\ hasViolation "page-has-heading-one" r = (length (Full.h1s document) =? 0)%nat)
  /\ (hasPass "button-names" r
      = nonEmpty (Full.buttons document) && negb (hasViolation "button-name" r)
      /\ hasPass "link-names" r
         = nonEmpty (Full.links document) && negb (hasViolation "link-name" r)
      /\ hasPass "heading-structure" r
         = nonEmpty (Full.headings document) && negb (hasViolation "heading-order" r)
      /\ (existsb (fun element => negb (Full.needsNoLabel element)) (Full.formElements document)
          = true ->
          hasPass "form-labels" r = negb (hasViolation "label" r))
      /\ (hasViolation "label" r = true -> hasPass "form-labels" r = false))
  /\ (hasPass "label" r = false
      /\ hasPass "button-name" r = false
      /\ hasPass "link-name" r = false
      /\ hasPass "heading-order" r = false
      /\ hasPass "table-headers" r = false)
  /\ ((Full.images document = [] ->
       hasViolation "image-alt" r = false /\ hasPass "image-alt" r = false)
      /\ (Full.formElements document = [] ->
          hasViolation "label" r = false /\ hasPass "form-labels" r = false)
      /\ (Full.buttons document = [] ->
          hasViolation "button-name" r = false /\ hasPass "button-names" r = false)
      /\ (Full.links document = [] ->
          hasViolation "link-name" r = false /\ hasPass "link-names" r = false)
      /\ (Full.headings document = [] ->
          hasViolation "heading-order" r = false /\ hasPass "heading-structure" r = false)
      /\ (Full.tables document = [] -> hasViolation "table-headers" r = false))
  /\ (forallb Full.needsNoLabel (Full.formElements document) = true ->
      hasViolation "label" r = false).
Proof.
  intros Hrun.
  destruct (run_returns _ _ Hrun) as (formSt & htmlElement & Hforms & _ & ->).
  unfold hasPass, hasViolation. simpl.
  rewrite pushed_image_alt, pushed_document_title, pushed_html_has_lang, pushed_meta_viewport,
    pushed_page_has_heading_one, pushed_button_name, pushed_link_name, pushed_heading_order,
    pushed_label, pushed_table_headers, !nonEmpty_whenAny.
  rewrite passes_image_alt, passes_document_title, passes_html_has_lang, passes_meta_viewport,
    passes_page_has_heading_one, passes_button_names, passes_link_names,
    passes_heading_structure, passes_form_labels, nonEmpty_emitOne.
  destruct (passes_not_by_rule_id document formSt htmlElement)
    as (-> & -> & -> & -> & ->). simpl.
  split; [|split; [|split; [done|split]]].
  - split; [done|]. split; [by destruct (Full.hasTitle _)|].
    split; [by destruct (Js.truthyOpt _)|]. split; [by destruct (Js.present _)|].
    split; [done|]. by destruct (Full.h1s document).
  - split; [done|]. split; [done|]. split; [done|]. split.
    + intros Hneeds. destruct (Full.formElements document); [done|]. done.
    + intros ->. by rewrite andb_false_r.
  - split; [by intros ->|]. split.
    { intros Hnone. rewrite Hnone in Hforms. injection Hforms as <-. by rewrite Hnone. }
    split; [by intros ->|]. split; [by intros ->|]. split; [by intros ->|]. by intros ->.
  - intros Hskip. rewrite (checkForms_skipped document _ Hskip) in Hforms.
    by injection Hforms as <-.
Qed.

Lemma pass_emission_policy_witness :
  exists r,
    @Full.runAccessibilityChecks plainHost labelledInput = Returns r
    /\ hasPass "form-labels" r = negb (hasViolation "label" r)
    /\ hasViolation "table-headers" r = false.
Proof.
  eexists. split; [vm_compute; reflexivity|].
  pose proof (@pass_emission_policy plainHost labelledInput _ eq_refl)
    as (_ & (_ & _ & _ & Hlabels & _) & _ & (_ & _ & _ & _ & _ & Htables) & _).
  split; [exact (Hlabels eq_refl) | exact (Htables eq_refl)].
Defined.

(** The claim C2 fails at a document whose only form element is an input
    with an [aria-label]: an element is in the scope of the [label] rule
    and the rule has no finding, yet no pass has the id [label]; the pass
    that is emitted has the id [form-labels]. *)
Lemma label_pass_has_another_id :
  exists r,
    @Full.runAccessibilityChecks plainHost labelledInput = Returns r
    /\ nonEmpty (Full.formElements labelledInput) = true
    /\ hasViolation "label" r = false
    /\ hasPass "label" r = false
    /\ hasPass "form-labels" r = true.
Proof. eexists. split; [vm_compute; reflexivity|]. by vm_compute. Qed.
(** ** The contrast ratio on doubles *)

Section Doubles.
Local Open Scope Z_scope.

(** The literals of [getLuminance] and [getContrastRatio], and 255, as
    doubles: mantissa and exponent *)
Example double_literals :
  Binary64.ofDecimal 5 2 = S754_finite false 7205759403792794 (-57)
  /\ Binary64.ofDecimal 2126 4 = S754_finite false 7659722246231740 (-55)
  /\ Binary64.ofDecimal 7152 4 = S754_finite false 6441948906990757 (-53)
  /\ Binary64.ofDecimal 722 4 = S754_finite false 5202558289538397 (-56)
  /\ Binary64.ofDecimal 3928 5 = S754_finite false 5660844587619619 (-57)
  /\ Binary64.ofDecimal 1292 2 = S754_finite false 7273313398203351 (-49)
  /\ Binary64.ofDecimal 55 3 = S754_finite false 7926335344172073 (-57)
  /\ Binary64.ofDecimal 1055 3 = S754_finite false 4751297606875873 (-52)
  /\ Binary64.ofDecimal 24 1 = S754_finite false 5404319552844595 (-51)
  /\ Binary64.ofInteger 255 = S754_finite false 8972014882652160 (-45).
Proof. vm_compute. repeat split. Qed.

(** *** Rounding to nearest, ties to even *)

Lemma digits2_size (p : positive) : digits2_pos p = Pos.size p.
Proof. induction p; simpl; congruence. Qed.

Lemma digits_bounds (p : positive) :
  2 ^ (Zpos (digits2_pos p) - 1) <= Zpos p < 2 ^ Zpos (digits2_pos p).
Proof.
  rewrite digits2_size.
  assert (H := Z.log2_spec (Zpos p) eq_refl).
  assert (Hs : Zpos (Pos.size p) = Z.succ (Z.log2 (Zpos p))).
  { destruct p; simpl; lia. }
  rewrite Hs. replace (Z.succ (Z.log2 (Z.pos p)) - 1) with (Z.log2 (Zpos p)) by lia. lia.
Qed.

Lemma digits_unique (p : positive) (d : Z) :
  2 ^ (d - 1) <= Zpos p < 2 ^ d -> Zpos (digits2_pos p) = d.
Proof.
  intros [Hl Hu].
  assert (Hd : 0 < d).
  { destruct (Z_lt_le_dec 0 d) as [|Hle]; [done|].
    assert (2 ^ d <= 2 ^ 0) by (apply Z.pow_le_mono_r; lia). simpl in *. lia. }
  destruct (digits_bounds p) as [Hl' Hu'].
  set (d' := Zpos (digits2_pos p)) in *.
  destruct (Z.lt_trichotomy d' d) as [Hlt|[Heq|Hgt]]; [|done|].
  - assert (2 ^ d' <= 2 ^ (d - 1)) by (apply Z.pow_le_mono_r; lia). lia.
  - assert (2 ^ d <= 2 ^ (d' - 1)) by (apply Z.pow_le_mono_r; lia). lia.
Qed.

Lemma rne_bounds (M n : Z) : M / 2 ^ n <= rne M n <= M / 2 ^ n + 1.
Proof.
  unfold rne. destruct (_ ?= _); [destruct (Z.even _)| |]; lia.
Qed.

Lemma rne_exact (M n : Z) : 0 <= n -> M mod 2 ^ n = 0 -> rne M n = M / 2 ^ n.
Proof.
  intros Hn Hm. unfold rne. rewrite Hm.
  assert (0 < 2 ^ n) by (apply Z.pow_pos_nonneg; lia).
  destruct (Z.compare_spec (2 * 0) (2 ^ n)); lia.
Qed.

Lemma rne_mono (M1 M2 n : Z) : 0 <= n -> M1 <= M2 -> rne M1 n <= rne M2 n.
Proof.
  intros Hn HM.
  assert (Hp : 0 < 2 ^ n) by (apply Z.pow_pos_nonneg; lia).
  assert (Hq : M1 / 2 ^ n <= M2 / 2 ^ n) by (apply Z.div_le_mono; lia).
  destruct (Z.eq_dec (M1 / 2 ^ n) (M2 / 2 ^ n)) as [Heq|Hne].
  - assert (Hr : M1 mod 2 ^ n <= M2 mod 2 ^ n).
    { rewrite !Z.mod_eq by lia. rewrite Heq. lia. }
    unfold rne. rewrite Heq.
    destruct (Z.compare_spec (2 * (M1 mod 2 ^ n)) (2 ^ n));
      destruct (Z.compare_spec (2 * (M2 mod 2 ^ n)) (2 ^ n));
      destruct (Z.even (M2 / 2 ^ n)); lia.
  - pose proof (rne_bounds M1 n). pose proof (rne_bounds M2 n). lia.
Qed.

Lemma rne_scale (M n j : Z) : 0 <= n -> 0 <= j -> rne (M * 2 ^ j) (n + j) = rne M n.
Proof.
  intros Hn Hj.
  assert (Hp : 0 < 2 ^ n) by (apply Z.pow_pos_nonneg; lia).
  assert (Hpj : 0 < 2 ^ j) by (apply Z.pow_pos_nonneg; lia).
  unfold rne. rewrite Z.pow_add_r by lia.
  rewrite Z.div_mul_cancel_r by lia.
  rewrite Z.mul_mod_distr_r by lia.
  replace (2 * (M mod 2 ^ n * 2 ^ j)) with ((2 * (M mod 2 ^ n)) * 2 ^ j) by lia.
  rewrite <- (Zmult_compare_compat_r _ _ (2 ^ j)) by lia. done.
Qed.

Lemma rne_zero (M : Z) : rne M 0 = M.
Proof. rewrite rne_exact; simpl; [apply Z.div_1_r|lia|apply Z.mod_1_r]. Qed.

(** *** The right shift of [binary_round_aux] *)

Lemma iter_pos_nat {A} (f : A -> A) (p : positive) (x : A) :
  SpecFloat.iter_pos f p x = Nat.iter (Pos.to_nat p) f x.
Proof.
  revert x. induction p as [p IH|p IH|]; intros x; simpl SpecFloat.iter_pos.
  - rewrite !IH, Pos2Nat.inj_xI.
    replace (S (2 * Pos.to_nat p))%nat with (Pos.to_nat p + (Pos.to_nat p + 1))%nat by lia.
    rewrite !Nat.iter_add. done.
  - rewrite !IH, Pos2Nat.inj_xO.
    replace (2 * Pos.to_nat p)%nat with (Pos.to_nat p + Pos.to_nat p)%nat by lia.
    by rewrite Nat.iter_add.
  - done.
Qed.

Lemma shr_1_spec (m : Z) (r s : bool) :
  0 <= m ->
  shr_1 (Build_shr_record m r s) = Build_shr_record (m / 2) (Z.odd m) (r || s).
Proof.
  intros Hm. destruct m as [|[p|p|]|]; try lia; simpl shr_1; f_equal.
  - rewrite Pos2Z.inj_xI. apply Z.div_unique with 1; lia.
  - rewrite Pos2Z.inj_xO. apply Z.div_unique with 0; lia.
Qed.

Lemma shr_iter (M : Z) (n : nat) :
  0 <= M ->
  let rec := Nat.iter n shr_1 (Build_shr_record M false false) in
  shr_m rec = M / 2 ^ Z.of_nat n /\ loc_of_shr_record rec = loc_of M (Z.of_nat n).
Proof.
  intros HM. induction n as [|n [IHm IHl]].
  - simpl. unfold loc_of. rewrite Z.div_1_r. by rewrite Z.mod_1_r.
  - cbn zeta in *. rewrite Nat.iter_succ.
    destruct (Nat.iter n shr_1 _) as [m r s]. simpl in IHm.
    assert (Hp : 0 < 2 ^ Z.of_nat n) by (apply Z.pow_pos_nonneg; lia).
    assert (Hm : 0 <= m) by (subst m; apply Z.div_pos; lia).
    rewrite shr_1_spec by done. simpl shr_m. unfold loc_of in *.
    rewrite Nat2Z.inj_succ, !Z.pow_succ_r by lia.
    split.
    + subst m. rewrite Z.div_div by lia. f_equal. lia.
    + rewrite (Z.mul_comm 2 (2 ^ Z.of_nat n)), !Z.rem_mul_r by lia.
      rewrite <- IHm.
      assert (Hrem := Z.mod_pos_bound M (2 ^ Z.of_nat n) Hp).
      assert (Hb := Z.mod_pos_bound m 2 eq_refl).
      rewrite (Zodd_mod m).
      set (rem := M mod 2 ^ Z.of_nat n) in *. set (b := m mod 2) in *.
      destruct (Z.eqb_spec b 1) as [H1|H1]; destruct (Z.eqb_spec rem 0) as [H0|H0];
        destruct r, s; simpl in IHl; try discriminate IHl; simpl;
        match goal with |- context [?x =? 0] => destruct (Z.eqb_spec x 0) end; try lia;
        try reflexivity; f_equal;
        match goal with |- context [?x ?= ?y] => destruct (Z.compare_spec x y) end;
        try reflexivity; lia.
Qed.

Lemma round_loc_of (M n : Z) :
  0 <= n -> round_nearest_even (M / 2 ^ n) (loc_of M n) = rne M n.
Proof.
  intros Hn. unfold loc_of, rne.
  assert (Hp : 0 < 2 ^ n) by (apply Z.pow_pos_nonneg; lia).
  destruct (Z.eqb_spec (M mod 2 ^ n) 0) as [H0|H0]; simpl.
  - rewrite H0. by rewrite (proj2 (Z.compare_lt_iff _ _)) by lia.
  - by destruct (_ ?= _).
Qed.

(** The first half of [binary_round_aux] on an exact value *)
Lemma shr_exact (M e n : Z) :
  0 <= M ->
  let '(mrs, e') := shr (shr_record_of_loc M loc_Exact) e n in
  round_nearest_even (shr_m mrs) (loc_of_shr_record mrs) = rne M (Z.max n 0)
  /\ e' = e + Z.max n 0.
Proof.
  intros HM. destruct n as [|p|p]; simpl shr.
  - simpl. rewrite rne_zero. split; [done|lia].
  - rewrite iter_pos_nat.
    destruct (shr_iter M (Pos.to_nat p) HM) as [Hm Hl]. cbn zeta in *.
    rewrite positive_nat_Z in *.
    rewrite Hm, Hl, round_loc_of by lia. split; [f_equal|]; lia.
  - simpl. rewrite rne_zero. split; [done|lia].
Qed.

(** The mantissa after a shift, whatever the location *)
Lemma shr_1_m (mrs : shr_record) : 0 <= shr_m mrs -> shr_m (shr_1 mrs) = shr_m mrs / 2.
Proof. destruct mrs as [m r s]. intros Hm. simpl in Hm. by rewrite shr_1_spec. Qed.

Lemma shr_iter_m (mrs : shr_record) (n : nat) :
  0 <= shr_m mrs -> shr_m (Nat.iter n shr_1 mrs) = shr_m mrs / 2 ^ Z.of_nat n.
Proof.
  intros Hm. induction n as [|n IH].
  - simpl. by rewrite Z.div_1_r.
  - rewrite Nat.iter_succ.
    assert (Hp : 0 < 2 ^ Z.of_nat n) by (apply Z.pow_pos_nonneg; lia).
    rewrite shr_1_m; rewrite IH; [|apply Z.div_pos; lia].
    rewrite Nat2Z.inj_succ, Z.pow_succ_r by lia.
    rewrite Z.div_div by lia. f_equal. lia.
Qed.

Lemma fexp_eq (k : Z) : fexp Binary64.prec Binary64.emax k = Z.max (k - 53) (-1074).
Proof. reflexivity. Qed.

Lemma Zdigits2_log2 (M : Z) : 0 < M -> Zdigits2 M = Z.log2 M + 1.
Proof.
  destruct M as [|p|p]; try lia. intros _. simpl Zdigits2.
  apply digits_unique. replace (Z.log2 (Z.pos p) + 1 - 1) with (Z.log2 (Zpos p)) by lia.
  pose proof (Z.log2_spec (Zpos p) eq_refl). lia.
Qed.

Lemma Zdigits2_bounds (M : Z) : 0 < M -> 2 ^ (Zdigits2 M - 1) <= M < 2 ^ Zdigits2 M.
Proof. destruct M as [|p|p]; try lia. intros _. apply digits_bounds. Qed.

Lemma Zdigits2_pos (M : Z) : 0 < M -> 0 < Zdigits2 M.
Proof. destruct M; simpl; lia. Qed.

Lemma Zdigits2_shift (M j : Z) : 0 < M -> 0 <= j -> Zdigits2 (M * 2 ^ j) = Zdigits2 M + j.
Proof.
  intros HM Hj. assert (0 < 2 ^ j) by (apply Z.pow_pos_nonneg; lia).
  rewrite !Zdigits2_log2 by nia. rewrite Z.log2_mul_pow2 by lia. lia.
Qed.

Lemma Zdigits2_mono (M N : Z) : 0 < M -> M <= N -> Zdigits2 M <= Zdigits2 N.
Proof.
  intros HM HN. rewrite !Zdigits2_log2 by lia.
  pose proof (Z.log2_le_mono M N HN). lia.
Qed.

Lemma Zdigits2_le (M d : Z) : 0 < M -> M < 2 ^ d -> Zdigits2 M <= d.
Proof.
  intros HM Hd. destruct (Zdigits2_bounds M HM) as [Hl _].
  destruct (Z_le_gt_dec (Zdigits2 M) d) as [|Hgt]; [done|].
  assert (2 ^ d <= 2 ^ (Zdigits2 M - 1)) by (apply Z.pow_le_mono_r; lia). lia.
Qed.

Lemma Zdigits2_ge (M d : Z) : 0 <= d -> 2 ^ d <= M -> d + 1 <= Zdigits2 M.
Proof.
  intros Hd HM. assert (0 < 2 ^ d) by (apply Z.pow_pos_nonneg; lia).
  destruct (Zdigits2_bounds M ltac:(lia)) as [_ Hu].
  destruct (Z_le_gt_dec (d + 1) (Zdigits2 M)) as [|Hgt]; [done|].
  assert (2 ^ Zdigits2 M <= 2 ^ d) by (apply Z.pow_le_mono_r; lia). lia.
Qed.

Lemma div_pow_lt (N d n c : Z) :
  0 <= N -> N < 2 ^ d -> 0 <= n -> 0 <= c -> d <= n + c -> N / 2 ^ n < 2 ^ c.
Proof.
  intros HN Hd Hn Hc Hdn.
  assert (0 < 2 ^ n) by (apply Z.pow_pos_nonneg; lia).
  apply Z.div_lt_upper_bound; [lia|].
  rewrite <- Z.pow_add_r by lia.
  assert (2 ^ d <= 2 ^ (n + c)) by (apply Z.pow_le_mono_r; lia). lia.
Qed.

Lemma div_pow_ge (N d n : Z) :
  0 <= n -> n <= d -> 2 ^ d <= N -> 2 ^ (d - n) <= N / 2 ^ n.
Proof.
  intros Hn Hd HN.
  assert (0 < 2 ^ n) by (apply Z.pow_pos_nonneg; lia).
  apply Z.div_le_lower_bound; [lia|].
  rewrite <- Z.pow_add_r by lia. by replace (n + (d - n)) with d by lia.
Qed.

(** *** What [pack] returns *)

Lemma pack_spec (m f : Z) :
  0 <= m <= 2 ^ 53 -> -1074 <= f ->
  pack m f
  = if m =? 0 then S754_zero false
    else if m <? 2 ^ 53 then fin m f else fin (2 ^ 52) (f + 1).
Proof.
  intros Hm Hf. unfold pack, shr_fexp. rewrite fexp_eq.
  destruct (Z.eqb_spec m 0) as [->|Hm0].
  - simpl Zdigits2.
    replace (Z.max (0 + f - 53) (-1074) - f) with (- (f - Z.max (f - 53) (-1074))) by lia.
    destruct (f - Z.max (f - 53) (-1074)) as [|p|p] eqn:Hn; try lia; done.
  - assert (Hpos : 0 < m) by lia.
    destruct (Z.ltb_spec m (2 ^ 53)) as [Hlt|Hge].
    + pose proof (Zdigits2_le m 53 Hpos Hlt).
      destruct (Z.max (Zdigits2 m + f - 53) (-1074) - f) as [|p|p] eqn:Hn; try lia;
        simpl; destruct m; try lia; done.
    + assert (m = 2 ^ 53) as -> by lia.
      replace (Z.max (Zdigits2 (2 ^ 53) + f - 53) (-1074) - f) with 1
        by (change (Zdigits2 (2 ^ 53)) with 54; lia).
      unfold fin. simpl. reflexivity.
Qed.

Lemma binary_round_aux_pack (M e : Z) (l : location) :
  binary_round_aux Binary64.prec Binary64.emax false M e l
  = let '(mrs, e') := shr_fexp Binary64.prec Binary64.emax M e l in
    pack (round_nearest_even (shr_m mrs) (loc_of_shr_record mrs)) e'.
Proof. unfold binary_round_aux, pack. by destruct (shr_fexp Binary64.prec Binary64.emax M e l). Qed.

Lemma scaled_common (M e f E : Z) :
  E <= e -> E <= f -> scaled M e f = rne (M * 2 ^ (e - E)) (f - E).
Proof.
  intros He Hf. unfold scaled.
  replace (f - E) with (f - Z.min e f + (Z.min e f - E)) by lia.
  replace (e - E) with (e - Z.min e f + (Z.min e f - E)) by lia.
  rewrite (Z.pow_add_r _ (e - Z.min e f)) by lia.
  rewrite Z.mul_assoc, rne_scale by lia. done.
Qed.

(** *** [binary_round_aux] and [binary_round] on an exact value *)

Lemma binary_round_aux_exact (M e : Z) :
  0 < M -> e <= grid M e ->
  binary_round_aux Binary64.prec Binary64.emax false M e loc_Exact
  = pack (scaled M e (grid M e)) (grid M e).
Proof.
  intros HM He. rewrite binary_round_aux_pack. unfold shr_fexp. fold (grid M e).
  pose proof (shr_exact M e (grid M e - e) ltac:(lia)) as Hshr.
  destruct (shr _ e (grid M e - e)) as [mrs e']. destruct Hshr as [-> ->].
  rewrite (scaled_common M e (grid M e) e) by lia.
  rewrite Z.sub_diag, Z.mul_1_r. f_equal; [f_equal|]; lia.
Qed.

Lemma iter_xO (m d : positive) : Zpos (Pos.iter xO m d) = Zpos m * 2 ^ Zpos d.
Proof.
  induction d as [|d IH] using Pos.peano_ind.
  - simpl. lia.
  - rewrite Pos.iter_succ, Pos2Z.inj_xO, IH, Pos2Z.inj_succ, Z.pow_succ_r by lia. lia.
Qed.

Lemma shl_align_spec (m : positive) (e e' : Z) :
  shl_align m e e'
  = (Z.to_pos (Zpos m * 2 ^ (e - Z.min e e')), Z.min e e').
Proof.
  unfold shl_align.
  destruct (e' - e) as [|d|d] eqn:Hd.
  - replace (e - Z.min e e') with 0 by lia. simpl. f_equal; lia.
  - replace (e - Z.min e e') with 0 by lia. simpl. f_equal; lia.
  - replace (e - Z.min e e') with (Zpos d) by lia. rewrite <- iter_xO. simpl. f_equal. lia.
Qed.

Lemma binary_round_spec (M : positive) (e : Z) :
  binary_round Binary64.prec Binary64.emax false M e
  = pack (scaled (Zpos M) e (grid (Zpos M) e)) (grid (Zpos M) e).
Proof.
  unfold binary_round.
  change (fexp Binary64.prec Binary64.emax (Z.pos (digits2_pos M) + e)) with (grid (Zpos M) e).
  rewrite shl_align_spec.
  set (f := grid (Zpos M) e).
  set (E := Z.min e f).
  assert (Hpow : 0 < 2 ^ (e - E)) by (apply Z.pow_pos_nonneg; lia).
  assert (HM' : 0 < Zpos M * 2 ^ (e - E)) by lia.
  assert (Hgrid : grid (Zpos M * 2 ^ (e - E)) E = f).
  { unfold grid. rewrite Zdigits2_shift by lia.
    replace (Zdigits2 (Z.pos M) + (e - E) + E) with (Zdigits2 (Zpos M) + e) by lia. done. }
  destruct (Z.pos M * 2 ^ (e - E)) as [|N|N] eqn:HN; try lia. simpl Z.to_pos.
  rewrite binary_round_aux_exact; rewrite ?Hgrid; [|lia|lia].
  f_equal. rewrite <- HN.
  rewrite (scaled_common _ E f E) by lia.
  rewrite Z.sub_diag, Z.mul_1_r. unfold scaled. done.
Qed.

Lemma scaled_bounds (M e : Z) :
  0 < M ->
  let f := grid M e in
  0 <= scaled M e f <= 2 ^ 53 /\ (-1074 < f -> 2 ^ 52 <= scaled M e f) /\ -1074 <= f.
Proof.
  intros HM f. unfold scaled.
  set (E := Z.min e f).
  assert (Hf : f = Z.max (Zdigits2 M + e - 53) (-1074))
    by (subst f; unfold grid; by rewrite fexp_eq).
  assert (Hpow : 0 < 2 ^ (e - E)) by (apply Z.pow_pos_nonneg; lia).
  assert (Hpn : 0 < 2 ^ (f - E)) by (apply Z.pow_pos_nonneg; lia).
  set (N := M * 2 ^ (e - E)).
  assert (HN : 0 < N) by (subst N; lia).
  assert (Hd : Zdigits2 N = Zdigits2 M + (e - E)) by (subst N; apply Zdigits2_shift; lia).
  destruct (Zdigits2_bounds N HN) as [Hl Hu].
  pose proof (rne_bounds N (f - E)) as Hr.
  assert (Hq0 : 0 <= N / 2 ^ (f - E)) by (apply Z.div_pos; lia).
  assert (Hq : N / 2 ^ (f - E) < 2 ^ 53).
  { apply (div_pow_lt N (Zdigits2 N)); lia. }
  split; [lia|]. split; [|lia].
  intros Hnormal.
  assert (2 ^ (Zdigits2 N - 1 - (f - E)) <= N / 2 ^ (f - E)).
  { apply div_pow_ge; lia. }
  replace (Zdigits2 N - 1 - (f - E)) with 52 in * by lia. lia.
Qed.

Lemma grid_mono (M1 e1 M2 e2 : Z) :
  0 < M1 -> le_val M1 e1 M2 e2 -> grid M1 e1 <= grid M2 e2.
Proof.
  unfold le_val. intros HM Hle.
  set (E := Z.min e1 e2) in *.
  assert (H1 : 0 < 2 ^ (e1 - E)) by (apply Z.pow_pos_nonneg; lia).
  assert (H2 : 0 < 2 ^ (e2 - E)) by (apply Z.pow_pos_nonneg; lia).
  assert (HM2 : 0 < M2) by nia.
  assert (HN1 : 0 < M1 * 2 ^ (e1 - E)) by (apply Z.mul_pos_pos; lia).
  pose proof (Zdigits2_mono _ _ HN1 Hle) as Hd.
  rewrite !Zdigits2_shift in Hd by lia.
  unfold grid. rewrite !fexp_eq. lia.
Qed.

Lemma SFleb_zero_fin (s : bool) (m e : Z) : SFleb (S754_zero s) (fin m e) = true.
Proof. unfold fin. by destruct (e <=? 971). Qed.

Lemma fin_le (m1 e1 m2 e2 : Z) :
  0 < m1 -> 0 < m2 -> e1 < e2 \/ (e1 = e2 /\ m1 <= m2) ->
  SFleb (fin m1 e1) (fin m2 e2) = true.
Proof.
  intros H1 H2 Hle. unfold fin.
  destruct (Z.leb_spec e1 971), (Z.leb_spec e2 971); try done; try lia.
  unfold SFleb, SFcompare.
  destruct (Z.compare_spec e1 e2); try done; try lia.
  change (Pos.compare_cont Eq (Z.to_pos m1) (Z.to_pos m2))
    with (Z.to_pos m1 ?= Z.to_pos m2)%positive.
  destruct (Pos.compare_spec (Z.to_pos m1) (Z.to_pos m2)); try done. lia.
Qed.

(** Rounding is monotone. *)
Lemma binary_round_mono (M1 M2 : positive) (e1 e2 : Z) :
  le_val (Zpos M1) e1 (Zpos M2) e2 ->
  SFleb (binary_round Binary64.prec Binary64.emax false M1 e1)
    (binary_round Binary64.prec Binary64.emax false M2 e2) = true.
Proof.
  intros Hle. rewrite !binary_round_spec.
  pose proof (grid_mono (Zpos M1) e1 (Zpos M2) e2 eq_refl Hle) as Hgrid.
  destruct (scaled_bounds (Zpos M1) e1 eq_refl) as (Hm1 & Hn1 & Hf1).
  destruct (scaled_bounds (Zpos M2) e2 eq_refl) as (Hm2 & Hn2 & Hf2).
  set (f1 := grid (Zpos M1) e1) in *. set (f2 := grid (Zpos M2) e2) in *.
  rewrite !pack_spec by lia.
  destruct (Z.eq_dec f1 f2) as [Heq|Hne].
  - assert (Hm : scaled (Zpos M1) e1 f1 <= scaled (Zpos M2) e2 f2).
    { set (E := Z.min (Z.min e1 e2) f1).
      rewrite (scaled_common _ e1 f1 E), (scaled_common _ e2 f2 E) by lia.
      rewrite <- Heq. apply rne_mono; [lia|].
      unfold le_val in Hle.
      assert (0 < 2 ^ (Z.min e1 e2 - E)) by (apply Z.pow_pos_nonneg; lia).
      replace (e1 - E) with (e1 - Z.min e1 e2 + (Z.min e1 e2 - E)) by lia.
      replace (e2 - E) with (e2 - Z.min e1 e2 + (Z.min e1 e2 - E)) by lia.
      rewrite !Z.pow_add_r by lia. nia. }
    set (m1 := scaled (Zpos M1) e1 f1) in *. set (m2 := scaled (Zpos M2) e2 f2) in *.
    destruct (Z.eqb_spec m1 0), (Z.eqb_spec m2 0); try lia; [done| |].
    + destruct (m2 <? 2 ^ 53); apply SFleb_zero_fin.
    + destruct (Z.ltb_spec m1 (2 ^ 53)), (Z.ltb_spec m2 (2 ^ 53)); try lia;
        apply fin_le; lia.
  - assert (Hlt : f1 < f2) by lia.
    set (m1 := scaled (Zpos M1) e1 f1) in *. set (m2 := scaled (Zpos M2) e2 f2) in *.
    specialize (Hn2 ltac:(lia)).
    destruct (Z.eqb_spec m2 0); [lia|].
    destruct (Z.eqb_spec m1 0).
    + destruct (m2 <? 2 ^ 53); apply SFleb_zero_fin.
    + destruct (Z.ltb_spec m1 (2 ^ 53)), (Z.ltb_spec m2 (2 ^ 53)); try lia;
        apply fin_le; lia.
Qed.

(** A number of the format rounds to itself. *)
Lemma binary_round_canonical (m : positive) (e : Z) :
  bounded Binary64.prec Binary64.emax m e = true ->
  binary_round Binary64.prec Binary64.emax false m e = S754_finite false m e.
Proof.
  unfold bounded, canonical_mantissa. intros Hb.
  apply andb_prop in Hb as [Hc He].
  apply Z.eqb_eq in Hc. apply Z.leb_le in He.
  rewrite binary_round_spec. unfold grid. simpl Zdigits2. rewrite Hc.
  unfold scaled. rewrite Z.min_id, Z.sub_diag, Z.mul_1_r, rne_zero.
  rewrite fexp_eq in Hc.
  pose proof (digits_bounds m) as [Hl Hu].
  assert (Zpos m < 2 ^ 53).
  { assert (2 ^ Zpos (digits2_pos m) <= 2 ^ 53) by (apply Z.pow_le_mono_r; lia). lia. }
  rewrite pack_spec by lia.
  destruct (Z.eqb_spec (Zpos m) 0); [lia|].
  destruct (Z.ltb_spec (Zpos m) (2 ^ 53)); [|lia].
  unfold fin. change (Binary64.emax - Binary64.prec) with 971 in He.
  destruct (Z.leb_spec e 971); [done|lia].
Qed.

(** The mantissa and the exponent of a number of the format *)
Lemma bounded_facts (m : positive) (e : Z) :
  bounded Binary64.prec Binary64.emax m e = true ->
  -1074 <= e <= 971 /\ Zpos m < 2 ^ 53 /\ (-1074 < e -> 2 ^ 52 <= Zpos m).
Proof.
  unfold bounded, canonical_mantissa. intros Hb.
  apply andb_prop in Hb as [Hc He].
  apply Z.eqb_eq in Hc. apply Z.leb_le in He. change (Binary64.emax - Binary64.prec) with 971 in He.
  rewrite fexp_eq in Hc.
  pose proof (digits_bounds m) as [Hl Hu].
  split; [lia|]. split.
  - assert (2 ^ Zpos (digits2_pos m) <= 2 ^ 53) by (apply Z.pow_le_mono_r; lia). lia.
  - intros Hn. by replace (Zpos (digits2_pos m) - 1) with 52 in Hl by lia.
Qed.

(** The order of the format is the order of the values. *)
Lemma SFleb_le_val (m1 m2 : positive) (e1 e2 : Z) :
  bounded Binary64.prec Binary64.emax m1 e1 = true ->
  bounded Binary64.prec Binary64.emax m2 e2 = true ->
  SFleb (S754_finite false m1 e1) (S754_finite false m2 e2) = true ->
  le_val (Zpos m1) e1 (Zpos m2) e2.
Proof.
  intros Hb1 Hb2. unfold SFleb, SFcompare, le_val.
  apply bounded_facts in Hb1 as (He1 & Hm1 & Hn1), Hb2 as (He2 & Hm2 & Hn2).
  destruct (Z.compare_spec e1 e2) as [->|Hlt|Hgt]; try done.
  - change (Pos.compare_cont Eq m1 m2) with (m1 ?= m2)%positive.
    destruct (Pos.compare_spec m1 m2); try done; intros _;
      rewrite Z.min_id, Z.sub_diag; lia.
  - intros _. replace (Z.min e1 e2) with e1 by lia. rewrite Z.sub_diag.
    specialize (Hn2 ltac:(lia)).
    assert (2 ^ 1 <= 2 ^ (e2 - e1)) by (apply Z.pow_le_mono_r; lia).
    change (2 ^ 1) with 2 in *. change (2 ^ 53) with (2 * 2 ^ 52) in *. nia.
Qed.

Lemma regular_weaken (B B' : Z) (x : spec_float) :
  B <= B' -> regular B x = true -> regular B' x = true.
Proof.
  intros HB. destruct x as [| | |[] m e]; simpl; try done.
  intros H. apply andb_prop in H as [-> He]. apply Z.leb_le in He. simpl. apply Z.leb_le. lia.
Qed.

Lemma Zdigits2_to_pos (m : Z) : 0 < m -> Zpos (digits2_pos (Z.to_pos m)) = Zdigits2 m.
Proof. destruct m; try lia. done. Qed.

Lemma fin_regular (m e B : Z) :
  0 < m -> m < 2 ^ 53 -> -1074 <= e -> (-1074 < e -> 2 ^ 52 <= m) -> e <= B -> B <= 971 ->
  regular B (fin m e) = true.
Proof.
  intros Hm Hu He Hn HB HB'. unfold fin.
  destruct (Z.leb_spec e 971); [|lia]. simpl.
  unfold bounded, canonical_mantissa. rewrite Zdigits2_to_pos, fexp_eq by done.
  pose proof (Zdigits2_le m 53 Hm Hu).
  apply andb_true_intro. split; [apply andb_true_intro; split|]; try apply Z.leb_le;
    try apply Z.eqb_eq; try (change (Binary64.emax - Binary64.prec) with 971); try lia.
  destruct (Z.eq_dec e (-1074)) as [->|Hne]; [lia|].
  pose proof (Zdigits2_ge m 52 ltac:(lia) (Hn ltac:(lia))). lia.
Qed.

Lemma pack_regular (m f B : Z) :
  0 <= m <= 2 ^ 53 -> -1074 <= f -> (-1074 < f -> 2 ^ 52 <= m) -> f + 1 <= B -> B <= 971 ->
  regular B (pack m f) = true.
Proof.
  intros Hm Hf Hn HB HB'. rewrite pack_spec by lia.
  destruct (Z.eqb_spec m 0); [done|].
  destruct (Z.ltb_spec m (2 ^ 53)).
  - apply fin_regular; lia.
  - apply fin_regular; try lia; done.
Qed.

Lemma binary_round_regular (M : positive) (e B : Z) :
  grid (Zpos M) e + 1 <= B -> B <= 971 ->
  regular B (binary_round Binary64.prec Binary64.emax false M e) = true.
Proof.
  intros HB HB'. rewrite binary_round_spec.
  destruct (scaled_bounds (Zpos M) e eq_refl) as (Hm & Hn & Hf).
  by apply pack_regular.
Qed.

Lemma binary_round_aux_regular (M e B : Z) :
  0 < M -> e <= grid M e -> grid M e + 1 <= B -> B <= 971 ->
  regular B (binary_round_aux Binary64.prec Binary64.emax false M e loc_Exact) = true.
Proof.
  intros HM He HB HB'. rewrite binary_round_aux_exact by done.
  destruct (scaled_bounds M e HM) as (Hm & Hn & Hf).
  by apply pack_regular.
Qed.

(** *** Addition *)

Lemma SFadd_finite (mx my : positive) (ex ey : Z) :
  SFadd Binary64.prec Binary64.emax (S754_finite false mx ex) (S754_finite false my ey)
  = binary_round Binary64.prec Binary64.emax false
      (Z.to_pos (Zpos mx * 2 ^ (ex - Z.min ex ey) + Zpos my * 2 ^ (ey - Z.min ex ey)))
      (Z.min ex ey).
Proof.
  unfold SFadd, cond_Zopp. rewrite !shl_align_spec. simpl fst.
  replace (Z.min ex (Z.min ex ey)) with (Z.min ex ey) by lia.
  replace (Z.min ey (Z.min ex ey)) with (Z.min ex ey) by lia.
  assert (0 < 2 ^ (ex - Z.min ex ey)) by (apply Z.pow_pos_nonneg; lia).
  assert (0 < 2 ^ (ey - Z.min ex ey)) by (apply Z.pow_pos_nonneg; lia).
  rewrite !Z2Pos.id by lia.
  destruct (Zpos mx * 2 ^ (ex - Z.min ex ey) + Zpos my * 2 ^ (ey - Z.min ex ey)) eqn:Hs; try lia.
  done.
Qed.

Lemma pow2_split (a b c : Z) : c <= b -> b <= a -> 2 ^ (a - c) = 2 ^ (a - b) * 2 ^ (b - c).
Proof. intros. rewrite <- Z.pow_add_r by lia. f_equal. lia. Qed.

Lemma le_val_common (M1 e1 M2 e2 E : Z) :
  E <= e1 -> E <= e2 ->
  le_val M1 e1 M2 e2 <-> M1 * 2 ^ (e1 - E) <= M2 * 2 ^ (e2 - E).
Proof.
  intros H1 H2. unfold le_val.
  rewrite (pow2_split e1 (Z.min e1 e2) E), (pow2_split e2 (Z.min e1 e2) E) by lia.
  assert (0 < 2 ^ (Z.min e1 e2 - E)) by (apply Z.pow_pos_nonneg; lia).
  split; nia.
Qed.

Lemma SFadd_regular (B : Z) (x y : spec_float) :
  regular B x = true -> regular B y = true -> B + 2 <= 971 ->
  regular (B + 2) (SFadd Binary64.prec Binary64.emax x y) = true.
Proof.
  intros Hx Hy HB.
  destruct x as [sx| | |[] mx ex], y as [sy| | |[] my ey]; try done.
  - by destruct sx, sy.
  - apply (regular_weaken B); [lia|done].
  - apply (regular_weaken B); [lia|done].
  - rewrite SFadd_finite.
    simpl in Hx, Hy. apply andb_prop in Hx as [Hx Hex], Hy as [Hy Hey].
    apply Z.leb_le in Hex, Hey.
    apply bounded_facts in Hx as (Hx1 & Hx2 & _), Hy as (Hy1 & Hy2 & _).
    set (E := Z.min ex ey).
    assert (Hpx : 0 < 2 ^ (ex - E)) by (apply Z.pow_pos_nonneg; lia).
    assert (Hpy : 0 < 2 ^ (ey - E)) by (apply Z.pow_pos_nonneg; lia).
    set (N := Zpos mx * 2 ^ (ex - E) + Zpos my * 2 ^ (ey - E)).
    assert (HN : 0 < N) by (subst N; nia).
    apply binary_round_regular; [|lia].
    rewrite Z2Pos.id by done. unfold grid. rewrite fexp_eq.
    assert (Hd : Zdigits2 N <= 54 + B - E).
    { apply Zdigits2_le; [done|].
      assert (H1 : 2 ^ 53 * 2 ^ (ex - E) <= 2 ^ (53 + B - E)).
      { rewrite <- Z.pow_add_r by lia. apply Z.pow_le_mono_r; lia. }
      assert (H2 : 2 ^ 53 * 2 ^ (ey - E) <= 2 ^ (53 + B - E)).
      { rewrite <- Z.pow_add_r by lia. apply Z.pow_le_mono_r; lia. }
      replace (54 + B - E) with (Z.succ (53 + B - E)) by lia.
      rewrite Z.pow_succ_r by lia. subst N. nia. }
    lia.
Qed.

Lemma SFleb_refl_finite (m : positive) (e : Z) :
  SFleb (S754_finite false m e) (S754_finite false m e) = true.
Proof.
  unfold SFleb, SFcompare. rewrite Z.compare_refl.
  change (Pos.compare_cont Eq m m) with (m ?= m)%positive. by rewrite Pos.compare_refl.
Qed.

(** Adding a positive number of the format keeps the order. *)
Lemma SFadd_mono (B : Z) (x y : spec_float) (mc : positive) (ec : Z) :
  regular B x = true -> regular B y = true -> bounded Binary64.prec Binary64.emax mc ec = true ->
  SFleb y x = true ->
  SFleb (SFadd Binary64.prec Binary64.emax y (S754_finite false mc ec))
    (SFadd Binary64.prec Binary64.emax x (S754_finite false mc ec))
  = true.
Proof.
  intros Hx Hy Hc Hle.
  destruct x as [sx| | |[] mx ex], y as [sy| | |[] my ey]; try done.
  - apply SFleb_refl_finite.
  - simpl SFadd at 1.
    rewrite <- (binary_round_canonical mc ec Hc) at 1.
    rewrite SFadd_finite. apply binary_round_mono.
    set (E := Z.min ex ec).
    assert (Hpx : 0 < 2 ^ (ex - E)) by (apply Z.pow_pos_nonneg; lia).
    assert (Hpc : 0 < 2 ^ (ec - E)) by (apply Z.pow_pos_nonneg; lia).
    rewrite Z2Pos.id by nia.
    apply (le_val_common _ _ _ _ E); [lia|lia|].
    rewrite Z.sub_diag, Z.mul_1_r. nia.
  - rewrite !SFadd_finite. apply binary_round_mono.
    simpl in Hx, Hy. apply andb_prop in Hx as [Hx _], Hy as [Hy _].
    pose proof (SFleb_le_val _ _ _ _ Hy Hx Hle) as Hv.
    set (E := Z.min (Z.min ex ey) ec).
    apply (le_val_common _ _ _ _ E) in Hv; [|lia|lia].
    assert (0 < 2 ^ (ex - Z.min ex ec)) by (apply Z.pow_pos_nonneg; lia).
    assert (0 < 2 ^ (ey - Z.min ey ec)) by (apply Z.pow_pos_nonneg; lia).
    assert (0 < 2 ^ (ec - Z.min ex ec)) by (apply Z.pow_pos_nonneg; lia).
    assert (0 < 2 ^ (ec - Z.min ey ec)) by (apply Z.pow_pos_nonneg; lia).
    rewrite !Z2Pos.id by nia.
    apply (le_val_common _ _ _ _ E); [lia|lia|].
    rewrite !Z.mul_add_distr_r, <- !Z.mul_assoc.
    rewrite <- !pow2_split by lia. lia.
Qed.

(** A sum with a positive number is positive. *)
Lemma SFadd_positive (B : Z) (x : spec_float) (mc : positive) (ec : Z) :
  regular B x = true -> bounded Binary64.prec Binary64.emax mc ec = true ->
  ec <= B -> B + 2 <= 971 ->
  exists m e,
    SFadd Binary64.prec Binary64.emax x (S754_finite false mc ec) = S754_finite false m e
    /\ bounded Binary64.prec Binary64.emax m e = true.
Proof.
  intros Hx Hc Hec HB.
  assert (Hreg : regular (B + 2) (SFadd Binary64.prec Binary64.emax x (S754_finite false mc ec))
                 = true).
  { apply SFadd_regular; [done| |done]. simpl. rewrite Hc. simpl. apply Z.leb_le. lia. }
  assert (Hle : SFleb (S754_finite false mc ec)
                  (SFadd Binary64.prec Binary64.emax x (S754_finite false mc ec))
                = true).
  { apply (SFadd_mono B x (S754_zero false) mc ec); try done.
    destruct x as [| | |[] m e]; done. }
  destruct (SFadd Binary64.prec Binary64.emax x (S754_finite false mc ec)) as [| | |[] m e];
    try done.
  simpl in Hreg. apply andb_prop in Hreg as [Hb _]. eauto.
Qed.

(** *** Division *)

Lemma div_eucl_div_mod (a b : Z) : Z.div_eucl a b = (a / b, a mod b).
Proof. unfold Z.div, Z.modulo. by destruct (Z.div_eucl a b). Qed.

Lemma new_location_zero (m : Z) : new_location m 0 = loc_Exact.
Proof. unfold new_location, new_location_even, new_location_odd. by destruct (Z.even m). Qed.

(** A finite number other than zero, divided by itself, is one. *)
Lemma SFdiv_self (s : bool) (m : positive) (e : Z) :
  SFdiv Binary64.prec Binary64.emax (S754_finite s m e) (S754_finite s m e) = Binary64.one.
Proof.
  unfold SFdiv, SFdiv_core_binary.
  replace (Zdigits2 (Z.pos m) + e - (Zdigits2 (Z.pos m) + e)) with 0 by lia.
  rewrite Z.sub_diag. change (Z.min (fexp Binary64.prec Binary64.emax 0) 0) with (-53).
  change (0 - -53) with 53.
  rewrite Z.shiftl_mul_pow2 by lia.
  rewrite div_eucl_div_mod, Z.mul_comm, Z.div_mul, Z.mod_mul by lia.
  rewrite new_location_zero. by destruct s.
Qed.

Lemma round_nearest_even_bounds (m : Z) (l : location) :
  m <= round_nearest_even m l <= m + 1.
Proof. destruct l as [|[]]; simpl; try destruct (Z.even m); lia. Qed.

Lemma shr_m_spec (m e n : Z) (l : location) :
  0 <= m ->
  let '(mrs, e') := shr (shr_record_of_loc m l) e n in
  shr_m mrs = m / 2 ^ Z.max n 0 /\ e' = e + Z.max n 0.
Proof.
  intros Hm.
  assert (Hrec : shr_m (shr_record_of_loc m l) = m) by (by destruct l as [|[]]).
  destruct n as [|p|p]; cbn [shr].
  - cbn [Z.max Z.compare Z.pow]. rewrite Hrec, Z.div_1_r. split; [done|lia].
  - rewrite iter_pos_nat, shr_iter_m, Hrec, positive_nat_Z by (by rewrite Hrec).
    split; [done|lia].
  - replace (Z.max (Z.neg p) 0) with 0 by lia.
    change (2 ^ 0) with 1. rewrite Hrec, Z.div_1_r. split; [done|lia].
Qed.

(** A quotient of at least 53 digits and of magnitude at least one rounds
    to a number that is at least one. *)
Lemma binary_round_aux_ge_one (q e : Z) (l : location) :
  2 ^ 52 <= q -> 1 <= Zdigits2 q + e ->
  SFleb Binary64.one (binary_round_aux Binary64.prec Binary64.emax false q e l) = true.
Proof.
  intros Hq Hmag. rewrite binary_round_aux_pack. unfold shr_fexp. rewrite fexp_eq.
  assert (Hpos : 0 < q) by lia.
  pose proof (Zdigits2_ge q 52 ltac:(lia) Hq) as Hd.
  destruct (Zdigits2_bounds q Hpos) as [Hl Hu].
  replace (Z.max (Zdigits2 q + e - 53) (-1074) - e) with (Zdigits2 q - 53) by lia.
  pose proof (shr_m_spec q e (Zdigits2 q - 53) l ltac:(lia)) as Hshr.
  destruct (shr _ e (Zdigits2 q - 53)) as [mrs e']. destruct Hshr as [Hm ->].
  replace (Z.max (Zdigits2 q - 53) 0) with (Zdigits2 q - 53) in * by lia.
  pose proof (round_nearest_even_bounds (shr_m mrs) (loc_of_shr_record mrs)) as Hr.
  set (r := round_nearest_even (shr_m mrs) (loc_of_shr_record mrs)) in *.
  assert (Hlow : 2 ^ 52 <= shr_m mrs).
  { rewrite Hm. replace 52 with (Zdigits2 q - 1 - (Zdigits2 q - 53)) at 1 by lia.
    apply div_pow_ge; lia. }
  assert (Hup : shr_m mrs < 2 ^ 53).
  { rewrite Hm. apply (div_pow_lt q (Zdigits2 q)); lia. }
  rewrite pack_spec by lia.
  destruct (Z.eqb_spec r 0); [lia|].
  change Binary64.one with (fin (2 ^ 52) (-52)).
  destruct (Z.ltb_spec r (2 ^ 53)); apply fin_le; lia.
Qed.

(** The quotient of a number of the format by a smaller one is at least
    one. *)
Lemma SFdiv_ge_one (mx my : positive) (ex ey : Z) :
  bounded Binary64.prec Binary64.emax mx ex = true ->
  bounded Binary64.prec Binary64.emax my ey = true ->
  SFleb (S754_finite false my ey) (S754_finite false mx ex) = true ->
  SFleb Binary64.one
    (SFdiv Binary64.prec Binary64.emax (S754_finite false mx ex) (S754_finite false my ey))
  = true.
Proof.
  intros Hx Hy Hle.
  pose proof (SFleb_le_val _ _ _ _ Hy Hx Hle) as Hv.
  assert (Hexp : ey <= ex).
  { revert Hle. unfold SFleb, SFcompare. destruct (Z.compare_spec ey ex); try done; lia. }
  apply (le_val_common _ _ _ _ ey) in Hv; [|lia|lia].
  rewrite Z.sub_diag, Z.mul_1_r in Hv.
  apply bounded_facts in Hx as (Hx1 & Hx2 & Hx3), Hy as (Hy1 & Hy2 & Hy3).
  unfold SFdiv, SFdiv_core_binary. rewrite fexp_eq.
  set (dx := Zdigits2 (Zpos mx)). set (dy := Zdigits2 (Zpos my)).
  destruct (Zdigits2_bounds (Zpos mx) eq_refl) as [Hdx1 Hdx2].
  destruct (Zdigits2_bounds (Zpos my) eq_refl) as [Hdy1 Hdy2].
  fold dx in Hdx1, Hdx2. fold dy in Hdy1, Hdy2.
  pose proof (Zdigits2_pos (Zpos mx) eq_refl) as Hdxp. fold dx in Hdxp.
  pose proof (Zdigits2_pos (Zpos my) eq_refl) as Hdyp. fold dy in Hdyp.
  pose proof (Zdigits2_le (Zpos mx) 53 eq_refl Hx2) as Hdx53. fold dx in Hdx53.
  pose proof (Zdigits2_le (Zpos my) 53 eq_refl Hy2) as Hdy53. fold dy in Hdy53.
  set (e' := Z.min (Z.max (dx + ex - (dy + ey) - 53) (-1074)) (ex - ey)).
  assert (He' : e' <= dx + ex - (dy + ey) - 53) by lia.
  set (s := ex - ey - e').
  assert (Hs : 0 <= s) by lia.
  set (A := match s with Z.pos _ => Z.shiftl (Z.pos mx) s | 0 => Z.pos mx | Z.neg _ => 0 end).
  assert (HA : A = Zpos mx * 2 ^ s).
  { subst A. destruct s eqn:Hseq; [simpl; lia|by rewrite Z.shiftl_mul_pow2|lia]. }
  rewrite div_eucl_div_mod.
  assert (Hps : 0 < 2 ^ s) by (apply Z.pow_pos_nonneg; lia).
  assert (Hq : 2 ^ 52 <= A / Zpos my).
  { apply Z.div_le_lower_bound; [lia|].
    assert (H1 : 2 ^ (dx - 1 + s) <= A).
    { rewrite HA, Z.pow_add_r by lia. nia. }
    assert (H2 : 2 ^ (dy + 52) <= 2 ^ (dx - 1 + s)) by (apply Z.pow_le_mono_r; lia).
    rewrite Z.pow_add_r in H2 by lia. nia. }
  apply binary_round_aux_ge_one; [done|].
  destruct (Z_le_gt_dec e' 0) as [Hneg|Hposi].
  - assert (2 ^ (- e') <= A / Zpos my).
    { apply Z.div_le_lower_bound; [lia|].
      assert (Hsplit : 2 ^ s = 2 ^ (ex - ey) * 2 ^ (- e')).
      { rewrite <- Z.pow_add_r by lia. f_equal; lia. }
      assert (0 < 2 ^ (- e')) by (apply Z.pow_pos_nonneg; lia).
      rewrite HA, Hsplit. nia. }
    pose proof (Zdigits2_ge (A / Zpos my) (- e') ltac:(lia) ltac:(lia)). lia.
  - pose proof (Zdigits2_ge (A / Zpos my) 52 ltac:(lia) Hq). lia.
Qed.

(** *** Multiplication *)

Lemma SFmul_regular (B1 B2 B : Z) (x y : spec_float) :
  regular B1 x = true -> regular B2 y = true ->
  B1 + B2 + 54 <= B -> -1073 <= B -> B <= 971 ->
  regular B (SFmul Binary64.prec Binary64.emax x y) = true.
Proof.
  intros Hx Hy HB HB' HB''.
  destruct x as [sx| | |[] mx ex], y as [sy| | |[] my ey]; try done.
  simpl in Hx, Hy. apply andb_prop in Hx as [Hx Hex], Hy as [Hy Hey].
  apply Z.leb_le in Hex, Hey.
  apply bounded_facts in Hx as (Hx1 & Hx2 & Hx3), Hy as (Hy1 & Hy2 & Hy3).
  unfold SFmul. simpl xorb. rewrite Pos2Z.inj_mul.
  assert (Hprod : 0 < Zpos mx * Zpos my) by lia.
  assert (Hup : Zpos mx * Zpos my < 2 ^ 106).
  { change (2 ^ 106) with (2 ^ 53 * 2 ^ 53). nia. }
  pose proof (Zdigits2_le _ 106 Hprod Hup) as Hd.
  assert (Hgrid : grid (Zpos mx * Zpos my) (ex + ey)
                  = Z.max (Zdigits2 (Zpos mx * Zpos my) + (ex + ey) - 53) (-1074)).
  { unfold grid. by rewrite fexp_eq. }
  apply binary_round_aux_regular; try done; rewrite Hgrid; [|lia].
  destruct (Z_le_gt_dec (ex + ey) (-1074)) as [|Hgt]; [lia|].
  assert (Hbig : 2 ^ 52 <= Zpos mx * Zpos my).
  { destruct (Z_le_gt_dec ex (-1074)) as [|Hxn].
    - specialize (Hy3 ltac:(lia)). nia.
    - specialize (Hx3 ltac:(lia)). nia. }
  pose proof (Zdigits2_ge _ 52 ltac:(lia) Hbig). lia.
Qed.

(** *** Comparisons *)

Lemma SFcompare_antisym (x y : spec_float) :
  SFcompare y x = option_map CompOpp (SFcompare x y).
Proof.
  destruct x as [[]|[]| |[] mx ex], y as [[]|[]| |[] my ey]; try reflexivity; simpl;
    assert (Hm : Pos.compare_cont Eq my mx = CompOpp (Pos.compare_cont Eq mx my))
      by (symmetry; apply (Pos.compare_cont_antisym mx my Eq));
    rewrite (Z.compare_antisym ex ey), Hm;
    destruct (ex ?= ey); simpl; try reflexivity;
    by destruct (Pos.compare_cont Eq mx my).
Qed.

Lemma SFcompare_Eq (x y : spec_float) :
  SFcompare x y = Some Eq ->
  x = y \/ exists s s', x = S754_zero s /\ y = S754_zero s'.
Proof.
  destruct x as [sx|[]| |[] mx ex], y as [sy|[]| |[] my ey]; try done; simpl;
    try (intros _; right; by eauto); try (intros _; by left).
  - destruct (Z.compare_spec ex ey) as [->| |]; try done.
    intros [= H]. destruct (Pos.compare_cont Eq mx my) eqn:Hc; try done.
    apply Pos.compare_eq in Hc. left. by subst.
  - destruct (Z.compare_spec ex ey) as [->| |]; try done.
    intros [= H]. apply Pos.compare_eq in H. left. by subst.
Qed.

Lemma max_comm (x y : spec_float) : Binary64.max x y = Binary64.max y x.
Proof.
  unfold Binary64.max. rewrite (orb_comm (Binary64.isNaN y)).
  destruct (Binary64.isNaN x || Binary64.isNaN y) eqn:Hnan; [done|].
  unfold SFltb. rewrite (SFcompare_antisym x y).
  destruct (SFcompare x y) as [[]|] eqn:Hc; simpl; try done.
  - apply SFcompare_Eq in Hc as [->|(s & s' & -> & ->)]; [by destruct y as [[]| | |]|].
    by destruct s, s'.
  - destruct x as [[]| | |], y as [[]| | |]; done.
Qed.

Lemma min_comm (x y : spec_float) : Binary64.min x y = Binary64.min y x.
Proof.
  unfold Binary64.min. rewrite (orb_comm (Binary64.isNaN y)).
  destruct (Binary64.isNaN x || Binary64.isNaN y) eqn:Hnan; [done|].
  unfold SFltb. rewrite (SFcompare_antisym x y).
  destruct (SFcompare x y) as [[]|] eqn:Hc; simpl; try done.
  - apply SFcompare_Eq in Hc as [->|(s & s' & -> & ->)]; [by destruct y as [[]| | |]|].
    by destruct s, s'.
  - destruct x as [[]| | |], y as [[]| | |]; done.
Qed.

(** Of two numbers that are zero or positive, [Math.max] is one and
    [Math.min] the other, which is not above it. *)
Lemma max_min_cases (B : Z) (x y : spec_float) :
  regular B x = true -> regular B y = true ->
  (Binary64.max x y = x /\ Binary64.min x y = y /\ SFleb y x = true)
  \/ (Binary64.max x y = y /\ Binary64.min x y = x /\ SFleb x y = true).
Proof.
  intros Hx Hy.
  assert (Hnan : Binary64.isNaN x || Binary64.isNaN y = false).
  { destruct x as [| | |[]], y as [| | |[]]; done. }
  unfold Binary64.max, Binary64.min. rewrite Hnan.
  unfold SFltb, SFleb. rewrite (SFcompare_antisym x y).
  destruct (SFcompare x y) as [[]|] eqn:Hc; simpl.
  - apply SFcompare_Eq in Hc as [->|(s & s' & -> & ->)].
    + left. destruct y as [[]| | |[] m e]; try done;
        repeat split; try done; apply SFleb_refl_finite.
    + destruct s, s'; simpl; tauto.
  - right. done.
  - left. done.
  - destruct x as [| | |[]], y as [| | |[]]; done.
Qed.

Lemma max_min_self (B : Z) (x : spec_float) :
  regular B x = true -> Binary64.max x x = x /\ Binary64.min x x = x.
Proof.
  intros Hx. destruct (max_min_cases B x x Hx Hx) as [(H1 & H2 & _)|(H1 & H2 & _)]; done.
Qed.

(** *** Luminance and contrast ratio *)

Lemma unitInterval_regular (x : spec_float) :
  unitInterval x = true -> regular (-52) x = true.
Proof.
  unfold unitInterval. intros H.
  apply andb_prop in H as [H Hone]. apply andb_prop in H as [Hvalid Hzero].
  destruct x as [s|[]| |[] m e]; try done.
  simpl in *. rewrite Hvalid. simpl. apply Z.leb_le.
  revert Hone. unfold Binary64.one, SFleb, SFcompare.
  destruct (Z.compare_spec e (-52)); try done; lia.
Qed.

Lemma in_channelValues (c : Z) : 0 <= c <= 255 -> In c channelValues.
Proof.
  intros Hc. unfold channelValues. apply in_map_iff. exists (Z.to_nat c).
  split; [lia|]. apply in_seq. lia.
Qed.

Lemma channelCheck_all : forallb channelCheck channelValues = true.
Proof. vm_compute. reflexivity. Qed.

Lemma linearValue_regular (pow : spec_float -> spec_float -> spec_float) (c : Z) :
  powOnUnit pow -> 0 <= c <= 255 -> regular (-52) (linearValue pow c) = true.
Proof.
  intros Hpow Hc.
  pose proof (proj1 (forallb_forall _ _) channelCheck_all c (in_channelValues c Hc)) as Hcheck.
  unfold channelCheck in Hcheck. unfold linearValue.
  destruct (SFleb _ (Binary64.ofDecimal 3928 5)).
  - by apply unitInterval_regular.
  - apply andb_prop in Hcheck as [Hpos Hunit].
    apply unitInterval_regular, Hpow; done.
Qed.

Section Luminance.
Variable pow : spec_float -> spec_float -> spec_float.
Variable fixed : spec_float -> nat -> string.
Variable selectorText : Document -> string -> Outcome (option Node).

Lemma getLuminance_linear (cr cg cb : Z) :
  @Contrast.getLuminance (Binary64.host pow fixed selectorText)
    (Binary64.ofInteger cr) (Binary64.ofInteger cg) (Binary64.ofInteger cb)
  = SFadd Binary64.prec Binary64.emax
      (SFadd Binary64.prec Binary64.emax
         (SFmul Binary64.prec Binary64.emax (Binary64.ofDecimal 2126 4) (linearValue pow cr))
         (SFmul Binary64.prec Binary64.emax (Binary64.ofDecimal 7152 4) (linearValue pow cg)))
      (SFmul Binary64.prec Binary64.emax (Binary64.ofDecimal 722 4) (linearValue pow cb)).
Proof. reflexivity. Qed.

Lemma getLuminance_regular (cr cg cb : Z) :
  powOnUnit pow -> 0 <= cr <= 255 -> 0 <= cg <= 255 -> 0 <= cb <= 255 ->
  regular (-47)
    (@Contrast.getLuminance (Binary64.host pow fixed selectorText)
       (Binary64.ofInteger cr) (Binary64.ofInteger cg) (Binary64.ofInteger cb)) = true.
Proof.
  intros Hpow Hr Hg Hb. rewrite getLuminance_linear.
  apply (SFadd_regular (-49)); [|apply (regular_weaken (-51)); [lia|]|lia].
  - apply (SFadd_regular (-51)); [| |lia].
    + apply (SFmul_regular (-53) (-52)); try lia; [done|by apply linearValue_regular].
    + apply (SFmul_regular (-53) (-52)); try lia; [done|by apply linearValue_regular].
  - apply (SFmul_regular (-53) (-52)); try lia; [done|by apply linearValue_regular].
Qed.

End Luminance.

Lemma SFeqb_refl_ge_one (x : spec_float) : SFleb Binary64.one x = true -> SFeqb x x = true.
Proof.
  destruct x as [s|[]| |[] m e]; try done. intros _.
  unfold SFeqb, SFcompare. rewrite Z.compare_refl.
  change (Pos.compare_cont Eq m m) with (m ?= m)%positive. by rewrite Pos.compare_refl.
Qed.

Section Ratio.
Variable pow : spec_float -> spec_float -> spec_float.
Variable fixed : spec_float -> nat -> string.
Variable selectorText : Document -> string -> Outcome (option Node).

(** The ratio of two luminances, as [getContrastRatio] computes it *)
Lemma ratio_of_luminances (lum1 lum2 : spec_float) :
  @divide (Binary64.host pow fixed selectorText)
    (@plus (Binary64.host pow fixed selectorText)
       (@Math_max (Binary64.host pow fixed selectorText) lum1 lum2)
       (@decimal (Binary64.host pow fixed selectorText) 5 2))
    (@plus (Binary64.host pow fixed selectorText)
       (@Math_min (Binary64.host pow fixed selectorText) lum1 lum2)
       (@decimal (Binary64.host pow fixed selectorText) 5 2))
  = SFdiv Binary64.prec Binary64.emax
      (SFadd Binary64.prec Binary64.emax (Binary64.max lum1 lum2)
         (S754_finite false 7205759403792794 (-57)))
      (SFadd Binary64.prec Binary64.emax (Binary64.min lum1 lum2)
         (S754_finite false 7205759403792794 (-57))).
Proof. reflexivity. Qed.

(** Whatever the two colours and whatever [Math.pow], the two orders give
    the same double (NaN included). *)
Lemma getContrastRatio_symmetric (color1 color2 : ColorValue) :
  @Contrast.getContrastRatio (Binary64.host pow fixed selectorText) color1 color2
  = @Contrast.getContrastRatio (Binary64.host pow fixed selectorText) color2 color1.
Proof.
  unfold Contrast.getContrastRatio. cbv zeta.
  rewrite !ratio_of_luminances. by rewrite max_comm, min_comm.
Qed.

(** When the two luminances are zero or positive and below [2^953], the
    ratio is at least one, and it is one when they are equal. *)
Lemma ratio_of_regular (lum1 lum2 : spec_float) :
  regular 900 lum1 = true -> regular 900 lum2 = true ->
  let ratio := fun x y =>
    SFdiv Binary64.prec Binary64.emax
      (SFadd Binary64.prec Binary64.emax (Binary64.max x y)
         (S754_finite false 7205759403792794 (-57)))
      (SFadd Binary64.prec Binary64.emax (Binary64.min x y)
         (S754_finite false 7205759403792794 (-57))) in
  ratio lum1 lum1 = Binary64.one /\ SFleb Binary64.one (ratio lum1 lum2) = true.
Proof.
  intros Hl1 Hl2 ratio. subst ratio. cbv beta. split.
  - destruct (max_min_self 900 _ Hl1) as [-> ->].
    destruct (SFadd_positive 900 lum1 7205759403792794 (-57) Hl1 eq_refl
                ltac:(lia) ltac:(lia)) as (mx & ex & -> & _).
    apply SFdiv_self.
  - assert (Hcases : exists hi lo,
               Binary64.max lum1 lum2 = hi /\ Binary64.min lum1 lum2 = lo
               /\ regular 900 hi = true /\ regular 900 lo = true
               /\ SFleb lo hi = true).
    { destruct (max_min_cases 900 _ _ Hl1 Hl2) as [(-> & -> & Hle)|(-> & -> & Hle)];
        eauto 10. }
    destruct Hcases as (hi & lo & -> & -> & Hhi & Hlo & Hle).
    destruct (SFadd_positive 900 hi 7205759403792794 (-57) Hhi eq_refl ltac:(lia) ltac:(lia))
      as (mx & ex & Hx & Hbx).
    destruct (SFadd_positive 900 lo 7205759403792794 (-57) Hlo eq_refl ltac:(lia) ltac:(lia))
      as (my & ey & Hy & Hby).
    pose proof (SFadd_mono 900 hi lo 7205759403792794 (-57) Hhi Hlo eq_refl Hle) as Hmono.
    rewrite Hx, Hy in *. by apply SFdiv_ge_one.
Qed.

(** The same on colours: every pair of colours whose luminances are zero
    or positive and below [2^953], in the gamut or not. *)
Lemma getContrastRatio_regular (color1 color2 : ColorValue) :
  let H := Binary64.host pow fixed selectorText in
  let luminance := fun c : ColorValue =>
    @Contrast.getLuminance H
      (@Contrast.channel H c r) (@Contrast.channel H c g) (@Contrast.channel H c b) in
  regular 900 (luminance color1) = true -> regular 900 (luminance color2) = true ->
  @Contrast.getContrastRatio H color1 color1 = Binary64.one
  /\ SFleb Binary64.one (@Contrast.getContrastRatio H color1 color2) = true.
Proof.
  intros H luminance Hl1 Hl2. subst H luminance. cbv beta in Hl1, Hl2.
  unfold Contrast.getContrastRatio. cbv zeta.
  rewrite !ratio_of_luminances.
  exact (ratio_of_regular _ _ Hl1 Hl2).
Qed.

End Ratio.

(** C7. On the doubles, for all RGB colours [color1] and [color2] (channels
    of 0 to 255) and for every [Math.pow] that maps (0, 1] into [0, 1] at
    the exponent 2.4: [getContrastRatio] returns
    [(max(L1, L2) + 0.05) / (min(L1, L2) + 0.05)] over the luminances that
    [getLuminance] computes, which are the sRGB relative luminances
    [0.2126 * R + 0.7152 * G + 0.0722 * B] of the linear values of the
    channels; it returns the same double for the two colours
    in either order, and the two results are [==]; a colour against itself
    gives exactly [1.0]; and the ratio is at least [1.0], hence not NaN. *)
Theorem contrast_ratio_properties (pow : spec_float -> spec_float -> spec_float)
    (fixed : spec_float -> nat -> string)
    (selectorText : Document -> string -> Outcome (option Node))
    (color1 color2 : RGB) :
  inGamut color1 -> inGamut color2 -> powOnUnit pow ->
  let H := Binary64.host pow fixed selectorText in
  let ratio := fun x y : RGB => @Contrast.getContrastRatio H (Channels x) (Channels y) in
  let luminance := fun x : RGB =>
    @Contrast.getLuminance H
      (Binary64.ofInteger (r x)) (Binary64.ofInteger (g x)) (Binary64.ofInteger (b x)) in
  ratio color1 color2
  = SFdiv Binary64.prec Binary64.emax
      (SFadd Binary64.prec Binary64.emax
         (Binary64.max (luminance color1) (luminance color2)) (Binary64.ofDecimal 5 2))
      (SFadd Binary64.prec Binary64.emax
         (Binary64.min (luminance color1) (luminance color2)) (Binary64.ofDecimal 5 2))
  /\ (forall x,
        luminance x
        = SFadd Binary64.prec Binary64.emax
            (SFadd Binary64.prec Binary64.emax
               (SFmul Binary64.prec Binary64.emax (Binary64.ofDecimal 2126 4)
                  (linearValue pow (r x)))
               (SFmul Binary64.prec Binary64.emax (Binary64.ofDecimal 7152 4)
                  (linearValue pow (g x))))
            (SFmul Binary64.prec Binary64.emax (Binary64.ofDecimal 722 4)
               (linearValue pow (b x))))
  /\ ratio color1 color2 = ratio color2 color1
  /\ SFeqb (ratio color1 color2) (ratio color2 color1) = true
  /\ ratio color1 color1 = Binary64.one
  /\ SFleb Binary64.one (ratio color1 color2) = true.
Proof.
  intros (Hr1 & Hg1 & Hb1) (Hr2 & Hg2 & Hb2) Hpow H ratio luminance.
  assert (Hl1 : regular 900 (luminance color1) = true).
  { apply (regular_weaken (-47)); [lia|].
    exact (getLuminance_regular pow fixed selectorText _ _ _ Hpow Hr1 Hg1 Hb1). }
  assert (Hl2 : regular 900 (luminance color2) = true).
  { apply (regular_weaken (-47)); [lia|].
    exact (getLuminance_regular pow fixed selectorText _ _ _ Hpow Hr2 Hg2 Hb2). }
  pose proof (getContrastRatio_symmetric pow fixed selectorText (Channels color1)
                (Channels color2)) as Hsym.
  destruct (getContrastRatio_regular pow fixed selectorText (Channels color1)
              (Channels color2) Hl1 Hl2) as [Hself Hge].
  split; [reflexivity|]. split.
  { intros x. exact (getLuminance_linear pow fixed selectorText (r x) (g x) (b x)). }
  split; [exact Hsym|]. split; [|split; [exact Hself|exact Hge]].
  subst ratio luminance H. cbv beta. rewrite <- Hsym. by apply SFeqb_refl_ge_one.
Qed.

Lemma regular_unitInterval (B : Z) (x : spec_float) :
  regular B x = true -> SFleb x Binary64.one = true -> unitInterval x = true.
Proof.
  intros Hreg Hone. unfold unitInterval. rewrite Hone.
  destruct x as [s| | |[] m e]; try done.
  simpl in *. apply andb_prop in Hreg as [-> _]. done.
Qed.

Lemma SFmul_unitInterval (x y : spec_float) :
  unitInterval x = true -> unitInterval y = true ->
  unitInterval (SFmul Binary64.prec Binary64.emax x y) = true.
Proof.
  intros Hx Hy.
  pose proof (unitInterval_regular x Hx) as Hrx.
  pose proof (unitInterval_regular y Hy) as Hry.
  apply (regular_unitInterval (-50)).
  { apply (SFmul_regular (-52) (-52)); done. }
  unfold unitInterval in Hx, Hy.
  apply andb_prop in Hx as [_ Hx1], Hy as [_ Hy1].
  destruct x as [sx| | |[] mx ex], y as [sy| | |[] my ey]; try done.
  simpl in Hrx, Hry. apply andb_prop in Hrx as [Hbx Hex], Hry as [Hby Hey].
  apply Z.leb_le in Hex, Hey.
  pose proof (SFleb_le_val mx 4503599627370496 ex (-52) Hbx eq_refl Hx1) as Hvx.
  pose proof (SFleb_le_val my 4503599627370496 ey (-52) Hby eq_refl Hy1) as Hvy.
  apply (le_val_common _ _ _ _ ex) in Hvx; [|lia|lia].
  apply (le_val_common _ _ _ _ ey) in Hvy; [|lia|lia].
  rewrite Z.sub_diag, Z.mul_1_r in Hvx, Hvy.
  change 4503599627370496 with (2 ^ 52) in Hvx, Hvy.
  rewrite <- Z.pow_add_r in Hvx, Hvy by lia.
  replace (52 + (-52 - ex)) with (- ex) in Hvx by lia.
  replace (52 + (-52 - ey)) with (- ey) in Hvy by lia.
  apply bounded_facts in Hbx as (Hx1' & Hx2 & Hx3), Hby as (Hy1' & Hy2 & Hy3).
  unfold SFmul. simpl xorb. rewrite Pos2Z.inj_mul.
  assert (Hgrid : ex + ey <= grid (Zpos mx * Zpos my) (ex + ey)).
  { unfold grid. rewrite fexp_eq.
    destruct (Z_le_gt_dec (ex + ey) (-1074)) as [|Hgt]; [lia|].
    assert (Hbig : 2 ^ 52 <= Zpos mx * Zpos my).
    { destruct (Z_le_gt_dec ex (-1074)) as [|Hxn].
      - specialize (Hy3 ltac:(lia)). nia.
      - specialize (Hx3 ltac:(lia)). nia. }
    pose proof (Zdigits2_ge _ 52 ltac:(lia) Hbig). lia. }
  rewrite binary_round_aux_exact by (try done; lia).
  rewrite <- Pos2Z.inj_mul, <- binary_round_spec.
  change Binary64.one with (S754_finite false 4503599627370496 (-52)).
  rewrite <- (binary_round_canonical 4503599627370496 (-52) eq_refl).
  apply binary_round_mono.
  apply (le_val_common _ _ _ _ (ex + ey)); [lia|lia|].
  rewrite Z.sub_diag, Z.mul_1_r, Pos2Z.inj_mul.
  change (Zpos 4503599627370496) with (2 ^ 52).
  rewrite <- Z.pow_add_r by lia.
  replace (52 + (-52 - (ex + ey))) with (- ex + - ey) by lia.
  rewrite Z.pow_add_r by lia.
  assert (0 < 2 ^ (- ex)) by (apply Z.pow_pos_nonneg; lia).
  assert (0 < 2 ^ (- ey)) by (apply Z.pow_pos_nonneg; lia).
  nia.
Qed.

Lemma square_onUnit : powOnUnit Binary64.square.
Proof. intros x _ Hx. by apply SFmul_unitInterval. Qed.

Lemma contrast_ratio_properties_witness :
  inGamut (mkRGB 119 119 119) /\ inGamut (mkRGB 255 255 255) /\ powOnUnit Binary64.square
  /\ let H :=
       Binary64.host Binary64.square (fun _ _ => EmptyString) (@querySelectorText plainHost) in
     let ratio := fun x y : RGB => @Contrast.getContrastRatio H (Channels x) (Channels y) in
     ratio (mkRGB 119 119 119) (mkRGB 255 255 255) = ratio (mkRGB 255 255 255) (mkRGB 119 119 119)
     /\ ratio (mkRGB 119 119 119) (mkRGB 119 119 119) = Binary64.one
     /\ SFleb Binary64.one (ratio (mkRGB 119 119 119) (mkRGB 255 255 255)) = true.
Proof.
  assert (Hgrey : inGamut (mkRGB 119 119 119)) by (unfold inGamut; simpl; lia).
  assert (Hwhite : inGamut (mkRGB 255 255 255)) by (unfold inGamut; simpl; lia).
  split; [exact Hgrey|]. split; [exact Hwhite|]. split; [exact square_onUnit|].
  intros H ratio.
  destruct (contrast_ratio_properties Binary64.square (fun _ _ => EmptyString)
              (@querySelectorText plainHost) _ _ Hgrey Hwhite square_onUnit)
    as (_ & _ & Hsym & _ & Hself & Hge).
  split; [exact Hsym|]. split; [exact Hself|exact Hge].
Defined.

End Doubles.

(** ** The hexadecimal colours *)

Lemma in_allChars (a : ascii) : In a allChars.
Proof.
  rewrite <- (ascii_nat_embedding a). unfold allChars.
  apply in_map, in_seq. pose proof (nat_ascii_bounded a). lia.
Qed.

Lemma in_hexChars (a : ascii) : Js.isHexDigit a = true -> In a hexChars.
Proof. intros Ha. apply List.filter_In. split; [apply in_allChars | done]. Qed.

Lemma hexToRgb_body (hex : string) :
  Color.hexToRgb hex
  = sixHexDigits (match hex with String c t => if Ascii.eqb c "#" then t else hex | _ => hex end).
Proof.
  destruct hex as [|c t]; [reflexivity|].
  destruct c as [[] [] [] [] [] [] [] []]; reflexivity.
Qed.

Lemma parseInt_hexPair (a b : ascii) :
  Js.isHexDigit a = true -> Js.isHexDigit b = true ->
  exists v, Js.parseInt (Color.hexPair a b) (Some 16%Z) = Some v /\ inByte v = true.
Proof.
  intros Ha Hb.
  assert (Hall : forallb (fun a => forallb (fun b =>
            match Js.parseInt (Color.hexPair a b) (Some 16%Z) with
            | Some v => inByte v
            | None => false
            end) hexChars) hexChars = true) by (vm_compute; reflexivity).
  rewrite forallb_forall in Hall. specialize (Hall a (in_hexChars a Ha)).
  rewrite forallb_forall in Hall. specialize (Hall b (in_hexChars b Hb)).
  destruct (Js.parseInt _ _) as [v|]; [eauto | done].
Qed.

Lemma sixHexDigits_in_range (body : string) (c : RGB) :
  sixHexDigits body = Some c -> inBytes c = true /\ String.length body = 6.
Proof.
  unfold sixHexDigits.
  destruct body as [|a [|b [|c0 [|d [|e [|f [|]]]]]]]; try done.
  cbn [forallb]. destruct (Js.isHexDigit a) eqn:Ha; [|done].
  destruct (Js.isHexDigit b) eqn:Hb; [|done].
  destruct (Js.isHexDigit c0) eqn:Hc; [|done].
  destruct (Js.isHexDigit d) eqn:Hd; [|done].
  destruct (Js.isHexDigit e) eqn:He; [|done].
  destruct (Js.isHexDigit f) eqn:Hf; [|done].
  cbn [andb].
  destruct (parseInt_hexPair a b Ha Hb) as (v1 & -> & H1).
  destruct (parseInt_hexPair c0 d Hc Hd) as (v2 & -> & H2).
  destruct (parseInt_hexPair e f He Hf) as (v3 & -> & H3).
  cbn. intros [= <-]. unfold inBytes. cbn. by rewrite H1, H2, H3.
Qed.

(** X1. Whenever [hexToRgb] returns a colour, each of its channels lies
    between 0 and 255, and the text had six characters, or seven with a
    leading [#]. *)
Theorem hexToRgb_channels_in_range (hex : string) (c : RGB) :
  Color.hexToRgb hex = Some c ->
  (0 <= r c <= 255)%Z /\ (0 <= g c <= 255)%Z /\ (0 <= b c <= 255)%Z
  /\ (String.length hex = 6 \/ (Js.startsWith hex "#" = true /\ String.length hex = 7)).
Proof.
  rewrite hexToRgb_body. intros Hc.
  apply sixHexDigits_in_range in Hc as [Hrange Hlen].
  unfold inBytes, inByte in Hrange.
  repeat (apply andb_prop in Hrange as [Hrange ?]).
  repeat match goal with H : (_ <=? _)%Z = true |- _ => apply Z.leb_le in H end.
  split; [lia|]. split; [lia|]. split; [lia|].
  destruct hex as [|c0 t]; [done|].
  destruct (Ascii.eqb_spec c0 "#") as [->|Hne]; [right | left; done].
  split; [by destruct t|]. simpl. by rewrite Hlen.
Qed.

Lemma hexToRgb_channels_in_range_witness :
  Color.hexToRgb "#ff8000" = Some (mkRGB 255 128 0)
  /\ (0 <= 255 <= 255)%Z /\ (0 <= 128 <= 255)%Z /\ (0 <= 0 <= 255)%Z.
Proof.
  split; [reflexivity|].
  pose proof (hexToRgb_channels_in_range "#ff8000" (mkRGB 255 128 0) eq_refl)
    as (Hr & Hg & Hb & _).
  split; [exact Hr|]. split; [exact Hg | exact Hb].
Defined.

Lemma hexByte_read (z : Z) :
  inByte z = true ->
  exists a b, hexByte z = Color.hexPair a b
    /\ Js.isHexDigit a = true /\ Js.isHexDigit b = true
    /\ Js.parseInt (Color.hexPair a b) (Some 16%Z) = Some z
    /\ Js.asciiUpper (hexByte z) = Color.hexPair (Js.asciiUpperChar a) (Js.asciiUpperChar b)
    /\ Js.isHexDigit (Js.asciiUpperChar a) = true /\ Js.isHexDigit (Js.asciiUpperChar b) = true
    /\ Js.parseInt (Color.hexPair (Js.asciiUpperChar a) (Js.asciiUpperChar b)) (Some 16%Z) = Some z.
Proof.
  intros Hz. unfold inByte in Hz. apply andb_prop in Hz as [Hlo Hhi].
  apply Z.leb_le in Hlo. apply Z.leb_le in Hhi.
  assert (Hall : forallb (fun n =>
            let a := hexDigit (n / 16) in
            let b := hexDigit (n mod 16) in
            Js.isHexDigit a && Js.isHexDigit b
            && bool_decide (Js.parseInt (Color.hexPair a b) (Some 16%Z) = Some (Z.of_nat n))
            && Js.isHexDigit (Js.asciiUpperChar a) && Js.isHexDigit (Js.asciiUpperChar b)
            && bool_decide (Js.parseInt (Color.hexPair (Js.asciiUpperChar a) (Js.asciiUpperChar b))
                              (Some 16%Z) = Some (Z.of_nat n)))
            (seq 0 256) = true) by (vm_compute; reflexivity).
  rewrite forallb_forall in Hall.
  specialize (Hall (Z.to_nat z)). 
  assert (Hin : In (Z.to_nat z) (seq 0 256)) by (apply in_seq; lia).
  specialize (Hall Hin). cbv zeta in Hall.
  rewrite Z2Nat.id in Hall by done.
  repeat (apply andb_prop in Hall as [Hall ?]).
  repeat match goal with H : bool_decide _ = true |- _ => apply bool_decide_eq_true_1 in H end.
  exists (hexDigit (Z.to_nat z / 16)), (hexDigit (Z.to_nat z mod 16)).
  repeat split; try done.
Qed.

Lemma append_pair a b s : Color.hexPair a b +:+ s = String a (String b s).
Proof. reflexivity. Qed.

(** X2. Every colour with channels between 0 and 255 has a text [#rrggbb]
    that [hexToRgb] and [parseColor] read back as that colour, with the
    digits in lower case and, for [hexToRgb], in upper case as well. *)
Theorem hexToRgb_reads_every_colour (r g b : Z) :
  (0 <= r <= 255)%Z -> (0 <= g <= 255)%Z -> (0 <= b <= 255)%Z ->
  Color.hexToRgb (hexText r g b) = Some (mkRGB r g b)
  /\ Color.hexToRgb (Js.asciiUpper (hexText r g b)) = Some (mkRGB r g b)
  /\ Color.parseColor (hexText r g b) = Some (Channels (mkRGB r g b)).
Proof.
  intros Hr Hg Hb.
  assert (Hr' : inByte r = true) by (unfold inByte; apply andb_true_intro; split; apply Z.leb_le; lia).
  assert (Hg' : inByte g = true) by (unfold inByte; apply andb_true_intro; split; apply Z.leb_le; lia).
  assert (Hb' : inByte b = true) by (unfold inByte; apply andb_true_intro; split; apply Z.leb_le; lia).
  destruct (hexByte_read r Hr') as (a1 & b1 & E1 & Ha1 & Hb1 & P1 & U1 & Ua1 & Ub1 & Q1).
  destruct (hexByte_read g Hg') as (a2 & b2 & E2 & Ha2 & Hb2 & P2 & U2 & Ua2 & Ub2 & Q2).
  destruct (hexByte_read b Hb') as (a3 & b3 & E3 & Ha3 & Hb3 & P3 & U3 & Ua3 & Ub3 & Q3).
  assert (Hlower : Color.hexToRgb (hexText r g b) = Some (mkRGB r g b)).
  { unfold hexText. rewrite E1, E2, E3.
    change (Color.hexToRgb _) with
      (if forallb Js.isHexDigit [a1; b1; a2; b2; a3; b3] then
         r ← Js.parseInt (Color.hexPair a1 b1) (Some 16%Z);
         g ← Js.parseInt (Color.hexPair a2 b2) (Some 16%Z);
         b ← Js.parseInt (Color.hexPair a3 b3) (Some 16%Z);
         Some (mkRGB r g b)
       else None).
    cbn [forallb]. by rewrite Ha1, Hb1, Ha2, Hb2, Ha3, Hb3, P1, P2, P3. }
  split; [done|]. split.
  - unfold hexText. rewrite E1, E2, E3.
    change (Color.hexToRgb _) with
      (if forallb Js.isHexDigit
            [Js.asciiUpperChar a1; Js.asciiUpperChar b1; Js.asciiUpperChar a2;
             Js.asciiUpperChar b2; Js.asciiUpperChar a3; Js.asciiUpperChar b3] then
         r ← Js.parseInt (Color.hexPair (Js.asciiUpperChar a1) (Js.asciiUpperChar b1)) (Some 16%Z);
         g ← Js.parseInt (Color.hexPair (Js.asciiUpperChar a2) (Js.asciiUpperChar b2)) (Some 16%Z);
         b ← Js.parseInt (Color.hexPair (Js.asciiUpperChar a3) (Js.asciiUpperChar b3)) (Some 16%Z);
         Some (mkRGB r g b)
       else None).
    cbn [forallb]. by rewrite Ua1, Ub1, Ua2, Ub2, Ua3, Ub3, Q1, Q2, Q3.
  - unfold Color.parseColor.
    change (Js.startsWith (hexText r g b) "#") with true. cbn iota. by rewrite Hlower.
Qed.

Lemma hexToRgb_reads_every_colour_witness :
  hexText 255 128 0 = "#ff8000"
  /\ Color.hexToRgb "#ff8000" = Some (mkRGB 255 128 0)
  /\ Color.hexToRgb "#FF8000" = Some (mkRGB 255 128 0).
Proof.
  split; [reflexivity|].
  pose proof (hexToRgb_reads_every_colour 255 128 0 ltac:(lia) ltac:(lia) ltac:(lia))
    as (Hlower & Hupper & _).
  split; [exact Hlower | exact Hupper].
Defined.

(** ** The named colours *)

Lemma named_not_hash (s : string) (c : RGB) :
  Js.assoc (Js.toLowerCase s) Color.namedColors = Some c -> Js.startsWith s "#" = false.
Proof.
  intros Hnamed. destruct s as [|c1 t]; [done|].
  unfold Js.startsWith. cbn [String.prefix].
  destruct (ascii_dec "#" c1) as [<-|]; [|done].
  exfalso. vm_compute in Hnamed. done.
Qed.

Lemma named_not_rgb (s : string) (c : RGB) :
  Js.assoc (Js.toLowerCase s) Color.namedColors = Some c -> Js.startsWith s "rgb" = false.
Proof.
  intros Hnamed. destruct s as [|c1 [|c2 [|c3 t]]]; try done;
    unfold Js.startsWith; cbn [String.prefix];
    destruct (ascii_dec "r" c1) as [<-|]; try done;
    destruct (ascii_dec "g" c2) as [<-|]; try done.
Qed.

Lemma parseColor_named (s : string) (c : RGB) :
  Js.assoc (Js.toLowerCase s) Color.namedColors = Some c ->
  Color.parseColor s = Some (Channels c).
Proof.
  intros Hnamed. unfold Color.parseColor.
  rewrite (named_not_hash s c Hnamed), (named_not_rgb s c Hnamed).
  unfold Color.namedColorsGet. by rewrite Hnamed.
Qed.

Lemma lowerChar_idem (c : ascii) : Js.lowerChar (Js.lowerChar c) = Js.lowerChar c.
Proof.
  assert (Hall : forallb (fun c => Ascii.eqb (Js.lowerChar (Js.lowerChar c)) (Js.lowerChar c))
                   (map ascii_of_nat (seq 0 256)) = true) by (vm_compute; reflexivity).
  rewrite forallb_forall in Hall. apply Ascii.eqb_eq, Hall.
  rewrite <- (ascii_nat_embedding c). apply in_map, in_seq.
  pose proof (nat_ascii_bounded c). lia.
Qed.

Lemma toLowerCase_idem (s : string) : Js.toLowerCase (Js.toLowerCase s) = Js.toLowerCase s.
Proof.
  unfold Js.toLowerCase. induction s as [|c t IH]; simpl; [done|].
  by rewrite lowerChar_idem, IH.
Qed.

Lemma lower_upper_char (c : ascii) : Js.lowerChar (Js.asciiUpperChar c) = Js.lowerChar c.
Proof.
  assert (Hall : forallb (fun c => Ascii.eqb (Js.lowerChar (Js.asciiUpperChar c)) (Js.lowerChar c))
                   (map ascii_of_nat (seq 0 256)) = true) by (vm_compute; reflexivity).
  rewrite forallb_forall in Hall. apply Ascii.eqb_eq, Hall.
  rewrite <- (ascii_nat_embedding c). apply in_map, in_seq.
  pose proof (nat_ascii_bounded c). lia.
Qed.

Lemma toLowerCase_upper (s : string) : Js.toLowerCase (Js.asciiUpper s) = Js.toLowerCase s.
Proof.
  unfold Js.toLowerCase, Js.asciiUpper. induction s as [|c t IH]; simpl; [done|].
  by rewrite lower_upper_char, IH.
Qed.

(** X3. A text whose lower-case form is one of the eight colour names is
    read by [parseColor] as that colour, however its letters are cased. *)
Theorem named_colours_ignore_case (s : string) (c : RGB) :
  Js.assoc (Js.toLowerCase s) Color.namedColors = Some c ->
  Color.parseColor s = Some (Channels c)
  /\ Color.parseColor (Js.toLowerCase s) = Some (Channels c)
  /\ Color.parseColor (Js.asciiUpper s) = Some (Channels c).
Proof.
  intros Hnamed. split; [by apply parseColor_named|]. split.
  - apply parseColor_named. by rewrite toLowerCase_idem.
  - apply parseColor_named. by rewrite toLowerCase_upper.
Qed.

Lemma named_colours_ignore_case_witness :
  Color.parseColor "Red" = Some (Channels (mkRGB 255 0 0))
  /\ Color.parseColor "RED" = Some (Channels (mkRGB 255 0 0)).
Proof.
  pose proof (named_colours_ignore_case "Red" (mkRGB 255 0 0) eq_refl) as (H1 & _ & H3).
  split; [exact H1 | exact H3].
Defined.

(** ** Declarations of an inline style *)

Lemma append_nil (s : string) : EmptyString +:+ s = s.
Proof. reflexivity. Qed.

Lemma dropChars_app (a b : string) : dropChars (String.length a) (a +:+ b) = b.
Proof. induction a as [|x a IH]; [by destruct b|]. by rewrite append_cons. Qed.

Lemma dropChars_app_lt (k : nat) (a b : string) :
  (k <= String.length a)%nat -> dropChars k (a +:+ b) = dropChars k a +:+ b.
Proof.
  revert k. induction a as [|x a IH]; intros k Hk.
  - simpl in Hk. assert (k = 0%nat) as -> by lia. rewrite append_nil. by destruct b.
  - destruct k as [|k]; [done|]. rewrite append_cons. simpl. apply IH. simpl in Hk. lia.
Qed.

Lemma dropChars_add (j k : nat) (s : string) :
  dropChars j (dropChars k s) = dropChars (k + j) s.
Proof.
  revert s. induction k as [|k IH]; intros s; [done|].
  destruct s as [|x s]; simpl; [by destruct j | apply IH].
Qed.

Lemma leftmost_skip {A} (m : string -> option A) (n : nat) :
  forall s, (forall k, (k < n)%nat -> m (dropChars k s) = None) ->
            Js.leftmost m s = Js.leftmost m (dropChars n s).
Proof.
  induction n as [|n IH]; intros s Hnone; [done|].
  pose proof (Hnone 0%nat ltac:(lia)) as H0. simpl in H0.
  destruct s as [|x s]; [done|].
  simpl. rewrite H0. apply IH. intros k Hk. apply (Hnone (S k)). lia.
Qed.

Lemma literal_prefix (lit s : string) :
  String.prefix lit s = false -> Js.literal lit s = None.
Proof.
  revert s. induction lit as [|a lit IH]; intros s; [by destruct s|].
  destruct s as [|c s]; [done|]. simpl.
  destruct (ascii_dec a c) as [<-|Hne].
  - rewrite Ascii.eqb_refl. apply IH.
  - intros _. by apply Ascii.eqb_neq in Hne as ->.
Qed.

Lemma prefix_app_long (lit u y : string) :
  (String.length lit <= String.length u)%nat ->
  String.prefix lit (u +:+ y) = String.prefix lit u.
Proof.
  revert u. induction lit as [|a lit IH]; intros u Hlen.
  - destruct u; [by destruct y | done].
  - destruct u as [|c u]; [simpl in Hlen; lia|].
    rewrite append_cons. simpl. destruct (ascii_dec a c); [|done].
    apply IH. simpl in Hlen. lia.
Qed.

Lemma literal_drop (a b s r : string) :
  Js.literal (a +:+ b) s = Some r -> Js.literal b (dropChars (String.length a) s) = Some r.
Proof.
  revert s. induction a as [|x a IH]; intros s; [by rewrite append_nil|].
  rewrite append_cons. destruct s as [|y s]; [done|]. simpl.
  destruct (Ascii.eqb x y); [apply IH | done].
Qed.

Lemma length_append (a b : string) :
  String.length (a +:+ b) = (String.length a + String.length b)%nat.
Proof. induction a as [|x a IH]; [done|]. rewrite append_cons. simpl. by rewrite IH. Qed.

Lemma append_assoc (a b c : string) : (a +:+ b) +:+ c = a +:+ (b +:+ c).
Proof. induction a as [|x a IH]; [done|]. rewrite !append_cons. by rewrite IH. Qed.

(** No text colour pattern starts inside [pre]. *)
Lemma no_color_in_prefix (pre tail : string) :
  Js.includes (pre +:+ "background-") "color:" = false ->
  forall k, (k < String.length pre)%nat ->
    Js.literal "color:" (dropChars k (pre +:+ "background-" +:+ tail)) = None.
Proof.
  induction pre as [|x pre IH]; intros Hinc k Hk; [simpl in Hk; lia|].
  rewrite append_cons in Hinc. cbn [Js.includes] in Hinc.
  apply orb_false_elim in Hinc as [Hhere Hlater].
  destruct k as [|k].
  - cbn [dropChars]. apply literal_prefix.
    rewrite <- append_cons in Hhere. rewrite <- append_assoc.
    rewrite prefix_app_long; [done|].
    rewrite length_append. simpl. lia.
  - rewrite append_cons. cbn [dropChars]. apply IH; [done|]. simpl in Hk. lia.
Qed.

Lemma no_color_in_background (tail : string) (k : nat) :
  (k < 11)%nat -> Js.literal "color:" (dropChars k ("background-" +:+ tail)) = None.
Proof.
  intros Hk. do 11 (destruct k as [|k]; [reflexivity|]). lia.
Qed.

Lemma no_color_before (pre tail : string) :
  Js.includes (pre +:+ "background-") "color:" = false ->
  forall k, (k < String.length pre + 11)%nat ->
    Js.literal "color:" (dropChars k (pre +:+ "background-" +:+ tail)) = None.
Proof.
  intros Hinc k Hk.
  destruct (Nat.lt_ge_cases k (String.length pre)) as [Hlt|Hge].
  - by apply no_color_in_prefix.
  - replace k with (String.length pre + (k - String.length pre))%nat by lia.
    rewrite <- dropChars_add, dropChars_app.
    apply no_color_in_background. lia.
Qed.

Lemma declarationHere_literal (property s : string) :
  Full.declarationHere property s = Js.literal (property +:+ ":") s ≫= valueAfter.
Proof. reflexivity. Qed.

Lemma lastChar_cons (c : ascii) (s : string) : exists d, Full.lastChar (String c s) = Some d.
Proof.
  revert c. induction s as [|x s IH]; intros c; [by exists c|].
  destruct (IH x) as [d Hd]. exists d. by rewrite <- Hd.
Qed.

Lemma valueAfter_some (c : ascii) (tail : string) :
  c <> ";"%char -> exists v, valueAfter (String c tail) = Some v.
Proof.
  intros Hc. unfold valueAfter. cbn [Js.span].
  destruct (Js.isWhiteSpace c).
  - destruct (Js.span Js.isWhiteSpace tail) as [ws rest].
    destruct (Js.span1 _ rest) as [[value ?]|]; [eauto|].
    destruct (lastChar_cons c ws) as [d ->]. simpl. eauto.
  - unfold Js.span1. cbn [Js.span].
    apply Ascii.eqb_neq in Hc as ->. cbn [negb].
    destruct (Js.span _ tail) as [a rest]. eauto.
Qed.

Lemma declaration_color_in_background (pre tail : string) :
  Js.includes (pre +:+ "background-") "color:" = false ->
  forall v, valueAfter tail = Some v ->
    Full.declaration "color" (pre +:+ "background-color:" +:+ tail) = Some v
    /\ Full.declaration "background-color" (pre +:+ "background-color:" +:+ tail) = Some v.
Proof.
  intros Hinc v Hv.
  change ("background-color:" +:+ tail) with ("background-" +:+ ("color:" +:+ tail)).
  unfold Full.declaration. split.
  - rewrite (leftmost_skip _ (String.length pre + 11)).
    + rewrite <- dropChars_add, dropChars_app.
      apply leftmost_here. rewrite declarationHere_literal.
      change (dropChars 11 _) with ("color:" +:+ tail).
      change (Js.literal ("color" +:+ ":") ("color:" +:+ tail)) with (Some tail).
      exact Hv.
    + intros k Hk. rewrite declarationHere_literal.
      change ("color" +:+ ":") with "color:".
      by rewrite (no_color_before pre ("color:" +:+ tail) Hinc k Hk).
  - rewrite (leftmost_skip _ (String.length pre)).
    + rewrite dropChars_app. apply leftmost_here. rewrite declarationHere_literal.
      change (Js.literal _ _) with (Some tail). exact Hv.
    + intros k Hk. rewrite declarationHere_literal.
      destruct (Js.literal _ _) as [r|] eqn:Hlit; [|done]. exfalso.
      change ("background-color" +:+ ":") with ("background-" +:+ "color:") in Hlit.
      apply literal_drop in Hlit. rewrite dropChars_add in Hlit.
      rewrite (no_color_before pre ("color:" +:+ tail) Hinc) in Hlit; [done|].
      simpl. lia.
Qed.

Lemma truthy_append (a : string) (c : ascii) (b : string) : Js.truthy (a +:+ String c b) = true.
Proof. by destruct a. Qed.

Lemma inlineStyle_declared (element : Node) (style : string) :
  Dom.getAttribute element "style" = Some style -> Js.truthy style = true ->
  Full.inlineStyle element = style.
Proof.
  intros Hstyle Htruthy. unfold Full.inlineStyle, Js.orElse, Js.truthyOpt.
  by rewrite Hstyle, Htruthy.
Qed.

(** X4. When the inline style declares [background-color:] and no
    [color:] occurs before it, the pattern for the text colour matches
    inside that declaration: the check reads the same value for the text
    colour and for the background colour, whatever [color:] declaration
    follows, and so compares the background colour with itself. *)
Theorem text_colour_read_from_background (pre tail : string) (c : ascii) :
  Js.includes (pre +:+ "background-") "color:" = false ->
  c <> ";"%char ->
  let style := pre +:+ "background-color:" +:+ String c tail in
  (exists v,
      Full.declaration "color" style = Some v
      /\ Full.declaration "background-color" style = Some v)
  /\ forall element,
       Dom.getAttribute element "style" = Some style ->
       declaredColor "color" element = declaredColor "background-color" element.
Proof.
  intros Hinc Hc style.
  destruct (valueAfter_some c tail Hc) as [v Hv].
  destruct (declaration_color_in_background pre (String c tail) Hinc v Hv) as [Hcolor Hbg].
  split; [eauto|].
  intros element Hstyle. unfold declaredColor.
  rewrite (inlineStyle_declared element style Hstyle) by apply truthy_append.
  subst style. by rewrite Hcolor, Hbg.
Qed.

Lemma text_colour_read_from_background_witness :
  Js.includes ("font-size: 12px; " +:+ "background-") "color:" = false
  /\ exists v,
       Full.declaration "color" "font-size: 12px; background-color: black; color: white" = Some v
       /\ Full.declaration "background-color"
            "font-size: 12px; background-color: black; color: white" = Some v.
Proof.
  split; [reflexivity|].
  exact (proj1 (text_colour_read_from_background "font-size: 12px; " "black; color: white" " "
                  eq_refl ltac:(discriminate))).
Defined.

(** ** The shape of every result *)

(** The tables of ids, impacts and tags are those of the entries of the
    engine. *)
Example ruleTable_of_entries :
  ruleTable
  = map kind
      [ Full.imageAlt []; Full.label []; Full.placeholderAsLabel []; Full.buttonName [];
        Full.buttonTextQuality []; Full.linkName []; Full.linkTextQuality [];
        Full.colorContrast []; Full.documentTitle None; Full.pageHasHeadingOne;
        Full.multipleH1 []; Full.htmlHasLang (Text EmptyString); Full.metaViewportMissing;
        Full.headingOrder []; Full.emptyHeading []; Full.tableHeaders [] ]
  /\ ruleIds = map (fun row => fst (fst row)) ruleTable
  /\ reducedRuleIds
     = map v_id
         [ Reduced.imageAlt []; Reduced.label []; Reduced.documentTitle None;
           Reduced.htmlHasLang (Text EmptyString); Reduced.linkName []; Reduced.buttonName [];
           Reduced.headingOrder [] ].
Proof. repeat split; reflexivity. Qed.

Example passIds_of_passChecks `{Host} document formSt htmlElement :
  map Full.pc_id (Full.passChecks document formSt htmlElement) = passIds.
Proof. reflexivity. Qed.

Lemma ids_whenAny nodes entry id :
  (forall ns, v_id (entry ns) = id) ->
  map v_id (Full.whenAny nodes entry) `sublist_of` [id].
Proof.
  intros Hid. destruct nodes as [|n ns]; simpl; [apply sublist_nil_l|].
  rewrite Hid. done.
Qed.

Lemma ids_if (c : bool) (v : AccessibilityViolation) :
  map v_id (if c then [v] else []) `sublist_of` [v_id v].
Proof. destruct c; simpl; [done | apply sublist_nil_l]. Qed.

Lemma ids_headingOne h1s :
  map v_id (Full.headingOneViolations h1s) `sublist_of` ["page-has-heading-one"; "multiple-h1"].
Proof.
  destruct h1s as [|a [|b l]]; simpl.
  - by apply sublist_skip, sublist_nil_l.
  - apply sublist_nil_l.
  - by apply sublist_cons, sublist_skip.
Qed.

Lemma ids_pushed `{Host} document formSt htmlElement :
  map v_id (Full.pushedViolations document formSt htmlElement) `sublist_of` ruleIds.
Proof.
  unfold Full.pushedViolations. rewrite !map_app.
  change ruleIds with
    (["image-alt"] ++ ["label"] ++ ["placeholder-as-label"] ++ ["button-name"]
     ++ ["button-text-quality"] ++ ["link-name"] ++ ["link-text-quality"]
     ++ ["color-contrast"] ++ ["document-title"] ++ ["page-has-heading-one"; "multiple-h1"]
     ++ ["html-has-lang"] ++ ["meta-viewport"] ++ ["heading-order"] ++ ["empty-heading"]
     ++ ["table-headers"]).
  repeat (apply sublist_app;
          [first [by apply ids_whenAny | apply ids_if | apply ids_headingOne]|]).
  by apply ids_whenAny.
Qed.

Lemma ids_emitted checks :
  map p_id (Full.emitPasses checks) `sublist_of` map Full.pc_id checks.
Proof.
  rewrite emitPasses_flat_map.
  induction checks as [|c checks IH]; simpl; [done|].
  unfold emitOne at 1. destruct (Full.condition c); simpl.
  - by apply sublist_skip.
  - by apply sublist_cons.
Qed.

(** X5. For every document that the engine evaluates, the ids of the
    violations are drawn from sixteen rule ids, in the fixed order of the
    pushes and each at most once; the ids of the passes are drawn from the
    nine ids of [passChecks], in that order and each at most once; and
    [incomplete] is empty. *)
Theorem result_ids_are_fixed `{Host} (document : Document) (r : AccessibilityResult) :
  Full.runAccessibilityChecks document = Returns r ->
  map v_id (violations r) `sublist_of` ruleIds
  /\ NoDup (map v_id (violations r))
  /\ map p_id (passes r) `sublist_of` passIds
  /\ NoDup (map p_id (passes r))
  /\ incomplete r = [].
Proof.
  intros Hrun.
  destruct (run_returns _ _ Hrun) as (formSt & htmlElement & _ & _ & ->). simpl.
  assert (Hrules : NoDup ruleIds) by (apply (bool_decide_unpack _); vm_compute; done).
  assert (Hpasses : NoDup passIds) by (apply (bool_decide_unpack _); vm_compute; done).
  pose proof (ids_pushed document formSt htmlElement) as Hv.
  pose proof (ids_emitted (Full.passChecks document formSt htmlElement)) as Hp.
  change (map Full.pc_id _) with passIds in Hp.
  repeat split; try done.
  - by apply (sublist_NoDup _ ruleIds).
  - by apply (sublist_NoDup _ passIds).
Qed.

Lemma result_ids_are_fixed_witness :
  exists r,
    @Full.runAccessibilityChecks plainHost twoLinks = Returns r
    /\ map v_id (violations r) `sublist_of` ruleIds
    /\ incomplete r = [].
Proof.
  eexists. split; [vm_compute; reflexivity|].
  pose proof (@result_ids_are_fixed plainHost twoLinks _ eq_refl) as (Hv & _ & _ & _ & Hi).
  split; [exact Hv | exact Hi].
Defined.

Lemma Forall_whenAny (P : AccessibilityViolation -> Prop) nodes entry :
  (forall n ns, P (entry (n :: ns))) -> Forall P (Full.whenAny nodes entry).
Proof. intros HP. destruct nodes; simpl; [constructor | by repeat constructor]. Qed.

Lemma Forall_if (P : AccessibilityViolation -> Prop) (c : bool) v :
  P v -> Forall P (if c then [v] else []).
Proof. intros HP. destruct c; by repeat constructor. Qed.

Lemma multipleH1_nodes (h1s : list Node) :
  length (v_nodes (Full.multipleH1 h1s)) = (length h1s - 1)%nat.
Proof. unfold Full.multipleH1. simpl. rewrite length_imap, length_drop. lia. Qed.

Lemma pushed_have_nodes `{Host} document formSt htmlElement :
  Forall (fun v => 1 <= length (v_nodes v))
    (Full.pushedViolations document formSt htmlElement).
Proof.
  unfold Full.pushedViolations.
  repeat (apply Forall_app; split);
    try (apply Forall_whenAny; intros n ns; simpl; lia);
    try (apply Forall_if; simpl; lia).
  destruct (Full.h1s document) as [|a [|b l]]; unfold Full.headingOneViolations.
  - repeat constructor.
  - constructor.
  - constructor; [|constructor]. rewrite multipleH1_nodes. simpl. lia.
Qed.

(** X6. For every document that the engine evaluates, each violation has
    at least one node; in the report that [POST] builds each violation
    has between one and five nodes, and [incomplete] is empty. *)
Theorem every_entry_has_nodes `{Host} (url crawlMethod timestamp : string)
    (document : Document) (r : AccessibilityResult) :
  Full.runAccessibilityChecks document = Returns r ->
  Forall (fun v => 1 <= length (v_nodes v)) (violations r)
  /\ Forall (fun v => 1 <= length (v_nodes v) <= 5)
       (report_violations (Post.formatReport url crawlMethod timestamp r))
  /\ report_incomplete (Post.formatReport url crawlMethod timestamp r) = [].
Proof.
  intros Hrun.
  destruct (run_returns _ _ Hrun) as (formSt & htmlElement & _ & _ & ->). simpl.
  pose proof (pushed_have_nodes document formSt htmlElement) as Hnodes.
  split; [done|]. split; [|done].
  apply Forall_fmap. eapply Forall_impl; [exact Hnodes|].
  intros v Hv. unfold compose. cbv beta in Hv. rewrite shapeViolation_nodes, length_take. lia.
Qed.

Lemma every_entry_has_nodes_witness :
  exists r,
    @Full.runAccessibilityChecks plainHost twelveImages = Returns r
    /\ Forall (fun v => 1 <= length (v_nodes v) <= 5)
         (report_violations (Post.formatReport "u" "direct-fetch" "t" r)).
Proof.
  eexists. split; [vm_compute; reflexivity|].
  exact (proj1 (proj2 (@every_entry_has_nodes plainHost "u" "direct-fetch" "t" twelveImages
                         _ eq_refl))).
Defined.

(** ** More than one [h1] *)

Lemma imap_targets (l : list Node) (j : nat) :
  map target
    (imap (fun index h1 =>
             mkNode (Dom.outerHTML h1) ["h1:nth-child(" +:+ Js.showNat (index + j) +:+ ")"]
               "Multiple h1 headings found") l)
  = map h1Target (seq j (length l)).
Proof.
  revert j. induction l as [|x l IH]; intros j; [done|].
  rewrite imap_cons. simpl. f_equal.
  rewrite <- IH. f_equal. apply imap_ext. intros i y _. unfold compose.
  by replace (S i + j)%nat with (i + S j)%nat by lia.
Qed.

Lemma imap_htmls (l : list Node) (j : nat) :
  map html
    (imap (fun index h1 =>
             mkNode (Dom.outerHTML h1) ["h1:nth-child(" +:+ Js.showNat (index + j) +:+ ")"]
               "Multiple h1 headings found") l)
  = map Dom.outerHTML l.
Proof.
  revert j. induction l as [|x l IH]; intros j; [done|].
  rewrite imap_cons. simpl. f_equal.
  rewrite <- (IH (S j)). f_equal. apply imap_ext. intros i y _. unfold compose.
  by replace (S i + j)%nat with (i + S j)%nat by lia.
Qed.

Lemma pushed_multiple_h1 `{Host} document formSt htmlElement :
  violationsWithId "multiple-h1" (Full.pushedViolations document formSt htmlElement)
  = if (1 <? length (Full.h1s document))%nat then [Full.multipleH1 (Full.h1s document)] else [].
Proof. by violations_with_id. Qed.

(** X7. For every document that the engine evaluates, there is one
    [multiple-h1] entry exactly when the document has more than one [h1];
    its nodes are the [h1] elements after the first, in document order, with
    the selectors [h1:nth-child(2)], [h1:nth-child(3)] and so on; and it
    never comes with the [page-has-heading-one] violation or pass. *)
Theorem multiple_h1_rule `{Host} (document : Document) (r : AccessibilityResult) :
  Full.runAccessibilityChecks document = Returns r ->
  let h1s := Full.h1s document in
  violationsWithId "multiple-h1" (violations r)
  = (if (1 <? length h1s)%nat then [Full.multipleH1 h1s] else [])
  /\ map html (v_nodes (Full.multipleH1 h1s)) = map Dom.outerHTML (drop 1 h1s)
  /\ map target (v_nodes (Full.multipleH1 h1s)) = map h1Target (seq 2 (length h1s - 1))
  /\ (hasViolation "multiple-h1" r = true -> hasViolation "page-has-heading-one" r = false)
  /\ (hasViolation "multiple-h1" r = true -> hasPass "page-has-heading-one" r = false).
Proof.
  intros Hrun h1s.
  destruct (run_returns _ _ Hrun) as (formSt & htmlElement & _ & _ & ->).
  unfold hasViolation, hasPass. simpl.
  rewrite pushed_multiple_h1, pushed_page_has_heading_one, passes_page_has_heading_one.
  fold h1s.
  split; [done|]. split; [apply imap_htmls|]. split.
  { unfold Full.multipleH1. simpl. rewrite imap_targets, length_drop. done. }
  destruct h1s as [|a [|b l]]; simpl; split; done.
Qed.

Lemma multiple_h1_rule_witness :
  exists r,
    @Full.runAccessibilityChecks plainHost (headingsPage ["h1"; "h1"; "h1"]) = Returns r
    /\ violationsWithId "multiple-h1" (violations r)
       = [Full.multipleH1 (Full.h1s (headingsPage ["h1"; "h1"; "h1"]))]
    /\ map target (v_nodes (Full.multipleH1 (Full.h1s (headingsPage ["h1"; "h1"; "h1"]))))
       = [["h1:nth-child(2)"]; ["h1:nth-child(3)"]].
Proof.
  eexists. split; [vm_compute; reflexivity|].
  pose proof (@multiple_h1_rule plainHost (headingsPage ["h1"; "h1"; "h1"]) _ eq_refl)
    as (Hentry & _ & Htargets & _).
  split; [exact Hentry | exact Htargets].
Defined.

(** ** Form elements *)

Lemma nodes_if (c : bool) (v : AccessibilityViolation) :
  List.flat_map v_nodes (if c then [v] else []) = if c then v_nodes v else [].
Proof. destruct c; simpl; by rewrite ?app_nil_r. Qed.

Section Forms.
Context `{Host}.

(** One step of Check 2 adds at most one node to each list, and a node
    for the placeholder only together with a node for the missing label
    of the same element. *)
Lemma formStep_lists document st element index st' :
  Full.formStep document st element index = Returns st' ->
  exists without poor,
    Full.elementsWithoutLabels st' = Full.elementsWithoutLabels st ++ without
    /\ Full.elementsWithPoorLabels st' = Full.elementsWithPoorLabels st ++ poor
    /\ map place poor `sublist_of` map place without.
Proof.
  unfold Full.formStep.
  destruct (Full.needsNoLabel element).
  { intros [= <-]. exists [], []. by rewrite !app_nil_r. }
  destruct (match Dom.getAttribute element "id" with
            | Some i => if Js.truthy i then Full.labelFor document i else Returns None
            | None => Returns None
            end) as [hasLabel|e]; simpl; [|done].
  set (unlabelled := negb (Js.present hasLabel) && _ && _).
  assert (Hshape : forall indicator st',
            st' = Full.mkFormState
                    (if unlabelled then push (Full.elementsWithoutLabels st)
                       (mkNode (Dom.outerHTML element)
                          [nthChild (Js.toLowerCase (Dom.tagName element)) index]
                          (Js.toLowerCase (Dom.tagName element)
                           +:+ " element does not have an accessible label"))
                     else Full.elementsWithoutLabels st)
                    indicator
                    (if Js.truthyOpt (Dom.getAttribute element "placeholder") && unlabelled
                     then push (Full.elementsWithPoorLabels st)
                       (mkNode (Dom.outerHTML element)
                          [nthChild (Js.toLowerCase (Dom.tagName element)) index]
                          "Form element relies only on placeholder text for labeling")
                     else Full.elementsWithPoorLabels st) ->
            exists without poor,
              Full.elementsWithoutLabels st' = Full.elementsWithoutLabels st ++ without
              /\ Full.elementsWithPoorLabels st' = Full.elementsWithPoorLabels st ++ poor
              /\ map place poor `sublist_of` map place without).
  { intros indicator st0 ->. simpl. unfold push.
    destruct unlabelled, (Js.truthyOpt (Dom.getAttribute element "placeholder")); simpl.
    - eexists [_], [_]. repeat split. by apply sublist_skip.
    - eexists [_], []. rewrite app_nil_r. repeat split. apply sublist_nil_l.
    - exists [], []. by rewrite !app_nil_r.
    - exists [], []. by rewrite !app_nil_r. }
  destruct (Dom.hasAttribute element "required").
  - destruct (match hasLabel with
              | Some _ => _
              | None => _
              end) as [label|e]; simpl; [|done].
    intros [= <-]. eapply Hshape. reflexivity.
  - intros [= <-]. eapply Hshape. reflexivity.
Qed.

Lemma forEachFromM_forms document (l : list Node) :
  forall index st st',
    forEachFromM (Full.formStep document) l index st = Returns st' ->
    map place (Full.elementsWithPoorLabels st)
      `sublist_of` map place (Full.elementsWithoutLabels st) ->
    map place (Full.elementsWithPoorLabels st')
      `sublist_of` map place (Full.elementsWithoutLabels st').
Proof.
  induction l as [|element l IH]; simpl; intros index st st' Hrun Hst.
  - by injection Hrun as <-.
  - destruct (Full.formStep document st element index) as [st1|e] eqn:Hstep; simpl in Hrun;
      [|done].
    apply (IH _ _ _ Hrun).
    destruct (formStep_lists _ _ _ _ _ Hstep) as (without & poor & -> & -> & Hsub).
    rewrite !map_app. by apply sublist_app.
Qed.

Lemma pushed_placeholder document formSt htmlElement :
  violationsWithId "placeholder-as-label" (Full.pushedViolations document formSt htmlElement)
  = Full.whenAny (Full.elementsWithPoorLabels formSt) Full.placeholderAsLabel.
Proof. by violations_with_id. Qed.

Lemma nodes_whenAny nodes entry :
  (forall ns, v_nodes (entry ns) = ns) ->
  List.flat_map v_nodes (Full.whenAny nodes entry) = nodes.
Proof. intros Hentry. destruct nodes; simpl; [done|]. by rewrite Hentry, app_nil_r. Qed.

End Forms.

(** X8. For every document that the engine evaluates, the elements
    reported by [placeholder-as-label] are, in their order, among the
    elements reported by [label] (same markup and same selector): a
    [placeholder-as-label] violation never comes without a [label]
    violation. *)
Theorem placeholder_findings_are_label_findings `{Host}
    (document : Document) (r : AccessibilityResult) :
  Full.runAccessibilityChecks document = Returns r ->
  map place (nodesWithId "placeholder-as-label" r) `sublist_of` map place (nodesWithId "label" r)
  /\ (hasViolation "placeholder-as-label" r = true -> hasViolation "label" r = true).
Proof.
  intros Hrun.
  destruct (run_returns _ _ Hrun) as (formSt & htmlElement & Hforms & _ & ->).
  unfold nodesWithId, hasViolation. simpl.
  rewrite pushed_placeholder, pushed_label, !nonEmpty_whenAny, !nodes_whenAny by done.
  assert (Hsub : map place (Full.elementsWithPoorLabels formSt)
                   `sublist_of` map place (Full.elementsWithoutLabels formSt)).
  { eapply forEachFromM_forms; [exact Hforms | done]. }
  split; [done|].
  destruct (Full.elementsWithPoorLabels formSt); [done|].
  destruct (Full.elementsWithoutLabels formSt); [|done].
  simpl in Hsub. by apply sublist_nil_r in Hsub.
Qed.

Lemma placeholder_findings_are_label_findings_witness :
  exists r,
    @Full.runAccessibilityChecks plainHost placeholderOnly = Returns r
    /\ hasViolation "placeholder-as-label" r = true
    /\ hasViolation "label" r = true.
Proof.
  eexists. split; [vm_compute; reflexivity|]. split; [reflexivity|].
  exact (proj2 (@placeholder_findings_are_label_findings plainHost placeholderOnly _ eq_refl)
           eq_refl).
Defined.

Section Labels.
Context `{Host}.

Lemma labelFor_present document element id :
  Dom.getAttribute element "id" = Some id -> Js.truthy id = true ->
  Full.selectorSafe id = true ->
  exists label, Full.labelFor document id = Returns label
                /\ Js.present label = hasLabelFor document element.
Proof.
  intros Hid Htruthy Hsafe. unfold Full.labelFor, hasLabelFor.
  rewrite Hsafe, Hid, Htruthy. eauto.
Qed.

Lemma formStep_findings document st element index :
  safeId element = true ->
  exists st',
    Full.formStep document st element index = Returns st'
    /\ Full.elementsWithoutLabels st'
       = Full.elementsWithoutLabels st ++ labelFinding document element index
    /\ Full.elementsWithPoorLabels st'
       = Full.elementsWithPoorLabels st ++ placeholderFinding document element index.
Proof.
  unfold safeId, Full.formStep, labelFinding, placeholderFinding, labelled, formTarget.
  intros Hsafe.
  destruct (Full.needsNoLabel element).
  { eexists. split; [reflexivity|]. by rewrite !app_nil_r. }
  assert (Hlabel : exists hasLabel,
            (match Dom.getAttribute element "id" with
             | Some i => if Js.truthy i then Full.labelFor document i else Returns None
             | None => Returns None
             end) = Returns hasLabel
            /\ Js.present hasLabel = hasLabelFor document element).
  { unfold hasLabelFor. destruct (Dom.getAttribute element "id") as [id|] eqn:Hid; [|eauto].
    destruct (Js.truthy id) eqn:Htruthy; [|eauto].
    destruct (labelFor_present document element id Hid Htruthy Hsafe) as (label & -> & Hp).
    exists label. split; [done|]. unfold hasLabelFor in Hp. by rewrite Hid, Htruthy in Hp. }
  destruct Hlabel as (hasLabel & -> & Hpresent). simpl. rewrite Hpresent.
  assert (Hrequired : exists label,
            (match hasLabel with
             | Some _ =>
                 match Dom.getAttribute element "id" with
                 | Some i => Full.labelFor document i
                 | None => Returns None
                 end
             | None => Returns None
             end) = Returns label).
  { destruct hasLabel; [|eauto].
    destruct (Dom.getAttribute element "id") as [id|]; [|eauto].
    unfold Full.labelFor. rewrite Hsafe. eauto. }
  destruct Hrequired as (label & Hrequired).
  destruct (Dom.hasAttribute element "required").
  - rewrite Hrequired. simpl. eexists. split; [reflexivity|]. simpl. unfold push.
    destruct (hasLabelFor document element),
      (Js.truthyOpt (Dom.getAttribute element "aria-label")),
      (Js.truthyOpt (Dom.getAttribute element "aria-labelledby")),
      (Js.truthyOpt (Dom.getAttribute element "placeholder")); simpl;
      by rewrite ?app_nil_r.
  - eexists. split; [reflexivity|]. simpl. unfold push.
    destruct (hasLabelFor document element),
      (Js.truthyOpt (Dom.getAttribute element "aria-label")),
      (Js.truthyOpt (Dom.getAttribute element "aria-labelledby")),
      (Js.truthyOpt (Dom.getAttribute element "placeholder")); simpl;
      by rewrite ?app_nil_r.
Qed.

Lemma forEachFromM_findings document (l : list Node) :
  forallb safeId l = true ->
  forall index st,
    exists st',
      forEachFromM (Full.formStep document) l index st = Returns st'
      /\ Full.elementsWithoutLabels st'
         = Full.elementsWithoutLabels st ++ collectFrom (labelFinding document) l index
      /\ Full.elementsWithPoorLabels st'
         = Full.elementsWithPoorLabels st ++ collectFrom (placeholderFinding document) l index.
Proof.
  induction l as [|element l IH]; simpl; intros Hsafe index st.
  - eexists. split; [reflexivity|]. by rewrite !app_nil_r.
  - apply andb_prop in Hsafe as [Helement Hl].
    destruct (formStep_findings document st element index Helement) as (st1 & -> & Hw & Hp).
    simpl. destruct (IH Hl (S index) st1) as (st' & -> & Hw' & Hp').
    exists st'. split; [done|]. rewrite Hw', Hp', Hw, Hp. by rewrite <- !app_assoc.
Qed.

End Labels.

(** X9. For every document that the engine evaluates and whose form
    elements have ids that can be written in a selector, the [label] entry
    holds, in document order, one node for each [input], [textarea] or
    [select] that is not of a skipped type and has neither a
    [label[for]] for its non-empty id, nor a non-empty [aria-label], nor a
    non-empty [aria-labelledby]; [placeholder-as-label] holds those of
    them that have a non-empty placeholder. An element with a non-empty
    [aria-label] or [aria-labelledby] is in neither. *)
Theorem label_rule `{Host} (document : Document) (r : AccessibilityResult) :
  forallb safeId (Full.formElements document) = true ->
  Full.runAccessibilityChecks document = Returns r ->
  nodesWithId "label" r = collect (labelFinding document) (Full.formElements document)
  /\ nodesWithId "placeholder-as-label" r
     = collect (placeholderFinding document) (Full.formElements document)
  /\ (forall element index,
        Js.truthyOpt (Dom.getAttribute element "aria-label") = true
        \/ Js.truthyOpt (Dom.getAttribute element "aria-labelledby") = true ->
        labelFinding document element index = []
        /\ placeholderFinding document element index = []).
Proof.
  intros Hsafe Hrun.
  destruct (run_returns _ _ Hrun) as (formSt & htmlElement & Hforms & _ & ->).
  unfold nodesWithId. simpl.
  rewrite pushed_placeholder, pushed_label, !nodes_whenAny by done.
  destruct (forEachFromM_findings document _ Hsafe 0 (Full.mkFormState [] [] []))
    as (st' & Hrun' & Hw & Hp).
  unfold Full.checkForms, forEachM in Hforms. rewrite Hrun' in Hforms.
  injection Hforms as <-. simpl in Hw, Hp.
  split; [done|]. split; [done|].
  intros element index Haria. unfold labelFinding, placeholderFinding, labelled.
  destruct Haria as [-> | ->]; by rewrite ?orb_true_r.
Qed.

Lemma label_rule_witness :
  exists r,
    @Full.runAccessibilityChecks plainHost placeholderOnly = Returns r
    /\ nodesWithId "label" r
       = collect (labelFinding placeholderOnly) (Full.formElements placeholderOnly)
    /\ map target (collect (labelFinding placeholderOnly) (Full.formElements placeholderOnly))
       = [["input:nth-child(1)"]].
Proof.
  eexists. split; [vm_compute; reflexivity|].
  split; [|reflexivity].
  exact (proj1 (@label_rule plainHost placeholderOnly _ eq_refl eq_refl)).
Defined.

(** ** Buttons and links *)

Lemma collectFrom_length {A B} (g : A -> nat -> list B) (l : list A) (i : nat) :
  (forall x j, length (g x j) <= 1) -> length (collectFrom g l i) <= length l.
Proof.
  intros Hg. revert i. induction l as [|x l IH]; intros i; simpl; [done|].
  rewrite length_app. specialize (Hg x i). specialize (IH (S i)). lia.
Qed.

Lemma collectFrom_two {A B} (g h : A -> nat -> list B) (l : list A) (i : nat) :
  (forall x j, length (g x j) + length (h x j) <= 1) ->
  length (collectFrom g l i) + length (collectFrom h l i) <= length l.
Proof.
  intros Hg. revert i. induction l as [|x l IH]; intros i; simpl; [done|].
  rewrite !length_app. specialize (Hg x i). specialize (IH (S i)). lia.
Qed.

Lemma collectFrom_nonEmpty {A B} (g : A -> nat -> list B) (p : A -> bool) (l : list A) (i : nat) :
  (forall x j, nonEmpty (g x j) = p x) -> nonEmpty (collectFrom g l i) = existsb p l.
Proof.
  intros Hg. revert i. induction l as [|x l IH]; intros i; simpl; [done|].
  rewrite <- (Hg x i), <- (IH (S i)). by destruct (g x i).
Qed.

Lemma buttonsWithoutText_collect (buttons : list Node) :
  Full.buttonsWithoutText (Full.checkButtons buttons) = collect namelessButton buttons.
Proof.
  unfold Full.checkButtons.
  apply (forEach_collect Full.buttonsWithoutText); [done|].
  intros s button i. unfold Full.buttonStep, namelessButton, buttonText, push.
  destruct (Js.orElse _ _) as [[|c t]|]; try done.
  destruct (Js.arrayIncludes _ _); simpl; by rewrite app_nil_r.
Qed.

Lemma buttonsWithPoorText_collect (buttons : list Node) :
  Full.buttonsWithPoorText (Full.checkButtons buttons) = collect vagueButton buttons.
Proof.
  unfold Full.checkButtons.
  apply (forEach_collect Full.buttonsWithPoorText); [done|].
  intros s button i. unfold Full.buttonStep, vagueButton, buttonText, push.
  destruct (Js.orElse _ _) as [[|c t]|]; try (simpl; by rewrite app_nil_r).
  destruct (Js.arrayIncludes _ _); simpl; by rewrite ?app_nil_r.
Qed.

Lemma pushed_button_text_quality `{Host} document formSt htmlElement :
  violationsWithId "button-text-quality" (Full.pushedViolations document formSt htmlElement)
  = Full.whenAny (Full.buttonsWithPoorText (Full.checkButtons (Full.buttons document)))
      Full.buttonTextQuality.
Proof. by violations_with_id. Qed.

(** X10. For every document that the engine evaluates, [button-name]
    holds one node for each button without accessible text (trimmed text
    content, else trimmed [value], else [aria-label], else [title]) and
    [button-text-quality] one node for each button whose accessible text
    is, in lower case, one of the five vague words; the violation
    [button-name] is reported exactly when some button has no accessible
    text; and the two entries together hold at most one node for each
    button. *)
Theorem button_rules `{Host} (document : Document) (r : AccessibilityResult) :
  Full.runAccessibilityChecks document = Returns r ->
  let buttons := Full.buttons document in
  nodesWithId "button-name" r = collect namelessButton buttons
  /\ nodesWithId "button-text-quality" r = collect vagueButton buttons
  /\ hasViolation "button-name" r
     = existsb (fun button => negb (Js.present (buttonText button))) buttons
  /\ length (nodesWithId "button-name" r) + length (nodesWithId "button-text-quality" r)
     <= length buttons.
Proof.
  intros Hrun buttons.
  destruct (run_returns _ _ Hrun) as (formSt & htmlElement & _ & _ & ->).
  unfold nodesWithId, hasViolation. simpl.
  rewrite pushed_button_name, pushed_button_text_quality, nonEmpty_whenAny,
    !nodes_whenAny by done.
  rewrite buttonsWithoutText_collect, buttonsWithPoorText_collect. fold buttons.
  split; [done|]. split; [done|]. split.
  - apply collectFrom_nonEmpty. intros button j. unfold namelessButton.
    by destruct (buttonText button).
  - apply collectFrom_two. intros button j. unfold namelessButton, vagueButton.
    destruct (buttonText button) as [text|]; [|simpl; lia].
    destruct (Js.arrayIncludes _ _); simpl; lia.
Qed.

Lemma button_rules_witness :
  exists r,
    @Full.runAccessibilityChecks plainHost twoButtons = Returns r
    /\ nodesWithId "button-name" r = collect namelessButton (Full.buttons twoButtons)
    /\ map target (collect namelessButton (Full.buttons twoButtons)) = [["button:nth-child(1)"]]
    /\ nodesWithId "button-text-quality" r = collect vagueButton (Full.buttons twoButtons)
    /\ map failureSummary (collect vagueButton (Full.buttons twoButtons))
       = ["Button text " +:+ Dom.quote +:+ "Click" +:+ Dom.quote +:+ " is not descriptive"].
Proof.
  eexists. split; [vm_compute; reflexivity|].
  pose proof (@button_rules plainHost twoButtons _ eq_refl) as (Hname & Hquality & _).
  split; [exact Hname|]. split; [reflexivity|]. split; [exact Hquality | reflexivity].
Defined.

Lemma linksWithoutText_collect (links : list Node) :
  Full.linksWithoutText (Full.checkLinks links) = collect namelessLink links.
Proof.
  unfold Full.checkLinks.
  apply (forEach_collect Full.linksWithoutText); [done|].
  intros s link i. unfold Full.linkStep, namelessLink, linkText, push.
  destruct (Js.orElse _ _) as [[|c t]|]; try done.
  destruct (Full.linkTexts s !! String c t) as [existing|]; simpl; [|by rewrite app_nil_r].
  destruct (bool_decide _); simpl; by rewrite app_nil_r.
Qed.

Lemma linksWithPoorText_collect (links : list Node) :
  Full.linksWithPoorText (Full.checkLinks links) = collect vagueLink links.
Proof.
  unfold Full.checkLinks.
  apply (forEach_collect Full.linksWithPoorText); [done|].
  intros s link i. unfold Full.linkStep, vagueLink, linkText, push.
  destruct (Js.orElse _ _) as [[|c t]|]; try (simpl; by rewrite app_nil_r).
  destruct (Js.arrayIncludes _ _);
    destruct (Full.linkTexts s !! String c t) as [existing|]; simpl;
    try destruct (bool_decide _); simpl; by rewrite ?app_nil_r.
Qed.

Lemma pushed_link_text_quality `{Host} document formSt htmlElement :
  violationsWithId "link-text-quality" (Full.pushedViolations document formSt htmlElement)
  = Full.whenAny (Full.linksWithPoorText (Full.checkLinks (Full.links document)))
      Full.linkTextQuality.
Proof. by violations_with_id. Qed.

(** X11. For every document that the engine evaluates, [link-name] holds
    one node for each link without accessible text (trimmed text content,
    else [aria-label], else [title]) and [link-text-quality] one node for
    each link whose accessible text is, in lower case, one of the six
    vague phrases; the violation [link-name] is reported exactly when some
    link has no accessible text; the two entries together hold at most one
    node for each link; and only [a] elements with an [href] are
    examined. *)
Theorem link_rules `{Host} (document : Document) (r : AccessibilityResult) :
  Full.runAccessibilityChecks document = Returns r ->
  let links := Full.links document in
  nodesWithId "link-name" r = collect namelessLink links
  /\ nodesWithId "link-text-quality" r = collect vagueLink links
  /\ hasViolation "link-name" r
     = existsb (fun link => negb (Js.present (linkText link))) links
  /\ length (nodesWithId "link-name" r) + length (nodesWithId "link-text-quality" r)
     <= length links
  /\ Forall (fun link => Dom.hasAttribute link "href" = true) links.
Proof.
  intros Hrun links.
  destruct (run_returns _ _ Hrun) as (formSt & htmlElement & _ & _ & ->).
  unfold nodesWithId, hasViolation. simpl.
  rewrite pushed_link_name, pushed_link_text_quality, nonEmpty_whenAny,
    !nodes_whenAny by done.
  rewrite linksWithoutText_collect, linksWithPoorText_collect. fold links.
  split; [done|]. split; [done|]. split; [|split].
  - apply collectFrom_nonEmpty. intros link j. unfold namelessLink.
    by destruct (linkText link).
  - apply collectFrom_two. intros link j. unfold namelessLink, vagueLink.
    destruct (linkText link) as [text|]; [|simpl; lia].
    destruct (Js.arrayIncludes _ _); simpl; lia.
  - apply List.Forall_forall. intros link Hin.
    apply List.filter_In in Hin as [_ Hsel].
    unfold Full.linkSelector, Dom.both, Dom.attrPresent in Hsel.
    by apply andb_prop in Hsel as [_ Hhref].
Qed.

Lemma link_rules_witness :
  exists r,
    @Full.runAccessibilityChecks plainHost twoLinks = Returns r
    /\ nodesWithId "link-text-quality" r = collect vagueLink (Full.links twoLinks)
    /\ map target (collect vagueLink (Full.links twoLinks))
       = [["a:nth-child(1)"]; ["a:nth-child(2)"]].
Proof.
  eexists. split; [vm_compute; reflexivity|].
  pose proof (@link_rules plainHost twoLinks _ eq_refl) as (_ & Hquality & _).
  split; [exact Hquality | reflexivity].
Defined.

Lemma emptyHeadings_collect (headings : list Node) :
  Full.emptyHeadings (Full.checkHeadings headings) = collect emptyFinding headings.
Proof.
  unfold Full.checkHeadings.
  apply (forEach_collect Full.emptyHeadings); [done|].
  intros s heading i. unfold Full.headingStep, emptyFinding, push.
  destruct (0 <? i)%nat; [destruct (Full.skipsFrom _ _)|]; simpl;
    destruct (Js.truthy _); simpl; by rewrite ?app_nil_r.
Qed.

Lemma pushed_empty_heading `{Host} document formSt htmlElement :
  violationsWithId "empty-heading" (Full.pushedViolations document formSt htmlElement)
  = Full.whenAny (Full.emptyHeadings (Full.checkHeadings (Full.headings document)))
      Full.emptyHeading.
Proof. by violations_with_id. Qed.

(** ** Tables *)

Lemma filter_nonEmpty {A} (p : A -> bool) (l : list A) :
  (length (List.filter p l) =? 0)%nat = negb (existsb p l).
Proof. induction l as [|x l IH]; simpl; [done|]. by destruct (p x). Qed.

Lemma tablesWithoutHeaders_collect (tables : list Node) :
  Full.tablesWithoutHeaders (Full.checkTables tables) = collect headerFinding tables.
Proof.
  unfold Full.checkTables.
  apply (forEach_collect Full.tablesWithoutHeaders); [done|].
  intros s table i. unfold Full.tableStep, headerFinding, push, Dom.querySelectorAllIn. simpl.
  rewrite filter_nonEmpty.
  destruct (existsb _ _); simpl; by rewrite ?app_nil_r.
Qed.

Lemma length_substring0 (s : string) (n : nat) : String.length (Js.substring0 s n) <= n.
Proof.
  unfold Js.substring0. revert s. induction n as [|n IH]; intros s.
  - destruct s; simpl; lia.
  - destruct s as [|c s]; simpl; [lia|]. specialize (IH s). lia.
Qed.

Lemma substring0_short (s : string) (n : nat) :
  String.length s <= n -> Js.substring0 s n = s.
Proof.
  unfold Js.substring0. revert s. induction n as [|n IH]; intros s Hlen.
  - destruct s; [done | simpl in Hlen; lia].
  - destruct s as [|c s]; simpl; [done|]. rewrite IH; [done|]. simpl in Hlen. lia.
Qed.

Lemma Forall_collectFrom {A B} (P : B -> Prop) (g : A -> nat -> list B) (l : list A) (i : nat) :
  (forall x j, Forall P (g x j)) -> Forall P (collectFrom g l i).
Proof.
  intros Hg. revert i. induction l as [|x l IH]; intros i; simpl; [constructor|].
  apply Forall_app. split; [apply Hg | apply IH].
Qed.

(** X12. For every document that the engine evaluates, [table-headers]
    holds one node for each [table] without a [th] among its descendants;
    the markup of each node is at most 203 characters long and ends with
    three dots, which are appended even to a table whose markup has 200
    characters or fewer. *)
Theorem table_header_findings `{Host} (document : Document) (r : AccessibilityResult) :
  Full.runAccessibilityChecks document = Returns r ->
  nodesWithId "table-headers" r = collect headerFinding (Full.tables document)
  /\ hasViolation "table-headers" r
     = existsb (fun table => negb (existsb (Dom.tag ["th"]) (Dom.descendants table)))
         (Full.tables document)
  /\ Forall (fun node =>
               String.length (html node) <= 203
               /\ exists excerpt, html node = excerpt +:+ "...")
       (nodesWithId "table-headers" r)
  /\ (forall table index,
        String.length (Dom.outerHTML table) <= 200 ->
        Forall (fun node => html node = Dom.outerHTML table +:+ "...")
          (headerFinding table index)).
Proof.
  intros Hrun.
  destruct (run_returns _ _ Hrun) as (formSt & htmlElement & _ & _ & ->).
  unfold nodesWithId, hasViolation. simpl.
  rewrite pushed_table_headers, nonEmpty_whenAny, nodes_whenAny by done.
  rewrite tablesWithoutHeaders_collect.
  split; [done|]. split; [|split].
  - apply collectFrom_nonEmpty. intros table j. unfold headerFinding.
    by destruct (existsb _ _).
  - apply Forall_collectFrom. intros table j. unfold headerFinding.
    destruct (existsb _ _); constructor; [|constructor]. simpl. split; [|eauto].
    rewrite length_append. pose proof (length_substring0 (Dom.outerHTML table) 200).
    simpl. lia.
  - intros table index Hshort. unfold headerFinding.
    destruct (existsb _ _); constructor; [|constructor]. simpl.
    by rewrite substring0_short.
Qed.

Lemma table_header_findings_witness :
  exists r,
    @Full.runAccessibilityChecks plainHost plainTable = Returns r
    /\ nodesWithId "table-headers" r = collect headerFinding (Full.tables plainTable)
    /\ map html (collect headerFinding (Full.tables plainTable))
       = ["<table><tr><td>1</td></tr></table>..."].
Proof.
  eexists. split; [vm_compute; reflexivity|].
  split; [|reflexivity].
  exact (proj1 (@table_header_findings plainHost plainTable _ eq_refl)).
Defined.

(** ** The start tag of the root *)

Lemma occurs_append (c : ascii) (a b : string) :
  occurs c (a +:+ b) = occurs c a || occurs c b.
Proof.
  induction a as [|x a IH]; [done|]. rewrite append_cons. simpl.
  by rewrite IH, orb_assoc.
Qed.

Lemma occurs_escape (s : string) : occurs ">" s = false -> occurs ">" (Dom.escape true s) = false.
Proof.
  induction s as [|x s IH]; [done|]. simpl. intros Hs.
  apply orb_false_elim in Hs as [Hx Hs]. specialize (IH Hs).
  destruct (Ascii.eqb x "&"); [by rewrite occurs_append, IH|].
  destruct (Js.code x =? 160)%nat; [by rewrite occurs_append, IH|].
  destruct (Js.code x =? 34)%nat; [by rewrite occurs_append, IH|].
  simpl. by rewrite Hx, IH.
Qed.

Lemma append_empty_r (s : string) : s +:+ EmptyString = s.
Proof. induction s as [|x s IH]; [done|]. by rewrite append_cons, IH. Qed.

Lemma concat_cons (x : string) (l : list string) :
  String.concat EmptyString (x :: l) = x +:+ String.concat EmptyString l.
Proof. destruct l; [by rewrite append_empty_r | reflexivity]. Qed.

Lemma occurs_attributes (attrs : list (string * string)) :
  forallb (fun a => negb (occurs ">" (fst a)) && negb (occurs ">" (snd a))) attrs = true ->
  occurs ">" (String.concat EmptyString (map Dom.serializeAttribute attrs)) = false.
Proof.
  induction attrs as [|a attrs IH]; [done|]. cbn [forallb map]. intros Hattrs.
  apply andb_prop in Hattrs as [Ha Hattrs]. apply andb_prop in Ha as [Hname Hvalue].
  apply negb_true_iff in Hname. apply negb_true_iff in Hvalue.
  rewrite concat_cons, occurs_append, (IH Hattrs).
  unfold Dom.serializeAttribute. rewrite !occurs_append, Hname, (occurs_escape _ Hvalue).
  reflexivity.
Qed.

Lemma splitHead_append (a rest : string) (sep : ascii) :
  occurs sep a = false -> Js.splitHead (a +:+ String sep rest) sep = a.
Proof.
  induction a as [|x a IH]; intros Ha.
  - change (EmptyString +:+ ?s) with s. simpl. by rewrite Ascii.eqb_refl.
  - rewrite append_cons. simpl in *. apply orb_false_elim in Ha as [Hx Ha].
    rewrite Hx. by rewrite IH.
Qed.

Lemma outerHTML_startTag (name : string) attrs children :
  exists rest,
    Dom.outerHTML (Element name attrs children)
    = ("<" +:+ name +:+ String.concat EmptyString (map Dom.serializeAttribute attrs))
      +:+ String ">" rest.
Proof.
  unfold Dom.outerHTML. cbn [Dom.serialize].
  eexists. rewrite !append_assoc. reflexivity.
Qed.

Lemma snippet_startTag (htmlElement : Node) :
  plainStartTag htmlElement = true ->
  Js.splitHead (Dom.outerHTML htmlElement) ">" +:+ ">" = startTag htmlElement.
Proof.
  destruct htmlElement as [d|d|name attrs children]; try done.
  unfold plainStartTag, startTag. intros Hplain.
  apply andb_prop in Hplain as [Hname Hattrs]. apply negb_true_iff in Hname.
  destruct (outerHTML_startTag name attrs children) as [rest ->].
  rewrite splitHead_append.
  - by rewrite !append_assoc.
  - rewrite !occurs_append, Hname, (occurs_attributes _ Hattrs). reflexivity.
Qed.

(** ** Empty headings *)

Lemma textContent_without_text (name : string) attrs (children : list Node) :
  Forall (fun child => Dom.textContent child = EmptyString) children ->
  Dom.textContent (Element name attrs children) = EmptyString.
Proof.
  intros Hchildren. cbn [Dom.textContent].
  induction Hchildren as [|child children Hchild _ IH]; [done|].
  cbn [map]. by rewrite concat_cons, Hchild, IH.
Qed.

(** X13. For every document that the engine evaluates, [empty-heading]
    holds one node for each heading whose trimmed text content is empty,
    with the bare tag name as its selector; a heading whose children
    have no text content, such as one that holds only an image, is
    reported whatever attributes the children carry. *)
Theorem empty_heading_rule `{Host} (document : Document) (r : AccessibilityResult) :
  Full.runAccessibilityChecks document = Returns r ->
  let headings := Full.headings document in
  nodesWithId "empty-heading" r = collect emptyFinding headings
  /\ hasViolation "empty-heading" r
     = existsb (fun heading => negb (Js.truthy (Js.trim (Dom.textContent heading)))) headings
  /\ (forall name attrs children index,
        Forall (fun child => Dom.textContent child = EmptyString) children ->
        emptyFinding (Element name attrs children) index
        = [mkNode (Dom.outerHTML (Element name attrs children))
             [Js.toLowerCase (Js.asciiUpper name)] "Heading is empty"]).
Proof.
  intros Hrun headings.
  destruct (run_returns _ _ Hrun) as (formSt & htmlElement & _ & _ & ->).
  unfold nodesWithId, hasViolation. simpl.
  rewrite pushed_empty_heading, nonEmpty_whenAny, nodes_whenAny by done.
  rewrite emptyHeadings_collect. fold headings.
  split; [done|]. split.
  - apply collectFrom_nonEmpty. intros heading j. unfold emptyFinding.
    by destruct (Js.truthy _).
  - intros name attrs children index Hchildren. unfold emptyFinding.
    by rewrite (textContent_without_text name attrs children Hchildren).
Qed.

Lemma empty_heading_rule_witness :
  exists r,
    @Full.runAccessibilityChecks plainHost imageHeading = Returns r
    /\ nodesWithId "empty-heading" r = collect emptyFinding (Full.headings imageHeading)
    /\ map target (collect emptyFinding (Full.headings imageHeading)) = [["h1"]].
Proof.
  eexists. split; [vm_compute; reflexivity|]. split; [|reflexivity].
  exact (proj1 (@empty_heading_rule plainHost imageHeading _ eq_refl)).
Defined.

(** X14. For every document that the engine evaluates, [html-has-lang]
    is reported exactly when the root has no [lang] or an empty one; when
    no name or value of the root holds the character [>], the markup of
    its node is the start tag of the root with all its attributes. *)
Theorem html_has_lang_snippet `{Host}
    (document : Document) (r : AccessibilityResult) (htmlElement : Node) :
  Full.runAccessibilityChecks document = Returns r ->
  documentElement document = Some htmlElement ->
  hasViolation "html-has-lang" r = negb (Js.truthyOpt (Dom.getAttribute htmlElement "lang"))
  /\ (plainStartTag htmlElement = true ->
      map html (nodesWithId "html-has-lang" r)
      = if Js.truthyOpt (Dom.getAttribute htmlElement "lang") then []
        else [startTag htmlElement]).
Proof.
  intros Hrun Hroot.
  destruct (run_returns _ _ Hrun) as (formSt & htmlElement' & _ & Hroot' & ->).
  rewrite Hroot in Hroot'. injection Hroot' as <-.
  unfold nodesWithId, hasViolation. simpl.
  rewrite pushed_html_has_lang, nodes_if.
  destruct (Js.truthyOpt _); simpl; [done|].
  split; [done|]. intros Hplain. by rewrite snippet_startTag.
Qed.

Lemma html_has_lang_snippet_witness :
  exists r,
    @Full.runAccessibilityChecks plainHost withoutLang = Returns r
    /\ map html (nodesWithId "html-has-lang" r)
       = ["<html class=" +:+ Dom.quote +:+ "no-js" +:+ Dom.quote +:+ ">"].
Proof.
  eexists. split; [vm_compute; reflexivity|].
  exact (proj2 (@html_has_lang_snippet plainHost withoutLang _ _ eq_refl eq_refl) eq_refl).
Defined.

(** ** The two engines *)

Lemma collectFrom_singletons {A B} (f : A -> B) (l : list A) (i : nat) :
  collectFrom (fun x (_ : nat) => [f x]) l i = map f l.
Proof. revert i. induction l as [|x l IH]; intros i; simpl; [done|]. by rewrite IH. Qed.

Lemma headingLevels_map (headings : list Node) :
  Reduced.headingLevels headings = map Full.headingLevel headings.
Proof.
  unfold Reduced.headingLevels.
  rewrite (forEach_collect (fun levels => levels) _
             (fun heading (_ : nat) => [Full.headingLevel heading])); [|done|done].
  apply collectFrom_singletons.
Qed.

Lemma full_headingLevels_map (headings : list Node) :
  Full.headingLevels (Full.checkHeadings headings) = map Full.headingLevel headings.
Proof.
  unfold Full.checkHeadings.
  rewrite (forEach_collect Full.headingLevels _
             (fun heading (_ : nat) => [Full.headingLevel heading])); [|done|].
  - apply collectFrom_singletons.
  - intros s heading i. unfold Full.headingStep, push.
    destruct (0 <? i)%nat; [destruct (Full.skipsFrom _ _)|]; done.
Qed.

Lemma skipStep_at (headings pre rest : list Node) (previous heading : Node)
    (acc : list AccessibilityNode) :
  headings = pre ++ previous :: heading :: rest ->
  Reduced.skipStep headings (map Full.headingLevel headings) acc (length pre + 1)
  = Returns (acc ++ (if Full.skipsFrom (Full.headingLevel previous) (Full.headingLevel heading)
                     then [Full.skipNode heading (Full.headingLevel previous)
                             (Full.headingLevel heading)]
                     else [])).
Proof.
  intros Hheadings.
  assert (Hcurrent : headings !! (length pre + 1)%nat = Some heading).
  { rewrite Hheadings. rewrite lookup_app_r by lia.
    by replace (length pre + 1 - length pre)%nat with 1%nat by lia. }
  assert (Hprevious : headings !! (length pre + 1 - 1)%nat = Some previous).
  { rewrite Hheadings. rewrite lookup_app_r by lia.
    by replace (length pre + 1 - 1 - length pre)%nat with 0%nat by lia. }
  unfold Reduced.skipStep.
  change (map Full.headingLevel headings) with (Full.headingLevel <$> headings).
  rewrite !list_lookup_fmap, Hcurrent, Hprevious. simpl.
  destruct (Full.skipsFrom _ _); [done | by rewrite app_nil_r].
Qed.

Lemma forLoop_skips (headings : list Node) (rest : list Node) :
  forall (pre : list Node) (previous : Node) (acc : list AccessibilityNode),
    headings = pre ++ previous :: rest ->
    Reduced.forLoop (Reduced.skipStep headings (map Full.headingLevel headings))
      (length pre + 1) (length rest) acc
    = Returns (acc ++ skipsAfter previous rest).
Proof.
  induction rest as [|heading rest IH]; intros pre previous acc Hheadings.
  - simpl. by rewrite app_nil_r.
  - cbn [length Reduced.forLoop skipsAfter].
    rewrite (skipStep_at headings pre rest previous heading acc Hheadings).
    cbn [mbind Outcome_bind].
    replace (S (length pre + 1)) with (length (pre ++ [previous]) + 1)%nat
      by (rewrite length_app; simpl; lia).
    rewrite (IH (pre ++ [previous]) heading); [|by rewrite <- app_assoc].
    by rewrite <- app_assoc.
Qed.

Lemma reduced_skippedHeadings (headings : list Node) :
  Reduced.skippedHeadings headings = Returns (consecutiveSkips headings).
Proof.
  unfold Reduced.skippedHeadings. rewrite headingLevels_map, length_map.
  destruct headings as [|first rest]; [done|].
  cbn [length]. replace (S (length rest) - 1)%nat with (length rest) by lia.
  exact (forLoop_skips (first :: rest) rest [] first [] eq_refl).
Qed.

(** X15. On every list of headings, the counted loop of the reduced
    engine returns, without throwing, the skipped headings that the
    [forEach] loop of the fuller engine collects, and both engines collect
    the same levels. *)
Theorem heading_loops_agree (headings : list Node) :
  Reduced.skippedHeadings headings
  = Returns (Full.skippedHeadings (Full.checkHeadings headings))
  /\ Reduced.headingLevels headings = Full.headingLevels (Full.checkHeadings headings).
Proof.
  split; [by rewrite reduced_skippedHeadings, skippedHeadings_consecutive|].
  by rewrite headingLevels_map, full_headingLevels_map.
Qed.

Section ReducedResults.
Context `{Host}.

Lemma reduced_run_returns document r :
  Reduced.runAccessibilityChecks document = Returns r ->
  exists inputsWithoutLabels htmlElement,
    Reduced.checkInputs document (Reduced.inputs document) = Returns inputsWithoutLabels
    /\ documentElement document = Some htmlElement
    /\ r = mkResult
             (Reduced.pushedViolations document inputsWithoutLabels htmlElement
                (consecutiveSkips (Full.headings document)))
             (Reduced.pushedPasses document htmlElement) [].
Proof.
  unfold Reduced.runAccessibilityChecks.
  destruct (Reduced.checkInputs _ _) as [inputsWithoutLabels|e]; simpl; [|done].
  destruct (documentElement document) as [htmlElement|]; simpl; [|done].
  rewrite reduced_skippedHeadings. simpl. intros [= <-]. eauto.
Qed.

Ltac reduced_with_id :=
  unfold Reduced.pushedViolations, Reduced.imageViolations;
  rewrite ?withId_app, ?withId_whenAny, ?withId_if;
  unfold hasId; simpl;
  rewrite ?andb_false_r, ?andb_true_r; simpl;
  rewrite ?app_nil_r.

Lemma reduced_heading_order document inputsWithoutLabels htmlElement skipped :
  violationsWithId "heading-order"
    (Reduced.pushedViolations document inputsWithoutLabels htmlElement skipped)
  = Full.whenAny skipped Reduced.headingOrder.
Proof. by reduced_with_id. Qed.

Lemma reduced_document_title document inputsWithoutLabels htmlElement skipped :
  violationsWithId "document-title"
    (Reduced.pushedViolations document inputsWithoutLabels htmlElement skipped)
  = if negb (Full.hasTitle (Full.title document))
    then [Reduced.documentTitle (Full.title document)] else [].
Proof. by reduced_with_id. Qed.

Lemma reduced_html_has_lang document inputsWithoutLabels htmlElement skipped :
  violationsWithId "html-has-lang"
    (Reduced.pushedViolations document inputsWithoutLabels htmlElement skipped)
  = if negb (Js.truthyOpt (Dom.getAttribute htmlElement "lang"))
    then [Reduced.htmlHasLang htmlElement] else [].
Proof. by reduced_with_id. Qed.

Lemma reduced_link_name document inputsWithoutLabels htmlElement skipped :
  violationsWithId "link-name"
    (Reduced.pushedViolations document inputsWithoutLabels htmlElement skipped)
  = Full.whenAny (Reduced.linksWithoutText (Full.links document)) Reduced.linkName.
Proof. by reduced_with_id. Qed.

Lemma reduced_ids document inputsWithoutLabels htmlElement skipped :
  map v_id (Reduced.pushedViolations document inputsWithoutLabels htmlElement skipped)
    `sublist_of` reducedRuleIds.
Proof.
  unfold Reduced.pushedViolations, Reduced.imageViolations. rewrite !map_app.
  change reducedRuleIds with
    (["image-alt"] ++ ["label"] ++ ["document-title"] ++ ["html-has-lang"] ++ ["link-name"]
     ++ ["button-name"] ++ ["heading-order"]).
  repeat (apply sublist_app; [first [by apply ids_whenAny | apply ids_if]|]).
  by apply ids_whenAny.
Qed.

End ReducedResults.

Lemma reduced_passes_with_id `{Host} (id : string) document htmlElement :
  In id ["image-alt"; "document-title"; "html-has-lang"] ->
  nonEmpty (passesWithId id (Reduced.pushedPasses document htmlElement))
  = nonEmpty (passesWithId id
                (Full.emitPasses
                   (Full.passChecks document (Full.mkFormState [] [] []) htmlElement))).
Proof.
  intros Hid. rewrite passesWithId_emit.
  unfold Reduced.pushedPasses, Reduced.imagePasses, passesWithId.
  rewrite !List.filter_app, reduced_imagesWithoutAlt_collect.
  unfold Full.passChecks. rewrite imagesWithoutAlt_collect.
  simpl in Hid. destruct Hid as [<-|[<-|[<-|[]]]]; simpl;
    rewrite emitPasses_one; unfold emitOne; simpl;
    repeat match goal with |- context [if ?c then _ else _] => destruct c end; done.
Qed.

Lemma full_passes_formSt `{Host} (id : string) document formSt formSt' htmlElement :
  In id ["image-alt"; "document-title"; "html-has-lang"] ->
  passesWithId id (Full.emitPasses (Full.passChecks document formSt htmlElement))
  = passesWithId id (Full.emitPasses (Full.passChecks document formSt' htmlElement)).
Proof.
  intros Hid. rewrite !passesWithId_emit. unfold Full.passChecks.
  simpl in Hid. destruct Hid as [<-|[<-|[<-|[]]]]; reflexivity.
Qed.

Lemma reduced_pass_ids `{Host} document htmlElement :
  map p_id (Reduced.pushedPasses document htmlElement)
    `sublist_of` ["image-alt"; "document-title"; "html-has-lang"].
Proof.
  unfold Reduced.pushedPasses, Reduced.imagePasses. rewrite !map_app.
  change ["image-alt"; "document-title"; "html-has-lang"]
    with (["image-alt"] ++ ["document-title"] ++ ["html-has-lang"]).
  repeat apply sublist_app;
    match goal with |- context [if ?c then _ else _] => destruct c end;
    simpl; first [done | apply sublist_nil_l].
Qed.

(** X16. For every document that both engines evaluate, the nodes of
    [heading-order], [document-title] and [html-has-lang] are the same in
    both results; the passes [image-alt], [document-title] and
    [html-has-lang] are emitted by the reduced engine exactly when the
    fuller engine emits them; the reduced engine reports only its seven
    rule ids, in the order of its pushes, and only these three passes; and
    its [incomplete] is empty. *)
Theorem engines_agree_on_document_rules `{Host}
    (document : Document) (full reduced : AccessibilityResult) :
  Full.runAccessibilityChecks document = Returns full ->
  Reduced.runAccessibilityChecks document = Returns reduced ->
  nodesWithId "heading-order" reduced = nodesWithId "heading-order" full
  /\ nodesWithId "document-title" reduced = nodesWithId "document-title" full
  /\ nodesWithId "html-has-lang" reduced = nodesWithId "html-has-lang" full
  /\ (forall id, In id ["image-alt"; "document-title"; "html-has-lang"] ->
        hasPass id reduced = hasPass id full)
  /\ map v_id (violations reduced) `sublist_of` reducedRuleIds
  /\ map p_id (passes reduced) `sublist_of` ["image-alt"; "document-title"; "html-has-lang"]
  /\ incomplete reduced = [].
Proof.
  intros Hfull Hreduced.
  destruct (run_returns _ _ Hfull) as (formSt & htmlElement & _ & Hroot & ->).
  destruct (reduced_run_returns _ _ Hreduced) as (inputs & htmlElement' & _ & Hroot' & ->).
  rewrite Hroot in Hroot'. injection Hroot' as <-.
  unfold nodesWithId, hasPass. simpl.
  rewrite reduced_heading_order, reduced_document_title, reduced_html_has_lang,
    pushed_heading_order, pushed_document_title, pushed_html_has_lang,
    skippedHeadings_consecutive, !nodes_whenAny, !nodes_if by done.
  split; [done|]. split; [done|]. split; [done|]. split.
  { intros id Hid. rewrite (reduced_passes_with_id id) by done.
    by rewrite (full_passes_formSt id document formSt (Full.mkFormState [] [] [])). }
  split; [apply reduced_ids|]. split; [apply reduced_pass_ids | done].
Qed.

Lemma engines_agree_on_document_rules_witness :
  exists full reduced,
    @Full.runAccessibilityChecks plainHost (headingsPage ["h1"; "h2"; "h4"]) = Returns full
    /\ @Reduced.runAccessibilityChecks plainHost (headingsPage ["h1"; "h2"; "h4"])
       = Returns reduced
    /\ nodesWithId "heading-order" reduced = nodesWithId "heading-order" full
    /\ map html (nodesWithId "heading-order" full) = ["<h4>h4</h4>"].
Proof.
  eexists _, _. split; [vm_compute; reflexivity|]. split; [vm_compute; reflexivity|].
  split; [|reflexivity].
  exact (proj1 (@engines_agree_on_document_rules plainHost (headingsPage ["h1"; "h2"; "h4"])
                  _ _ eq_refl eq_refl)).
Defined.

Lemma present_linkText (link : Node) :
  Js.present (linkText link)
  = Js.truthy (Js.trim (Dom.textContent link))
    || Js.truthyOpt (Dom.getAttribute link "aria-label")
    || Js.truthyOpt (Dom.getAttribute link "title").
Proof.
  unfold linkText, Js.orElse.
  destruct (Js.trim (Dom.textContent link)) as [|c t]; simpl; [|done].
  destruct (Dom.getAttribute link "aria-label") as [[|c t]|]; simpl; try done;
    destruct (Dom.getAttribute link "title") as [[|c' t']|]; done.
Qed.

Lemma reduced_linksWithoutText_collect (links : list Node) :
  Reduced.linksWithoutText links = collect reducedNamelessLink links.
Proof.
  unfold Reduced.linksWithoutText.
  apply (forEach_collect (fun l => l)); [done|].
  intros s link i. unfold Reduced.linkStep, reducedNamelessLink, push.
  rewrite present_linkText.
  destruct (Js.truthy _), (Js.truthyOpt (Dom.getAttribute link "aria-label")),
    (Js.truthyOpt (Dom.getAttribute link "aria-labelledby")),
    (Js.truthyOpt (Dom.getAttribute link "title")); simpl; by rewrite ?app_nil_r.
Qed.

Lemma sublist_collectFrom {A B} (g h : A -> nat -> list B) (l : list A) (i : nat) :
  (forall x j, g x j `sublist_of` h x j) -> collectFrom g l i `sublist_of` collectFrom h l i.
Proof.
  intros Hg. revert i. induction l as [|x l IH]; intros i; simpl; [done|].
  by apply sublist_app.
Qed.

Lemma collectFrom_ext {A B} (g h : A -> nat -> list B) (l : list A) (i : nat) :
  (forall x j, In x l -> g x j = h x j) -> collectFrom g l i = collectFrom h l i.
Proof.
  revert i. induction l as [|x l IH]; intros i Hg; simpl; [done|].
  rewrite (Hg x i) by (by left). rewrite IH; [done|]. intros y j Hy. apply Hg. by right.
Qed.

(** X17. For every document that both engines evaluate, the links that
    the reduced engine reports under [link-name] are, in their order, among
    those that the fuller engine reports, with identical nodes: the reduced
    engine takes a non-empty [aria-labelledby] for a name, the fuller one
    does not. The two lists are equal when no link has a non-empty
    [aria-labelledby]. *)
Theorem reduced_link_findings_are_full_findings `{Host}
    (document : Document) (full reduced : AccessibilityResult) :
  Full.runAccessibilityChecks document = Returns full ->
  Reduced.runAccessibilityChecks document = Returns reduced ->
  let links := Full.links document in
  nodesWithId "link-name" reduced = collect reducedNamelessLink links
  /\ nodesWithId "link-name" reduced `sublist_of` nodesWithId "link-name" full
  /\ (forallb (fun link => negb (Js.truthyOpt (Dom.getAttribute link "aria-labelledby"))) links
      = true ->
      nodesWithId "link-name" reduced = nodesWithId "link-name" full).
Proof.
  intros Hfull Hreduced links.
  destruct (run_returns _ _ Hfull) as (formSt & htmlElement & _ & Hroot & ->).
  destruct (reduced_run_returns _ _ Hreduced) as (inputs & htmlElement' & _ & Hroot' & ->).
  unfold nodesWithId. simpl.
  rewrite reduced_link_name, pushed_link_name, !nodes_whenAny by done.
  rewrite reduced_linksWithoutText_collect, linksWithoutText_collect. fold links.
  split; [done|]. split.
  - apply sublist_collectFrom. intros link j. unfold reducedNamelessLink, namelessLink.
    destruct (linkText link); simpl; [done|].
    destruct (Js.truthyOpt _); [apply sublist_nil_l | done].
  - intros Hnone. apply collectFrom_ext. intros link j Hin.
    rewrite forallb_forall in Hnone. specialize (Hnone link Hin).
    apply negb_true_iff in Hnone.
    unfold reducedNamelessLink, namelessLink. rewrite Hnone.
    by destruct (linkText link).
Qed.

Lemma reduced_link_findings_are_full_findings_witness :
  exists full reduced,
    @Full.runAccessibilityChecks plainHost labelledbyLink = Returns full
    /\ @Reduced.runAccessibilityChecks plainHost labelledbyLink = Returns reduced
    /\ nodesWithId "link-name" reduced `sublist_of` nodesWithId "link-name" full
    /\ nodesWithId "link-name" reduced = []
    /\ map target (nodesWithId "link-name" full) = [["a:nth-child(1)"]].
Proof.
  eexists _, _. split; [vm_compute; reflexivity|]. split; [vm_compute; reflexivity|].
  split; [|split; reflexivity].
  exact (proj1 (proj2 (@reduced_link_findings_are_full_findings plainHost labelledbyLink
                         _ _ eq_refl eq_refl))).
Defined.

Section ReducedFailures.
Context `{Host}.

Lemma inputStep_safe document acc input index :
  safeId input = true -> exists acc', Reduced.inputStep document acc input index = Returns acc'.
Proof.
  unfold safeId, Reduced.inputStep. intros Hsafe.
  destruct (Dom.getAttribute input "id") as [id|]; simpl.
  - destruct (Js.truthy id); simpl.
    + destruct (labelFor_safe document id Hsafe) as [label ->]. simpl.
      destruct (_ && _); eauto.
    + destruct (_ && _); eauto.
  - destruct (_ && _); eauto.
Qed.

Lemma checkInputs_safe document (l : list Node) :
  forallb safeId l = true ->
  forall index acc, exists acc', forEachFromM (Reduced.inputStep document) l index acc = Returns acc'.
Proof.
  induction l as [|input l IH]; simpl; intros Hsafe index acc; [eauto|].
  apply andb_prop in Hsafe as [Hinput Hl].
  destruct (inputStep_safe document acc input index Hinput) as [acc' ->]. simpl.
  by apply IH.
Qed.

End ReducedFailures.

(** X18. The reduced engine throws the [TypeError] of a [null]
    dereference on a document without a root, and returns a result for
    every document with a root whose text inputs have ids that can be
    written in a selector. *)
Theorem reduced_evaluation_failures `{Host} (document : Document) :
  (documentElement document = None ->
   Reduced.runAccessibilityChecks document = Throws nullGetAttribute)
  /\ (forall root,
        documentElement document = Some root ->
        forallb safeId (Reduced.inputs document) = true ->
        exists r, Reduced.runAccessibilityChecks document = Returns r).
Proof.
  split.
  - intros Hroot. unfold Reduced.runAccessibilityChecks, Reduced.inputs, Dom.querySelectorAll,
      Dom.allElements. by rewrite Hroot.
  - intros root Hroot Hsafe. unfold Reduced.runAccessibilityChecks, Reduced.checkInputs, forEachM.
    destruct (checkInputs_safe document _ Hsafe 0 []) as [acc ->]. rewrite Hroot. simpl.
    rewrite reduced_skippedHeadings. simpl. eauto.
Qed.

Lemma reduced_evaluation_failures_witness :
  @Reduced.runAccessibilityChecks plainHost nullDocument = Throws nullGetAttribute
  /\ exists r, @Reduced.runAccessibilityChecks plainHost placeholderOnly = Returns r.
Proof.
  split.
  - exact (proj1 (@reduced_evaluation_failures plainHost nullDocument) eq_refl).
  - exact (proj2 (@reduced_evaluation_failures plainHost placeholderOnly) _ eq_refl eq_refl).
Defined.

(** ** The handler *)

Section PostLemmas.
Context `{Host}.

Lemma handleError_status (e : JsError) :
  exists error status,
    Post.handleError e = ErrorJson error status
    /\ (status = 400 \/ status = 408 \/ status = 500)%nat.
Proof.
  unfold Post.handleError.
  destruct (_ && _); [eauto 6|]. destruct (Js.includes _ _); eauto 6.
Qed.

Lemma scrape_without_key (env : Environment) (url : string) :
  Js.truthyOpt (FIRECRAWL_API_KEY env) = false ->
  Post.scrape env url = raise (mkError "Error" "Firecrawl API key not configured").
Proof. unfold Post.scrape. by destruct (FIRECRAWL_API_KEY env) as [[|c t]|]. Qed.

Lemma scrape_with_key (env : Environment) (apiKey url : string) :
  FIRECRAWL_API_KEY env = Some apiKey -> Js.truthy apiKey = true ->
  calls (Post.scrape env url) = [ScrapeUrl apiKey url]
  /\ match step (Post.scrape env url) with
     | Continue html =>
         scrapeFails env apiKey url = false
         /\ exists result,
              scrapeUrl env apiKey url = Returns result
              /\ success result = true /\ scrapedHtml result = Some html
              /\ Js.truthy html = true
     | Reply _ => False
     | Raise _ => scrapeFails env apiKey url = true
     end.
Proof.
  intros Hkey Htruthy. unfold Post.scrape, scrapeFails. rewrite Hkey.
  destruct apiKey as [|c t]; [done|].
  destruct (scrapeUrl env (String c t) url) as [result|e]; [|done].
  unfold mbind, Action_bind, call. simpl.
  destruct (scrapedHtml result) as [[|c' t']|] eqn:Hhtml; simpl; rewrite ?andb_false_r;
    try done.
  destruct (success result) eqn:Hsuccess; simpl; [|done].
  split; [done|]. split; [done|]. by exists result.
Qed.

(** The handler once the address has been read and accepted. *)
Lemma handle_accepted (env : Environment) (url : string) :
  requestUrl env = Returns (Some url) -> Js.truthy url = true -> validUrl env url = true ->
  Post.handle env
  = (html ← tryCatch (Post.scrape env url) (fun _ => Post.fetchDirectly env url);
     document ← call (Jsdom html url) (jsdom env html url);
     results ← attempt (Full.runAccessibilityChecks document);
     mret (Json (Post.formatReport url (Post.crawlMethodOf env) (now env) results))).
Proof.
  intros Hurl Htruthy Hvalid. unfold Post.handle. rewrite Hurl.
  destruct url as [|c t]; [done|].
  unfold attempt. unfold mbind at 1. unfold Action_bind at 1. cbn [step calls].
  rewrite Hvalid. cbn [negb app].
  match goal with |- mkAction (calls ?X) _ = _ => by destruct X end.
Qed.

Lemma relabel_handleError (method : string) (e : JsError) :
  relabel method (Post.handleError e) = Post.handleError e.
Proof. unfold Post.handleError. by repeat case_match. Qed.

Lemma fetchDirectly_shape (env : Environment) (url : string) :
  match step (Post.fetchDirectly env url) with
  | Continue html => calls (Post.fetchDirectly env url) = [Fetch url; ReadText]
  | Reply response =>
      calls (Post.fetchDirectly env url) = [Fetch url]
      /\ exists error, response = ErrorJson error 400
  | Raise _ => True
  end.
Proof.
  unfold Post.fetchDirectly, call, reply, mbind, Action_bind. cbn [step calls].
  destruct (fetch env url) as [response|e]; cbn [step calls]; [|done].
  destruct (ok response); cbn [negb step calls app]; [|eauto].
  by destruct (text response).
Qed.

(** How the markup is obtained: the calls made, and which of the two
    sources delivered. *)
Lemma fetched_shape (env : Environment) (url : string) :
  let fetched := tryCatch (Post.scrape env url) (fun _ => Post.fetchDirectly env url) in
  match step fetched with
  | Continue html =>
      Js.truthyOpt (FIRECRAWL_API_KEY env) = false
      /\ calls fetched = [Fetch url; ReadText]
      \/ exists apiKey,
           FIRECRAWL_API_KEY env = Some apiKey
           /\ Js.truthy apiKey = true
           /\ (scrapeFails env apiKey url = false /\ calls fetched = [ScrapeUrl apiKey url]
               \/ scrapeFails env apiKey url = true
                  /\ calls fetched = [ScrapeUrl apiKey url; Fetch url; ReadText])
  | Reply response => exists error, response = ErrorJson error 400
  | Raise _ => True
  end.
Proof.
  intros fetched. subst fetched.
  pose proof (fetchDirectly_shape env url) as Hdirect.
  destruct (Js.truthyOpt (FIRECRAWL_API_KEY env)) eqn:Hkey.
  - destruct (FIRECRAWL_API_KEY env) as [apiKey|] eqn:Hsome; [|done]. simpl in Hkey.
    destruct (scrape_with_key env apiKey url Hsome Hkey) as [Hcalls Hstep].
    unfold tryCatch.
    destruct (step (Post.scrape env url)) as [html|response|e] eqn:Hscrape; [|done|].
    + rewrite Hscrape. destruct Hstep as [Hfails _]. right. exists apiKey. eauto.
    + cbn [step calls]. rewrite Hcalls.
      destruct (step (Post.fetchDirectly env url)) as [html|response|e']; [|tauto|done].
      right. exists apiKey. rewrite Hdirect. eauto 6.
  - rewrite (scrape_without_key env url Hkey). unfold tryCatch, raise. cbn [step calls app].
    destruct (step (Post.fetchDirectly env url)) as [html|response|e']; [|tauto|done].
    left. by rewrite Hdirect.
Qed.

Lemma post_rejected (env : Environment) :
  (forall url, requestUrl env = Returns (Some url) -> Js.truthy url = true ->
               validUrl env url = false) ->
  (exists error, fst (Post.POST env) = ErrorJson error 400)
  \/ (exists e, fst (Post.POST env) = Post.handleError e).
Proof.
  intros Hrejected. unfold Post.POST, Post.handle. cbn [fst].
  destruct (requestUrl env) as [[[|c t]|]|e] eqn:Hurl; cbn; eauto.
  rewrite (Hrejected (String c t)) by done. cbn. eauto.
Qed.

Lemma post_accepted (env : Environment) (url : string) :
  requestUrl env = Returns (Some url) -> Js.truthy url = true -> validUrl env url = true ->
  let fetched := tryCatch (Post.scrape env url) (fun _ => Post.fetchDirectly env url) in
  (exists html document results,
      step fetched = Continue html
      /\ jsdom env html url = Returns document
      /\ Full.runAccessibilityChecks document = Returns results
      /\ Post.POST env
         = (Json (Post.formatReport url (Post.crawlMethodOf env) (now env) results),
            calls fetched ++ [Jsdom html url]))
  \/ (exists error, fst (Post.POST env) = ErrorJson error 400)
  \/ (exists e, fst (Post.POST env) = Post.handleError e).
Proof.
  intros Hurl Htruthy Hvalid fetched.
  unfold Post.POST. rewrite (handle_accepted env url Hurl Htruthy Hvalid). fold fetched.
  pose proof (fetched_shape env url) as Hshape. cbv zeta in Hshape. fold fetched in Hshape.
  unfold call, attempt, mbind, Action_bind, mret, Action_ret.
  destruct (step fetched) as [html|response|e]; cbn [step calls fst snd].
  - destruct (jsdom env html url) as [document|e] eqn:Hdom; cbn [step calls]; [|eauto].
    destruct (Full.runAccessibilityChecks document) as [results|e] eqn:Hrun;
      cbn [step calls]; [|eauto].
    left. exists html, document, results. by rewrite app_nil_r.
  - destruct Hshape as [error ->]. eauto.
  - eauto.
Qed.

Lemma post_response_kinds (env : Environment) :
  (exists report, fst (Post.POST env) = Json report)
  \/ (exists error, fst (Post.POST env) = ErrorJson error 400)
  \/ (exists e, fst (Post.POST env) = Post.handleError e).
Proof.
  destruct (requestUrl env) as [[url|]|e] eqn:Hurl;
    try (right; apply post_rejected; intros url' Hcontra; congruence).
  destruct (Js.truthy url) eqn:Htruthy;
    [|right; apply post_rejected; intros url' Hcontra; congruence].
  destruct (validUrl env url) eqn:Hvalid;
    [|right; apply post_rejected; intros url' Hcontra; congruence].
  destruct (post_accepted env url Hurl Htruthy Hvalid)
    as [(html & document & results & _ & _ & _ & ->)|Herror]; [|by right].
  left. eauto.
Qed.

Lemma not_a_report (env : Environment) (report : Report) (trace : list Call) :
  Post.POST env = (Json report, trace) ->
  ~ ((exists error, fst (Post.POST env) = ErrorJson error 400)
     \/ (exists e, fst (Post.POST env) = Post.handleError e)).
Proof.
  intros -> [[error Herror]|[e He]]; simpl in *; [done|].
  destruct (handleError_status e) as (error & status & Hstatus & _). congruence.
Qed.

End PostLemmas.

(** X19. [POST] answers a request without [url], or with an empty one,
    with status 400 and "URL is required", and a [url] that [new URL]
    rejects with status 400 and "Invalid URL format"; a body that cannot be
    read goes to the [catch] block. In all three cases no call leaves the
    process. *)
Theorem post_rejects_before_fetching `{Host} (env : Environment) :
  (requestUrl env = Returns None \/ requestUrl env = Returns (Some EmptyString) ->
   Post.POST env = (ErrorJson "URL is required" 400, []))
  /\ (forall url,
        requestUrl env = Returns (Some url) -> Js.truthy url = true ->
        validUrl env url = false ->
        Post.POST env = (ErrorJson "Invalid URL format" 400, []))
  /\ (forall e, requestUrl env = Throws e -> Post.POST env = (Post.handleError e, [])).
Proof.
  unfold Post.POST, Post.handle. split; [|split].
  - intros [-> | ->]; reflexivity.
  - intros url -> Htruthy Hvalid. destruct url as [|c t]; [done|]. simpl.
    by rewrite Hvalid.
  - intros e ->. reflexivity.
Qed.

(** X20. When a key is configured and Firecrawl does not deliver the page
    (the call throws, reports a failure or returns no markup), [POST]
    fetches the page directly: its response is the one that the same
    request gets without a key, except that a report is labelled
    [firecrawl], and its calls are those of that request after the call
    of Firecrawl. What Firecrawl threw is not reported. *)
Theorem firecrawl_failure_falls_back `{Host} (env : Environment) (apiKey url : string) :
  requestUrl env = Returns (Some url) -> Js.truthy url = true -> validUrl env url = true ->
  FIRECRAWL_API_KEY env = Some apiKey -> Js.truthy apiKey = true ->
  scrapeFails env apiKey url = true ->
  Post.POST env
  = (relabel "firecrawl" (fst (Post.POST (withoutKey env))),
     ScrapeUrl apiKey url :: snd (Post.POST (withoutKey env))).
Proof.
  intros Hurl Htruthy Hvalid Hkey Hkeytruthy Hfails.
  unfold Post.POST.
  rewrite (handle_accepted env url Hurl Htruthy Hvalid).
  rewrite (handle_accepted (withoutKey env) url Hurl Htruthy Hvalid).
  unfold Post.crawlMethodOf. rewrite Hkey.
  unfold Post.scrape, scrapeFails in *. rewrite Hkey.
  destruct apiKey as [|c t]; [done|].
  cbn [withoutKey FIRECRAWL_API_KEY fetch jsdom now scrapeUrl Js.truthyOpt Js.truthy].
  assert (Hscrape :
    exists e,
      (scrapeResult ← call (ScrapeUrl (String c t) url) (scrapeUrl env (String c t) url);
       match scrapedHtml scrapeResult with
       | Some (String _ _ as html) =>
           if success scrapeResult then mret html
           else raise (mkError "Error" "Firecrawl failed to scrape the URL")
       | _ => raise (mkError "Error" "Firecrawl failed to scrape the URL")
       end)
      = mkAction [ScrapeUrl (String c t) url] (Raise e)).
  { unfold call, mbind, Action_bind. cbn [step calls].
    destruct (scrapeUrl env (String c t) url) as [result|e]; [|eauto].
    destruct (scrapedHtml result) as [[|c' t']|]; simpl; eauto.
    simpl in Hfails. rewrite andb_true_r in Hfails. apply negb_true_iff in Hfails.
    rewrite Hfails. simpl. eauto. }
  destruct Hscrape as [e ->].
  unfold Post.fetchDirectly, tryCatch, call, attempt, raise, reply, mbind, Action_bind, mret,
    Action_ret.
  change (fetch (withoutKey env)) with (fetch env).
  change (jsdom (withoutKey env)) with (jsdom env).
  change (now (withoutKey env)) with (now env).
  cbn [step calls app].
  destruct (fetch env url) as [response|e1]; cbn [step calls app fst snd];
    [|by rewrite relabel_handleError].
  destruct (ok response); cbn [negb step calls app fst snd]; [|done].
  destruct (text response) as [html|e1]; cbn [step calls app fst snd];
    [|by rewrite relabel_handleError].
  destruct (jsdom env html url) as [document|e1]; cbn [step calls app fst snd];
    [|by rewrite relabel_handleError].
  destruct (Full.runAccessibilityChecks document) as [results|e1];
    cbn [step calls app fst snd]; [done | by rewrite relabel_handleError].
Qed.

(** X21. Every error response of [POST] has the status 400, 408 or
    500. *)
Theorem post_error_statuses `{Host} (env : Environment) (error : string) (status : nat)
    (trace : list Call) :
  Post.POST env = (ErrorJson error status, trace) ->
  status = 400%nat \/ status = 408%nat \/ status = 500%nat.
Proof.
  intros Hpost.
  destruct (post_response_kinds env) as [[report Hr]|[[error' Hr]|[e Hr]]];
    rewrite Hpost in Hr; simpl in Hr.
  - done.
  - injection Hr as _ ->. by left.
  - destruct (handleError_status e) as (error' & status' & He & Hstatus).
    rewrite He in Hr. by injection Hr as _ ->.
Qed.

(** X22. When [POST] answers with a report, the [url] was present and
    accepted, the report is the formatted result of the engine on the
    parsed document, and the calls were one of three sequences: the direct
    request, the reading of its body and the parsing, with the label
    [direct-fetch]; or, with a key configured and the label [firecrawl],
    the call of Firecrawl and the parsing, or the call of Firecrawl, the
    direct request, the reading of its body and the parsing. The label says
    whether a key is configured, not where the markup came from. *)
Theorem successful_requests `{Host} (env : Environment) (report : Report) (trace : list Call) :
  Post.POST env = (Json report, trace) ->
  exists url html document results,
    requestUrl env = Returns (Some url)
    /\ validUrl env url = true
    /\ jsdom env html url = Returns document
    /\ Full.runAccessibilityChecks document = Returns results
    /\ report = Post.formatReport url (Post.crawlMethodOf env) (now env) results
    /\ (Post.crawlMethodOf env = "direct-fetch"
        /\ trace = [Fetch url; ReadText; Jsdom html url]
        \/ exists apiKey,
             FIRECRAWL_API_KEY env = Some apiKey
             /\ Post.crawlMethodOf env = "firecrawl"
             /\ (scrapeFails env apiKey url = false
                 /\ trace = [ScrapeUrl apiKey url; Jsdom html url]
                 \/ scrapeFails env apiKey url = true
                    /\ trace = [ScrapeUrl apiKey url; Fetch url; ReadText; Jsdom html url])).
Proof.
  intros Hpost. pose proof (not_a_report env report trace Hpost) as Hnot.
  destruct (requestUrl env) as [[url|]|e] eqn:Hurl;
    try (exfalso; apply Hnot, post_rejected; intros url' Hcontra; congruence).
  destruct (Js.truthy url) eqn:Htruthy;
    [|exfalso; apply Hnot, post_rejected; intros url' Hcontra; congruence].
  destruct (validUrl env url) eqn:Hvalid;
    [|exfalso; apply Hnot, post_rejected; intros url' Hcontra; congruence].
  destruct (post_accepted env url Hurl Htruthy Hvalid)
    as [(html & document & results & Hstep & Hdom & Hrun & Hanswer)|Herror]; [|done].
  rewrite Hanswer in Hpost. injection Hpost as <- <-.
  exists url, html, document, results. repeat (split; [done|]).
  pose proof (fetched_shape env url) as Hshape. cbv zeta in Hshape. rewrite Hstep in Hshape.
  unfold Post.crawlMethodOf.
  destruct Hshape as [[Hkey ->]|(apiKey & Hkey & Hkeytruthy & Hcases)].
  - left. by rewrite Hkey.
  - right. exists apiKey. rewrite Hkey. simpl. rewrite Hkeytruthy.
    split; [done|]. split; [done|].
    destruct Hcases as [[Hfails ->]|[Hfails ->]]; [left | right]; done.
Qed.

Lemma post_rejects_before_fetching_witness :
  @Post.POST plainHost emptyRequest = (ErrorJson "URL is required" 400, []).
Proof.
  exact (proj1 (@post_rejects_before_fetching plainHost emptyRequest) (or_introl eq_refl)).
Defined.

Lemma successful_requests_witness :
  exists report trace,
    @Post.POST plainHost fallbackEnvironment = (Json report, trace)
    /\ crawlMethod report = "firecrawl"
    /\ trace = [ScrapeUrl "key" "https://example.com"; Fetch "https://example.com"; ReadText;
                Jsdom "<html>" "https://example.com"].
Proof.
  eexists _, _. split; [vm_compute; reflexivity|].
  destruct (@successful_requests plainHost fallbackEnvironment _ _ eq_refl)
    as (url & html & document & results & _ & _ & _ & _ & Hreport & _).
  split; [|reflexivity].
  exact (f_equal crawlMethod Hreport).
Defined.

Lemma post_error_statuses_witness :
  @Post.POST plainHost unreachableServer
  = (ErrorJson
       "Unable to reach the specified URL. Please check if the URL is accessible and allows server requests."
       400, [Fetch "https://example.com"])
  /\ (400 = 400 \/ 400 = 408 \/ 400 = 500)%nat.
Proof.
  split; [reflexivity|].
  exact (@post_error_statuses plainHost unreachableServer _ 400%nat _ eq_refl).
Defined.

Lemma firecrawl_failure_falls_back_witness :
  @Post.POST plainHost fallbackEnvironment
  = (relabel "firecrawl" (fst (@Post.POST plainHost (withoutKey fallbackEnvironment))),
     ScrapeUrl "key" "https://example.com"
     :: snd (@Post.POST plainHost (withoutKey fallbackEnvironment))).
Proof.
  exact (@firecrawl_failure_falls_back plainHost fallbackEnvironment "key" "https://example.com"
           eq_refl eq_refl eq_refl eq_refl eq_refl eq_refl).
Defined.

(** ** The report on the page *)

Lemma pushed_in_table `{Host} document formSt htmlElement :
  Forall (fun v => inTable v = true) (Full.pushedViolations document formSt htmlElement).
Proof.
  unfold Full.pushedViolations.
  repeat (apply Forall_app; split);
    try (apply Forall_whenAny; intros n ns; reflexivity);
    try (apply Forall_if; reflexivity).
  destruct (Full.h1s document) as [|a [|b l]]; repeat constructor.
Qed.

Lemma shaped_kind (v : AccessibilityViolation) : kind (Post.shapeViolation v) = kind v.
Proof. reflexivity. Qed.

Lemma table_property (P : string * string * list string -> bool) (v : AccessibilityViolation) :
  forallb P ruleTable = true -> inTable v = true -> P (kind v) = true.
Proof.
  intros Hall Hin. unfold inTable in Hin. apply existsb_exists in Hin as (row & Hrow & Heq).
  apply bool_decide_eq_true_1 in Heq. subst row.
  rewrite forallb_forall in Hall. by apply Hall.
Qed.

Lemma arrayIncludes_In (arr : list string) (x : string) :
  In x arr -> Js.arrayIncludes arr x = true.
Proof.
  intros Hin. unfold Js.arrayIncludes. apply existsb_exists.
  exists x. split; [done | apply String.eqb_refl].
Qed.

(** X23. For every report of the engine, the page shows the level AA for
    the [color-contrast] entry and the level A for every other entry.
    [getWcagLevel] gives the highest level among the tags: AAA as soon as
    [wcag2aaa] is among them, and AA when [wcag2aa] is and [wcag2aaa] is
    not. *)
Theorem wcag_levels_of_reports `{Host} (url crawlMethod timestamp : string)
    (document : Document) (r : AccessibilityResult) :
  Full.runAccessibilityChecks document = Returns r ->
  Forall (fun v =>
            View.getWcagLevel (v_tags v)
            = if String.eqb (v_id v) "color-contrast" then "AA" else "A")
    (report_violations (Post.formatReport url crawlMethod timestamp r))
  /\ (forall tags, In "wcag2aaa" tags -> View.getWcagLevel tags = "AAA")
  /\ (forall tags,
        In "wcag2aa" tags -> ~ In "wcag2aaa" tags -> View.getWcagLevel tags = "AA").
Proof.
  intros Hrun.
  destruct (run_returns _ _ Hrun) as (formSt & htmlElement & _ & _ & ->).
  split; [|split].
  2: { intros tags Hin. unfold View.getWcagLevel. by rewrite (arrayIncludes_In tags _ Hin). }
  2: { intros tags Hin Hnot. unfold View.getWcagLevel.
       rewrite (arrayIncludes_In tags _ Hin).
       destruct (Js.arrayIncludes tags "wcag2aaa") eqn:Haaa; [|done].
       exfalso. apply Hnot. unfold Js.arrayIncludes in Haaa.
       apply existsb_exists in Haaa as (tag & Htag & Heq).
       apply String.eqb_eq in Heq. by subst tag. }
  simpl. apply Forall_fmap.
  eapply Forall_impl; [apply pushed_in_table|].
  intros v Hv. unfold compose.
  change (v_tags (Post.shapeViolation v)) with (snd (kind v)).
  change (v_id (Post.shapeViolation v)) with (fst (fst (kind v))).
  apply String.eqb_eq.
  apply (table_property
           (fun row => String.eqb (View.getWcagLevel (snd row))
                         (if String.eqb (fst (fst row)) "color-contrast" then "AA" else "A"))
           v); [reflexivity | done].
Qed.

Lemma wcag_levels_of_reports_witness :
  exists r,
    @Full.runAccessibilityChecks plainHost twelveImages = Returns r
    /\ Forall (fun v =>
                 View.getWcagLevel (v_tags v)
                 = if String.eqb (v_id v) "color-contrast" then "AA" else "A")
         (report_violations (Post.formatReport "u" "direct-fetch" "t" r)).
Proof.
  eexists. split; [vm_compute; reflexivity|].
  exact (proj1 (@wcag_levels_of_reports plainHost "u" "direct-fetch" "t" twelveImages _ eq_refl)).
Defined.

Lemma in_digitChars (a : ascii) : Js.isDigit a = true -> In a digitChars.
Proof. intros Ha. apply List.filter_In. split; [apply in_allChars | done]. Qed.

Lemma criteria_three_digits (a b c : ascii) :
  Js.isDigit a = true -> Js.isDigit b = true -> Js.isDigit c = true ->
  View.getWcagCriteria [criterionTag a b c]
  = "WCAG " +:+ String a (String "." (String b (String "." (String c EmptyString)))).
Proof.
  intros Ha Hb Hc.
  assert (Hall : forallb (fun a => forallb (fun b => forallb (fun c =>
            String.eqb (View.getWcagCriteria [criterionTag a b c])
              ("WCAG " +:+ String a (String "." (String b (String "." (String c EmptyString))))))
            digitChars) digitChars) digitChars = true) by (vm_compute; reflexivity).
  rewrite forallb_forall in Hall. specialize (Hall a (in_digitChars a Ha)).
  rewrite forallb_forall in Hall. specialize (Hall b (in_digitChars b Hb)).
  rewrite forallb_forall in Hall. specialize (Hall c (in_digitChars c Hc)).
  by apply String.eqb_eq.
Qed.

(** X24. [getWcagCriteria] writes the tag of a criterion with three
    digits as [WCAG a.b.c]. For every report of the engine, the criteria
    line of each entry is never "Not specified" and begins with the level
    tag, shown as [WCAG 2a] or [WCAG 2aa], before the criteria. *)
Theorem wcag_criteria_line `{Host} (url crawlMethod timestamp : string)
    (document : Document) (r : AccessibilityResult) :
  Full.runAccessibilityChecks document = Returns r ->
  (forall a b c,
      Js.isDigit a = true -> Js.isDigit b = true -> Js.isDigit c = true ->
      View.getWcagCriteria [criterionTag a b c]
      = "WCAG " +:+ String a (String "." (String b (String "." (String c EmptyString)))))
  /\ Forall (fun v =>
               View.criteriaLine v = View.getWcagCriteria (v_tags v)
               /\ Js.startsWith (View.criteriaLine v) "WCAG 2a" = true)
       (report_violations (Post.formatReport url crawlMethod timestamp r))
  /\ (forall nodes,
        View.criteriaLine (Full.imageAlt nodes) = "WCAG 2a, WCAG 1.1.1"
        /\ View.criteriaLine (Full.colorContrast nodes) = "WCAG 2aa, WCAG 1.4.3").
Proof.
  intros Hrun.
  destruct (run_returns _ _ Hrun) as (formSt & htmlElement & _ & _ & ->).
  split; [exact criteria_three_digits|]. split; [|done].
  simpl. apply Forall_fmap.
  eapply Forall_impl; [apply pushed_in_table|].
  intros v Hv. unfold compose, View.criteriaLine.
  change (v_tags (Post.shapeViolation v)) with (snd (kind v)).
  pose proof (table_property
           (fun row =>
              Js.truthy (View.getWcagCriteria (snd row))
              && Js.startsWith (View.getWcagCriteria (snd row)) "WCAG 2a") v eq_refl Hv) as Hrow.
  cbv beta in Hrow. apply andb_prop in Hrow as [-> ->]. done.
Qed.

Lemma wcag_criteria_line_witness :
  exists r,
    @Full.runAccessibilityChecks plainHost twelveImages = Returns r
    /\ map View.criteriaLine (report_violations (Post.formatReport "u" "direct-fetch" "t" r))
       = ["WCAG 2a, WCAG 1.1.1"]
    /\ Forall (fun v => Js.startsWith (View.criteriaLine v) "WCAG 2a" = true)
         (report_violations (Post.formatReport "u" "direct-fetch" "t" r)).
Proof.
  eexists. split; [vm_compute; reflexivity|]. split; [reflexivity|].
  eapply Forall_impl;
    [exact (proj1 (proj2 (@wcag_criteria_line plainHost "u" "direct-fetch" "t" twelveImages
                            _ eq_refl)))|].
  intros v [_ Hv]. exact Hv.
Defined.

Lemma count_impacts (vs : list AccessibilityViolation) (report : Report) :
  report_violations report = vs ->
  Forall (fun v => Js.arrayIncludes ["critical"; "serious"; "moderate"] (v_impact v) = true) vs ->
  View.minorIssues report = 0%nat
  /\ View.totalIssues report
     = (View.criticalIssues report + View.seriousIssues report + View.moderateIssues report)%nat.
Proof.
  unfold View.minorIssues, View.criticalIssues, View.seriousIssues, View.moderateIssues,
    View.totalIssues, View.issues.
  intros -> Hall. induction Hall as [|v vs Hv _ [IHminor IHtotal]]; [done|].
  cbn [List.filter length]. unfold Js.arrayIncludes in Hv. cbn [existsb] in Hv.
  rewrite orb_false_r in Hv.
  destruct (String.eqb_spec (v_impact v) "critical") as [->|_]; [simpl in *; lia|].
  destruct (String.eqb_spec (v_impact v) "serious") as [->|_]; [simpl in *; lia|].
  destruct (String.eqb_spec (v_impact v) "moderate") as [->|_]; [simpl in *; lia|].
  done.
Qed.

Lemma length_whenAny nodes entry : length (Full.whenAny nodes entry) <= 1.
Proof. destruct nodes; simpl; lia. Qed.

Lemma length_pushed `{Host} document formSt htmlElement :
  length (Full.pushedViolations document formSt htmlElement) <= 15.
Proof.
  unfold Full.pushedViolations. rewrite !length_app.
  repeat match goal with
         | |- context [length (Full.whenAny ?nodes ?entry)] =>
             let Hle := fresh "Hle" in
             pose proof (length_whenAny nodes entry) as Hle;
             generalize dependent (length (Full.whenAny nodes entry)); intros
         end.
  assert (Hh1 : length (Full.headingOneViolations (Full.h1s document)) <= 1)
    by (destruct (Full.h1s document) as [|a [|b l]]; simpl; lia).
  repeat match goal with
         | |- context [if ?c then _ else _] => destruct c
         end; simpl; lia.
Qed.

(** X25. For every report of the engine, the page counts no minor
    issue, the total is the sum of the critical, serious and moderate
    counts, and it is at most 15. *)
Theorem issue_counts_of_reports `{Host} (url crawlMethod timestamp : string)
    (document : Document) (r : AccessibilityResult) :
  Full.runAccessibilityChecks document = Returns r ->
  let report := Post.formatReport url crawlMethod timestamp r in
  View.minorIssues report = 0%nat
  /\ View.totalIssues report
     = (View.criticalIssues report + View.seriousIssues report + View.moderateIssues report)%nat
  /\ View.totalIssues report <= 15.
Proof.
  intros Hrun report.
  destruct (run_returns _ _ Hrun) as (formSt & htmlElement & _ & _ & ->).
  destruct (count_impacts (report_violations report) report eq_refl) as [Hminor Htotal].
  { subst report. simpl. apply Forall_fmap.
    eapply Forall_impl; [apply pushed_in_table|].
    intros v Hv. unfold compose.
    change (v_impact (Post.shapeViolation v)) with (snd (fst (kind v))).
    by apply (table_property
                (fun row => Js.arrayIncludes ["critical"; "serious"; "moderate"] (snd (fst row)))
                v). }
  split; [done|]. split; [done|].
  subst report. unfold View.totalIssues. simpl. rewrite length_map.
  apply length_pushed.
Qed.

Lemma issue_counts_of_reports_witness :
  exists r,
    @Full.runAccessibilityChecks plainHost twoButtons = Returns r
    /\ View.minorIssues (Post.formatReport "u" "direct-fetch" "t" r) = 0%nat
    /\ View.totalIssues (Post.formatReport "u" "direct-fetch" "t" r) = 2%nat
    /\ View.criticalIssues (Post.formatReport "u" "direct-fetch" "t" r) = 1%nat.
Proof.
  eexists. split; [vm_compute; reflexivity|].
  split; [|split; reflexivity].
  exact (proj1 (@issue_counts_of_reports plainHost "u" "direct-fetch" "t" twoButtons _ eq_refl)).
Defined.

Lemma length_emitted checks : length (Full.emitPasses checks) <= length checks.
Proof.
  rewrite emitPasses_flat_map. induction checks as [|c checks IH]; simpl; [done|].
  rewrite length_app. unfold emitOne at 1. destruct (Full.condition c); simpl; lia.
Qed.

(** X26. For every report of the engine, the page shows the first three
    nodes of each violation, and the line "... and N more elements" counts
    the nodes of the report, which holds at most five of them: N is 1 or 2
    whatever the number of findings. All passes are shown, and the line
    "... and N more passed tests" never is. *)
Theorem report_display `{Host} (url crawlMethod timestamp : string)
    (document : Document) (r : AccessibilityResult) :
  Full.runAccessibilityChecks document = Returns r ->
  let report := Post.formatReport url crawlMethod timestamp r in
  Forall2 (fun shaped v =>
             View.shownNodes shaped = take 3 (v_nodes v)
             /\ View.moreElements shaped
                = if (3 <? length (v_nodes v))%nat
                  then Some (Nat.min 5 (length (v_nodes v)) - 3)%nat else None)
    (report_violations report) (violations r)
  /\ Forall (fun shaped =>
               length (View.shownNodes shaped) <= 3
               /\ match View.moreElements shaped with
                  | Some more => 1 <= more <= 2
                  | None => True
                  end)
       (report_violations report)
  /\ View.shownPasses report = report_passes report
  /\ View.morePasses report = None.
Proof.
  intros Hrun report. subst report.
  assert (Hshown : forall v,
            View.shownNodes (Post.shapeViolation v) = take 3 (v_nodes v)
            /\ View.moreElements (Post.shapeViolation v)
               = if (3 <? length (v_nodes v))%nat
                 then Some (Nat.min 5 (length (v_nodes v)) - 3)%nat else None).
  { intros v. unfold View.shownNodes, View.moreElements.
    rewrite shapeViolation_nodes, take_take, length_take. split; [done|].
    destruct (Nat.ltb_spec 3 (length (v_nodes v)));
      destruct (Nat.ltb_spec 3 (5 `min` length (v_nodes v))); try done; lia. }
  split; [apply Forall2_map_l; intros v; apply Hshown|].
  split.
  { simpl. apply Forall_fmap, Forall_true. intros v. unfold compose.
    destruct (Hshown v) as [-> ->]. rewrite length_take. split; [lia|].
    destruct (Nat.ltb_spec 3 (length (v_nodes v))); [lia | done]. }
  destruct (run_returns _ _ Hrun) as (formSt & htmlElement & _ & _ & ->).
  pose proof (length_emitted (Full.passChecks document formSt htmlElement)) as Hpasses.
  change (length (Full.passChecks _ _ _)) with 9%nat in Hpasses.
  unfold View.shownPasses, View.morePasses. simpl.
  split.
  - apply take_ge. rewrite length_map. lia.
  - rewrite length_map. by destruct (Nat.ltb_spec 10 (length (Full.emitPasses
                                       (Full.passChecks document formSt htmlElement)))); [lia|].
Qed.

Lemma report_display_witness :
  exists r,
    @Full.runAccessibilityChecks plainHost twelveImages = Returns r
    /\ map (fun v => length (v_nodes v)) (violations r) = [12%nat]
    /\ map View.moreElements (report_violations (Post.formatReport "u" "direct-fetch" "t" r))
       = [Some 2%nat]
    /\ View.morePasses (Post.formatReport "u" "direct-fetch" "t" r) = None.
Proof.
  eexists. split; [vm_compute; reflexivity|]. split; [reflexivity|]. split; [reflexivity|].
  exact (proj2 (proj2 (proj2
           (@report_display plainHost "u" "direct-fetch" "t" twelveImages _ eq_refl)))).
Defined.
